(** * ts-reporter: rewards arranged by user

    A shallow embedding of the two variants of the GitHub action
    ([src/main.ts], one reward file per month, and the dual-schema file with
    one reward file per token and month) and the properties of the month-index
    builder, of the reshape loops and of the publish sequence. *)

From Stdlib Require Import String Ascii List ZArith NArith Bool Lia FinFun.
From Stdlib Require Import DecimalString.
Import ListNotations.
Local Open Scope string_scope.
Local Open Scope list_scope.

(** ** JavaScript objects used as dictionaries

    Every object the action builds is created by the literal [{}]: an ordinary
    object whose prototype is [Object.prototype].  An object is modelled by the
    list of its own enumerable properties in the order [Object.entries] and
    [JSON.stringify] enumerate them: array-index keys in ascending numeric
    order first, then the other keys in order of creation. *)
Module Js.

Definition Obj (V : Type) : Type := list (string * V).

(** The property names every [{}] inherits from [Object.prototype]. *)
Definition proto_names : list string :=
  [ "constructor"; "__defineGetter__"; "__defineSetter__"; "hasOwnProperty";
    "__lookupGetter__"; "__lookupSetter__"; "isPrototypeOf";
    "propertyIsEnumerable"; "toString"; "valueOf"; "__proto__";
    "toLocaleString" ].

Definition inherited (k : string) : bool :=
  existsb (String.eqb k) proto_names.

(** A key that names no inherited property: reads and writes of such a key
    on a [{}] concern own properties only. *)
Definition plain (k : string) : Prop := inherited k = false.

Definition is_digit (c : ascii) : bool :=
  let n := nat_of_ascii c in (48 <=? n)%nat && (n <=? 57)%nat.

Fixpoint digits_value (s : string) (acc : N) : option N :=
  match s with
  | EmptyString => Some acc
  | String c s' =>
      if is_digit c
      then digits_value s' (acc * 10 + N.of_nat (nat_of_ascii c - 48))%N
      else None
  end.

(** [array_index k] is [Some n] when [k] is the canonical decimal string of
    an integer [n] with [0 <= n < 2^32 - 1]. *)
Definition array_index (k : string) : option N :=
  match k with
  | EmptyString => None
  | String c rest =>
      if Ascii.eqb c "0" && negb (String.eqb rest "") then None
      else if (10 <? String.length k)%nat then None
      else match digits_value k 0 with
           | Some n => if (n <? 4294967295)%N then Some n else None
           | None => None
           end
  end.

Section Own.
Context {V : Type}.

(** Own-property lookup. *)
Fixpoint get_own (k : string) (o : Obj V) : option V :=
  match o with
  | [] => None
  | (k', v) :: o' => if String.eqb k k' then Some v else get_own k o'
  end.

Definition has_own (k : string) (o : Obj V) : bool :=
  match get_own k o with Some _ => true | None => false end.

(** Overwrite the value of an own property; its position is kept. *)
Fixpoint update (k : string) (v : V) (o : Obj V) : Obj V :=
  match o with
  | [] => []
  | (k', v') :: o' =>
      if String.eqb k k' then (k, v) :: o' else (k', v') :: update k v o'
  end.

(** A new array-index key goes among the index keys, in numeric order. *)
Fixpoint insert_index (n : N) (k : string) (v : V) (o : Obj V) : Obj V :=
  match o with
  | [] => [(k, v)]
  | (k', v') :: o' =>
      match array_index k' with
      | Some n' =>
          if (n' <? n)%N then (k', v') :: insert_index n k v o'
          else (k, v) :: o
      | None => (k, v) :: o
      end
  end.

(** Create or overwrite the own data property [k]. *)
Definition define (k : string) (v : V) (o : Obj V) : Obj V :=
  if has_own k o then update k v o
  else match array_index k with
       | Some n => insert_index n k v o
       | None => o ++ [(k, v)]
       end.

(** The assignment [o[k] = v] on an object whose prototype chain ends in
    [Object.prototype] and whose other links carry plain data properties:
    the key [__proto__] reaches the accessor of [Object.prototype], which
    changes the prototype of [o] and creates no own property; every other
    key creates or overwrites an own property. *)
Definition set (k : string) (v : V) (o : Obj V) : Obj V :=
  if String.eqb k "__proto__" then o else define k v o.

(** The three outcomes of the read [o[k]] on a [{}]. *)
Inductive lookup : Type :=
| Own (v : V)
| Inherited
| Undefined.

Definition get (k : string) (o : Obj V) : lookup :=
  match get_own k o with
  | Some v => Own v
  | None => if inherited k then Inherited else Undefined
  end.

Definition keys (o : Obj V) : list string := map fst o.

End Own.

Arguments lookup V : clear implicits.

(** [Object.entries]: the own enumerable properties, in enumeration order. *)
Definition entries {V : Type} (o : Obj V) : list (string * V) := o.

(** Two objects are equal as mappings when they have the same own keys and
    hold related values under each, whatever the order of their keys. *)
Definition equiv {V : Type} (R : V -> V -> Prop) (o1 o2 : Obj V) : Prop :=
  forall k,
    match get_own k o1, get_own k o2 with
    | Some a, Some b => R a b
    | None, None => True
    | _, _ => False
    end.


(** *** Facts about own properties *)
Section OwnFacts.
Context {V : Type}.
Implicit Types (o : Obj V) (k : string) (v : V).

Lemma get_own_app k o1 o2 :
  get_own k (o1 ++ o2) =
  match get_own k o1 with Some v => Some v | None => get_own k o2 end.
Proof.
  induction o1 as [|[k' v'] o1 IH]; simpl; [reflexivity|].
  destruct (String.eqb k k'); [reflexivity | exact IH].
Qed.

Lemma get_own_In k v o : get_own k o = Some v -> In (k, v) o.
Proof.
  induction o as [|[k' v'] o IH]; simpl; [discriminate|].
  destruct (String.eqb_spec k k') as [->|Hne].
  - intros [= ->]. now left.
  - intros H. right. now apply IH.
Qed.

Lemma get_own_None k o : get_own k o = None <-> ~ In k (keys o).
Proof.
  induction o as [|[k' v'] o IH]; simpl.
  - split; [intros _ []|reflexivity].
  - destruct (String.eqb_spec k k') as [->|Hne].
    + split; [discriminate|]. intros H. exfalso. apply H. now left.
    + rewrite IH. split.
      * intros H [E|E]; [congruence | contradiction].
      * intros H E. apply H. now right.
Qed.

Lemma In_get_own k v o : NoDup (keys o) -> In (k, v) o -> get_own k o = Some v.
Proof.
  induction o as [|[k' v'] o IH]; simpl; [intros _ []|].
  intros Hnd [E|E].
  - injection E as -> ->. now rewrite String.eqb_refl.
  - inversion Hnd as [|? ? Hnotin Hnd']; subst.
    destruct (String.eqb_spec k k') as [->|Hne].
    + exfalso. apply Hnotin. change k' with (fst (k', v)). now apply in_map.
    + now apply IH.
Qed.

Lemma has_own_true k o : has_own k o = true <-> In k (keys o).
Proof.
  unfold has_own. destruct (get_own k o) eqn:E.
  - split; [|reflexivity]. intros _. apply get_own_In in E.
    change k with (fst (k, v)). now apply in_map.
  - apply get_own_None in E. split; [discriminate | contradiction].
Qed.

Lemma get_own_update_same k v o :
  has_own k o = true -> get_own k (update k v o) = Some v.
Proof.
  unfold has_own. induction o as [|[k' v'] o IH]; simpl; [discriminate|].
  destruct (String.eqb_spec k k') as [->|Hne]; simpl.
  - now rewrite String.eqb_refl.
  - intros H. destruct (String.eqb_spec k k'); [contradiction|]. now apply IH.
Qed.

Lemma get_own_update_other k k' v o :
  k' <> k -> get_own k' (update k v o) = get_own k' o.
Proof.
  intros Hne. induction o as [|[k0 v0] o IH]; simpl; [reflexivity|].
  destruct (String.eqb_spec k k0) as [->|Hne0]; simpl.
  - destruct (String.eqb_spec k' k0); [contradiction | reflexivity].
  - destruct (String.eqb k' k0); [reflexivity | exact IH].
Qed.

Lemma keys_update k v o : keys (update k v o) = keys o.
Proof.
  induction o as [|[k0 v0] o IH]; simpl; [reflexivity|].
  destruct (String.eqb_spec k k0) as [->|Hne0]; simpl; [reflexivity|].
  now rewrite IH.
Qed.

(** A new index key is placed somewhere inside the list, which is otherwise
    left as it was. *)
Lemma insert_index_split n k v o :
  exists o1 o2, o = o1 ++ o2 /\ insert_index n k v o = o1 ++ (k, v) :: o2.
Proof.
  induction o as [|[k0 v0] o IH]; simpl.
  - now exists [], [].
  - destruct (array_index k0) as [n'|].
    + destruct (n' <? n)%N.
      * destruct IH as (o1 & o2 & E1 & E2).
        exists ((k0, v0) :: o1), o2. simpl. now rewrite E2, <- E1.
      * now exists [], ((k0, v0) :: o).
    + now exists [], ((k0, v0) :: o).
Qed.

(** Creating a key the object does not have puts it at one position. *)
Lemma define_fresh_split k v o :
  has_own k o = false ->
  exists o1 o2, o = o1 ++ o2 /\ define k v o = o1 ++ (k, v) :: o2.
Proof.
  intros H. unfold define. rewrite H.
  destruct (array_index k) as [n|].
  - apply insert_index_split.
  - exists o, []. now rewrite app_nil_r.
Qed.

Lemma get_own_define_same k v o : get_own k (define k v o) = Some v.
Proof.
  destruct (has_own k o) eqn:H.
  - unfold define. rewrite H. now apply get_own_update_same.
  - destruct (define_fresh_split k v o H) as (o1 & o2 & E1 & ->).
    unfold has_own in H. rewrite E1, get_own_app in H.
    rewrite get_own_app. destruct (get_own k o1); [discriminate|].
    simpl. now rewrite String.eqb_refl.
Qed.

Lemma get_own_define_other k k' v o :
  k' <> k -> get_own k' (define k v o) = get_own k' o.
Proof.
  intros Hne. destruct (has_own k o) eqn:H.
  - unfold define. rewrite H. now apply get_own_update_other.
  - destruct (define_fresh_split k v o H) as (o1 & o2 & E1 & ->).
    rewrite E1, !get_own_app. destruct (get_own k' o1); [reflexivity|].
    simpl. destruct (String.eqb_spec k' k); [contradiction | reflexivity].
Qed.

Lemma length_define k v o :
  length (define k v o) = if has_own k o then length o else S (length o).
Proof.
  destruct (has_own k o) eqn:H.
  - unfold define. rewrite H. rewrite <- (length_map fst (update k v o)).
    change (map fst (update k v o)) with (keys (update k v o)).
    rewrite keys_update. apply length_map.
  - destruct (define_fresh_split k v o H) as (o1 & o2 & E1 & ->).
    rewrite E1, !length_app. simpl. lia.
Qed.

Lemma In_keys_define k k' v o :
  In k' (keys (define k v o)) <-> k' = k \/ In k' (keys o).
Proof.
  rewrite <- !has_own_true. unfold has_own.
  destruct (String.eqb_spec k' k) as [->|Hne].
  - rewrite get_own_define_same. split; [now left | reflexivity].
  - rewrite get_own_define_other by assumption.
    split; [now right | intros [E|E]; [contradiction | exact E]].
Qed.

Lemma get_own_set_same k v o :
  k <> "__proto__" -> get_own k (set k v o) = Some v.
Proof.
  intros H. unfold set. destruct (String.eqb_spec k "__proto__"); [contradiction|].
  apply get_own_define_same.
Qed.

Lemma get_own_set_other k k' v o :
  k' <> k -> get_own k' (set k v o) = get_own k' o.
Proof.
  intros H. unfold set. destruct (String.eqb k "__proto__"); [reflexivity|].
  now apply get_own_define_other.
Qed.

Lemma plain_not_proto k : plain k -> k <> "__proto__".
Proof. intros H ->. discriminate H. Qed.

Lemma equiv_refl (R : V -> V -> Prop) o : (forall v, R v v) -> equiv R o o.
Proof. intros HR k. destruct (get_own k o); auto. Qed.

(** Objects whose reads agree on every key hold equal values as mappings. *)
Lemma equiv_eq_of_get_own o1 o2 :
  (forall k, get_own k o1 = get_own k o2) -> equiv eq o1 o2.
Proof. intros H k. rewrite H. destruct (get_own k o2); auto. Qed.

Lemma option_ext (a b : option V) :
  (forall v, a = Some v <-> b = Some v) -> a = b.
Proof.
  intros H. destruct a as [x|], b as [y|]; auto.
  - symmetry. now apply H.
  - symmetry. now apply H.
  - now apply H.
Qed.

End OwnFacts.

End Js.

(** ** Thrown values and completions

    A JavaScript computation completes normally with a value or abruptly with
    a thrown value.  [ErrorObject] is a thrown value that passes
    [instanceof Error] (TypeError, SyntaxError, the request errors of the
    GitHub client); [OtherValue] is any other thrown value. *)
Record Error : Type := { err_name : string; message : string }.

Inductive thrown : Type :=
| ErrorObject (e : Error)
| OtherValue (v : string).

Inductive completion (A : Type) : Type :=
| Normal (a : A)
| Throw (t : thrown).

Arguments Normal {A} a.
Arguments Throw {A} t.

Definition TypeError (msg : string) : thrown :=
  ErrorObject {| err_name := "TypeError"; message := msg |}.

Definition SyntaxError (msg : string) : thrown :=
  ErrorObject {| err_name := "SyntaxError"; message := msg |}.

(** [entry.object.entries.map(...)] where [entry.object.entries] is
    [undefined] (the message text is the engine's, here V8's). *)
Definition map_of_undefined : thrown :=
  TypeError "Cannot read properties of undefined (reading 'map')".

(** [x[prop] = v] where [x] is [undefined]. *)
Definition set_of_undefined (prop : string) : thrown :=
  TypeError ("Cannot set properties of undefined (setting '" ++ prop ++ "')").

(** The outcome of [JSON.parse(text) as T]: the parsed document, taken at the
    type the source casts it to, or the SyntaxError the parser throws. *)
Inductive parsed (T : Type) : Type :=
| Parsed (t : T)
| Malformed (syntax_error_message : string).

Arguments Parsed {T} t.
Arguments Malformed {T} syntax_error_message.

(** ** The query result

    [QueryResult]: the entries of [HEAD:reports].  The declared type gives
    every entry a nested list; the query's [... on Tree] fragment fills it in
    only for entries that are trees, so the nested list is optional here. *)
Record File : Type := {
  file_name : string;         (* el.name *)
  text : string               (* el.object.text *)
}.

Record Entry : Type := {
  entry_name : string;                  (* entry.name *)
  entry_type : string;                  (* entry.type *)
  entry_entries : option (list File)    (* entry.object.entries *)
}.

(** [merkleTrees.repository.object.entries] *)
Definition QueryResult : Type := list Entry.

(** ** JSON.stringify(value, null, 2) *)
Module Json.
Local Open Scope string_scope.

#[local] Unset Elimination Schemes.
Inductive value : Type :=
| Number (n : Z)
| Str (s : string)
| Array (items : list value)
| Object (members : list (string * value)).
#[local] Set Elimination Schemes.

Definition quote_char : string := String (ascii_of_nat 34) EmptyString.
Definition newline : string := String (ascii_of_nat 10) EmptyString.
Definition gap : string := "  ".

Definition hex_digit (n : nat) : ascii :=
  if (n <? 10)%nat then ascii_of_nat (48 + n) else ascii_of_nat (87 + n).

Definition escape_char (c : ascii) : string :=
  let n := nat_of_ascii c in
  if (n =? 34)%nat then "\" ++ quote_char
  else if (n =? 92)%nat then "\\"
  else if (n =? 8)%nat then "\b"
  else if (n =? 9)%nat then "\t"
  else if (n =? 10)%nat then "\n"
  else if (n =? 12)%nat then "\f"
  else if (n =? 13)%nat then "\r"
  else if (n <? 32)%nat
       then "\u00" ++ String (hex_digit (n / 16)) (String (hex_digit (n mod 16)) "")
  else String c "".

Fixpoint escape (s : string) : string :=
  match s with
  | EmptyString => ""
  | String c s' => escape_char c ++ escape s'
  end.

Definition quote (s : string) : string := quote_char ++ escape s ++ quote_char.

(** Integer-valued numbers of magnitude below 10^21 print in plain decimal. *)
Definition number_to_string (n : Z) : string :=
  NilZero.string_of_int (Z.to_int n).

Fixpoint join (sep : string) (parts : list string) : string :=
  match parts with
  | [] => ""
  | [p] => p
  | p :: rest => p ++ sep ++ join sep rest
  end.

Definition wrap (opening closing indent : string) (parts : list string) : string :=
  match parts with
  | [] => opening ++ closing
  | _ =>
      let inner := indent ++ gap in
      opening ++ newline ++ inner
        ++ join ("," ++ newline ++ inner) parts
        ++ newline ++ indent ++ closing
  end.

Fixpoint serialize (indent : string) (j : value) : string :=
  match j with
  | Number n => number_to_string n
  | Str s => quote s
  | Array items =>
      wrap "[" "]" indent (map (serialize (indent ++ gap)) items)
  | Object members =>
      wrap "{" "}" indent
        (map (fun m => quote (fst m) ++ ": " ++ serialize (indent ++ gap) (snd m))
             members)
  end.

Definition stringify (j : value) : string := serialize "" j.

End Json.

(** ** The action's environment

    The calls [run] makes to the Actions toolkit and to the GitHub client.
    Each call takes the world from one state to the next and either returns
    a response or throws. *)
Record TreeItem : Type := {
  path : string;
  mode : string;
  item_type : string;
  sha : string
}.

Inductive call : Type :=
| GetInput (name : string)                (* core.getInput(name, {required: true}) *)
| GetOctokit (token : string)             (* github.getOctokit(token) *)
| Graphql (expression owner name : string)    (* octokit.graphql(RepoFiles) *)
| GetRef (owner repo ref : string)
| CreateBlob (owner repo content encoding : string)
| CreateTree (owner repo : string) (tree : list TreeItem) (base_tree : string)
| CreateCommit (owner repo message tree : string) (parents : list string)
| UpdateRef (owner repo ref sha : string)
| SetFailed (message : string).           (* core.setFailed(message) *)

(** What [run] reads from each response: the input's value, the query result,
    [data.object.sha] of the reference, [data.sha] of a created object. *)
Definition resp (c : call) : Type :=
  match c with
  | GetInput _ => string
  | GetOctokit _ => unit
  | Graphql _ _ _ => QueryResult
  | GetRef _ _ _ => string
  | CreateBlob _ _ _ _ => string
  | CreateTree _ _ _ _ => string
  | CreateCommit _ _ _ _ _ => string
  | UpdateRef _ _ _ _ => unit
  | SetFailed _ => unit
  end.

(** The five steps of the publish stage. *)
Definition is_publish (c : call) : bool :=
  match c with
  | GetRef _ _ _ | CreateBlob _ _ _ _ | CreateTree _ _ _ _
  | CreateCommit _ _ _ _ _ | UpdateRef _ _ _ _ => true
  | _ => false
  end.

Definition is_setFailed (c : call) : bool :=
  match c with SetFailed _ => true | _ => false end.

(** The string a response carries, if any: the value of an input, the sha of a
    reference or of a created object. *)
Definition observe (c : call) : resp c -> option string :=
  match c with
  | GetInput _ => fun r => Some r
  | GetRef _ _ _ => fun r => Some r
  | CreateBlob _ _ _ _ => fun r => Some r
  | CreateTree _ _ _ _ => fun r => Some r
  | CreateCommit _ _ _ _ _ => fun r => Some r
  | GetOctokit _ | Graphql _ _ _ | UpdateRef _ _ _ _ | SetFailed _ => fun _ => None
  end.

Inductive outcome : Type :=
| Returned (value : option string)
| Rejected (t : thrown).

(** An event of a run: the call made and how it ended. *)
Definition event : Type := call * outcome.

Definition trace_of {A W : Type} (x : list event * completion A * W) : list event :=
  fst (fst x).
Definition result_of {A W : Type} (x : list event * completion A * W) : completion A :=
  snd (fst x).
Definition world_of {A W : Type} (x : list event * completion A * W) : W :=
  snd x.

Definition handler (W : Type) : Type :=
  forall c : call, W -> completion (resp c) * W.

(** Computations that make calls, may throw, and record their events. *)
Definition M (W A : Type) : Type := W -> list event * completion A * W.

Section Monad.
Context {W : Type}.

Definition ret {A} (a : A) : M W A := fun w => ([], Normal a, w).

Definition lift {A} (c : completion A) : M W A := fun w => ([], c, w).

Definition bind {A B} (m : M W A) (f : A -> M W B) : M W B :=
  fun w =>
    match m w with
    | (tr, Normal a, w1) =>
        match f a w1 with
        | (tr2, r, w2) => (tr ++ tr2, r, w2)
        end
    | (tr, Throw t, w1) => (tr, Throw t, w1)
    end.

(** [try { m } catch (error) { handle error }] *)
Definition try_catch {A} (m : M W A) (handle : thrown -> M W A) : M W A :=
  fun w =>
    match m w with
    | (tr, Normal a, w1) => (tr, Normal a, w1)
    | (tr, Throw t, w1) =>
        match handle t w1 with
        | (tr2, r, w2) => (tr ++ tr2, r, w2)
        end
    end.

Definition perform (h : handler W) (c : call) : M W (resp c) :=
  fun w =>
    match h c w with
    | (Normal r, w1) => ([(c, Returned (observe c r))], Normal r, w1)
    | (Throw t, w1) => ([(c, Rejected t)], Throw t, w1)
    end.

End Monad.

Declare Scope action_scope.
Delimit Scope action_scope with action.
Notation "x <- m ;; k" := (bind m (fun x => k))
  (at level 61, m at next level, right associativity) : action_scope.

(** ** [run], outside the lines that build and reshape the index

    The two source files agree on everything but the month-index builder and
    the reshape loop between the query and [getRef]; [arrange] stands for
    these lines and [stringify] for [JSON.stringify(merkleTreesByUser, null, 2)]. *)
Section Run.
Context {W U : Type}.
Variable h : handler W.
Variable arrange : QueryResult -> completion U.
Variable stringify : U -> string.

Definition commit_message : string := "**GENERATED** Arrange Rewards by User".

Definition body : M W unit :=
  (owner <- perform h (GetInput "owner") ;;
   repo <- perform h (GetInput "repo") ;;
   token <- perform h (GetInput "token") ;;
   branchInput <- perform h (GetInput "branch") ;;
   octokit <- perform h (GetOctokit token) ;;
   merkleTrees <- perform h (Graphql "HEAD:reports" owner repo) ;;
   merkleTreesByUser <- lift (arrange merkleTrees) ;;
   currentBranch <- perform h (GetRef owner repo ("heads/" ++ branchInput)) ;;
   createBlob <- perform h
     (CreateBlob owner repo (stringify merkleTreesByUser) "utf-8") ;;
   createTree <- perform h
     (CreateTree owner repo
        [ {| path := "reports/merkle-trees-by-user.json";
             mode := "100644";
             item_type := "blob";
             sha := createBlob |} ]
        currentBranch) ;;
   createCommit <- perform h
     (CreateCommit owner repo commit_message createTree [currentBranch]) ;;
   perform h (UpdateRef owner repo ("heads/" ++ branchInput) createCommit))%action.

(** [catch (error) { if (error instanceof Error) core.setFailed(error.message) }] *)
Definition on_error (error : thrown) : M W unit :=
  match error with
  | ErrorObject e => perform h (SetFailed (message e))
  | OtherValue _ => ret tt
  end.

Definition run_with : M W unit := try_catch body on_error.

End Run.

(** ** The single-schema variant ([src/main.ts]) *)
Module Single.

Record Metadata : Type := { reason : string }.

(** The value the source's [Claim] type gives each user: the spec's Claim. *)
Record UserClaim : Type := {
  accountIndex : Z;
  amount : string;
  metadata : Metadata;
  windowIndex : Z;
  proof : list string
}.

Definition Claim : Type := Js.Obj UserClaim.

Record MerkleTree : Type := {
  id : Z;
  rewardToken : string;
  tree_windowIndex : Z;
  totalRewardsDistributed : string;
  merkleRoot : string;
  claims : Claim
}.

Definition MerkleTreesByMonth : Type := Js.Obj MerkleTree.
Definition MerkleTreesByUser : Type := Js.Obj (Js.Obj UserClaim).

Section Builder.
Variable JSON_parse : string -> parsed MerkleTree.

(** The inner [entry.object.entries.map(el => ...)] of lines 105-111, with
    [date = entry.name]. *)
Fixpoint visit_files (date : string) (els : list File)
    (merkleTreesByMonth : MerkleTreesByMonth) : completion MerkleTreesByMonth :=
  match els with
  | [] => Normal merkleTreesByMonth
  | el :: rest =>
      if String.eqb (file_name el) "merkle-tree.json"
      then match JSON_parse (text el) with
           | Malformed msg => Throw (SyntaxError msg)
           | Parsed merkleTree =>
               visit_files date rest (Js.set date merkleTree merkleTreesByMonth)
           end
      else visit_files date rest merkleTreesByMonth
  end.

(** The outer [merkleTrees.repository.object.entries.map(entry => ...)]. *)
Fixpoint visit_entries (entries : list Entry)
    (merkleTreesByMonth : MerkleTreesByMonth) : completion MerkleTreesByMonth :=
  match entries with
  | [] => Normal merkleTreesByMonth
  | entry :: rest =>
      match entry_entries entry with
      | None => Throw map_of_undefined
      | Some els =>
          match visit_files (entry_name entry) els merkleTreesByMonth with
          | Normal byMonth => visit_entries rest byMonth
          | Throw t => Throw t
          end
      end
  end.

(** Lines 102-113. *)
Definition merkleTreesByMonth (merkleTrees : QueryResult)
    : completion MerkleTreesByMonth :=
  visit_entries merkleTrees [].

End Builder.

(** The body of the inner loop, lines 127-130.  A [user] that names an
    inherited property reads as truthy: no slot is created, and the store goes
    to the inherited object, so [merkleTreesByUser] keeps its own properties
    as they are.  What the store does to the inherited object, and through it
    to later reads, is not modelled: the general results on the reshape are
    stated for keys that name no inherited property.  For the recipient key
    [__proto__] the inherited object is [Object.prototype] itself and the
    store is [Object.prototype[date] = claim], which a later read of
    [merkleTreesByUser[date]] finds: on an index with such a recipient this
    definition is not the code's output, and [SingleRealm.assign] below, which
    keeps the properties stored on [Object.prototype], is. *)
Definition assign (date user : string) (claim : UserClaim)
    (merkleTreesByUser : MerkleTreesByUser) : MerkleTreesByUser :=
  let merkleTreesByUser :=
    match Js.get user merkleTreesByUser with
    | Js.Undefined => Js.set user [] merkleTreesByUser
    | _ => merkleTreesByUser
    end in
  match Js.get user merkleTreesByUser with
  | Js.Own slot => Js.update user (Js.set date claim slot) merkleTreesByUser
  | _ => merkleTreesByUser
  end.

(** Lines 124-132. *)
Definition merkleTreesByUser (merkleTreesByMonth : MerkleTreesByMonth)
    : MerkleTreesByUser :=
  fold_left
    (fun out '(date, merkleTree) =>
       fold_left (fun out '(user, claim) => assign date user claim out)
                 (Js.entries (claims merkleTree)) out)
    (Js.entries merkleTreesByMonth) [].

(** The JSON value of the output; a claim's members in the order of the type
    declaration. *)
Definition claim_json (c : UserClaim) : Json.value :=
  Json.Object
    [ ("accountIndex", Json.Number (accountIndex c));
      ("amount", Json.Str (amount c));
      ("metadata", Json.Object [("reason", Json.Str (reason (metadata c)))]);
      ("windowIndex", Json.Number (windowIndex c));
      ("proof", Json.Array (map Json.Str (proof c))) ].

Definition to_json (u : MerkleTreesByUser) : Json.value :=
  Json.Object
    (map (fun us =>
            (fst us,
             Json.Object (map (fun dc => (fst dc, claim_json (snd dc))) (snd us))))
         u).

Definition JSON_stringify (u : MerkleTreesByUser) : string :=
  Json.stringify (to_json u).

Definition arrange (JSON_parse : string -> parsed MerkleTree)
    (merkleTrees : QueryResult) : completion MerkleTreesByUser :=
  match merkleTreesByMonth JSON_parse merkleTrees with
  | Normal byMonth => Normal (merkleTreesByUser byMonth)
  | Throw t => Throw t
  end.

Definition run {W : Type} (h : handler W)
    (JSON_parse : string -> parsed MerkleTree) : M W unit :=
  run_with h (arrange JSON_parse) JSON_stringify.

(** What the reshape is expected to read: the claims in iteration order. *)
Definition granted (merkleTreesByMonth : MerkleTreesByMonth)
    : list (string * string * UserClaim) :=
  flat_map (fun dm => map (fun uc => (fst dm, fst uc, snd uc)) (claims (snd dm)))
           merkleTreesByMonth.

(** [merkleTreesByUser[user][date]], own properties only. *)
Definition at_path (u : MerkleTreesByUser) (user date : string)
    : option UserClaim :=
  match Js.get_own user u with
  | Some slot => Js.get_own date slot
  | None => None
  end.

(** The number of claims the output holds. *)
Definition count (u : MerkleTreesByUser) : nat :=
  list_sum (map (fun us => length (snd us)) u).

(** The number of claims the input holds. *)
Definition count_in (m : MerkleTreesByMonth) : nat :=
  list_sum (map (fun dm => length (claims (snd dm))) m).

(** A month index as an object holds it: no key twice in an object, no
    recipient key that names an inherited property, no month key
    [__proto__]. *)
Definition well_formed (m : MerkleTreesByMonth) : Prop :=
  NoDup (Js.keys m) /\
  forall date merkleTree, In (date, merkleTree) m ->
    date <> "__proto__" /\
    NoDup (Js.keys (claims merkleTree)) /\
    forall user claim, In (user, claim) (claims merkleTree) -> Js.plain user.

End Single.

(** ** The dual-schema variant (one reward file per token and month) *)
Module Dual.

Record Recipient : Type := {
  windowIndex : Z;
  accountIndex : Z;
  rewards : string;
  proof : list string
}.

Record AggregateRewards : Type := {
  address : string;
  token : string;
  decimals : Z;
  amount : string;
  original_amount : string;
  pro_rata : string;
  non_active_pro_rata : string;
  redistributed_total : string;
  redistributed_to_stakers : string;
  redistributed_transferred : string;
  total_tax : string
}.

Record MerkleTree : Type := {
  tree_windowIndex : Z;
  chainId : Z;
  aggregateRewards : AggregateRewards;
  recipients : Js.Obj Recipient;
  root : string
}.

(** [{veAUXO: MerkleTree, xAUXO: MerkleTree}], as the object whose entries the
    reshape enumerates. *)
Definition MerkleTreesByToken : Type := Js.Obj MerkleTree.
Definition MerkleTreesByMonth : Type := Js.Obj MerkleTreesByToken.
Definition MerkleTreesByUser : Type := Js.Obj (Js.Obj (Js.Obj Recipient)).

(** The month-index builder reads [merkleTreesByMonth[date]] before it
    stores.  A read that finds no own property goes on to [Object.prototype];
    a store through [merkleTreesByMonth["__proto__"]] adds a property to
    [Object.prototype] itself, which later reads of that name find.
    [polluted] holds the names added so. *)
Record BuilderState : Type := {
  byMonth : MerkleTreesByMonth;
  polluted : list string
}.

Section Builder.
Variable JSON_parse : string -> parsed MerkleTree.

(** [merkleTreesByMonth[date][tokenKey] = merkleTree] (lines 123 and 128). *)
Definition store (date tokenKey : string) (merkleTree : MerkleTree)
    (st : BuilderState) : completion BuilderState :=
  match Js.get_own date (byMonth st) with
  | Some byToken =>
      Normal {| byMonth := Js.update date (Js.set tokenKey merkleTree byToken)
                                     (byMonth st);
                polluted := polluted st |}
  | None =>
      if Js.inherited date
      then Normal {| byMonth := byMonth st;
                     polluted := if String.eqb date "__proto__"
                                 then tokenKey :: polluted st
                                 else polluted st |}
      else if existsb (String.eqb date) (polluted st)
      then Normal st
      else Throw (set_of_undefined tokenKey)
  end.

(** One of the two [if] statements of lines 120-129. *)
Definition visit_token (fileName tokenKey date : string) (el : File)
    (st : BuilderState) : completion BuilderState :=
  if String.eqb (file_name el) fileName
  then match JSON_parse (text el) with
       | Malformed msg => Throw (SyntaxError msg)
       | Parsed merkleTree => store date tokenKey merkleTree st
       end
  else Normal st.

Fixpoint visit_files (date : string) (els : list File) (st : BuilderState)
    : completion BuilderState :=
  match els with
  | [] => Normal st
  | el :: rest =>
      match visit_token "merkle-tree-veAUXO.json" "veAUXO" date el st with
      | Throw t => Throw t
      | Normal st1 =>
          match visit_token "merkle-tree-xAUXO.json" "xAUXO" date el st1 with
          | Throw t => Throw t
          | Normal st2 => visit_files date rest st2
          end
      end
  end.

Fixpoint visit_entries (entries : list Entry) (st : BuilderState)
    : completion BuilderState :=
  match entries with
  | [] => Normal st
  | entry :: rest =>
      match entry_entries entry with
      | None => Throw map_of_undefined
      | Some els =>
          match visit_files (entry_name entry) els st with
          | Normal st1 => visit_entries rest st1
          | Throw t => Throw t
          end
      end
  end.

(** Lines 116-132. *)
Definition merkleTreesByMonth (merkleTrees : QueryResult)
    : completion MerkleTreesByMonth :=
  match visit_entries merkleTrees {| byMonth := []; polluted := [] |} with
  | Normal st => Normal (byMonth st)
  | Throw t => Throw t
  end.

End Builder.

(** The body of the innermost loop, lines 170-176.  As in the single-schema
    variant, a [user] or a [token] that names an inherited property reads as
    truthy, and the stores that follow go to the inherited object.  Those
    stores are not modelled: for a recipient or a token key [__proto__] they
    put a property on [Object.prototype], which later reads find, and on an
    index with such a key this definition is not the code's output.  The
    source type gives the token keys as [veAUXO] and [xAUXO]; the general
    results are stated for recipient keys that name no inherited property. *)
Definition assign (date token user : string) (recipient : Recipient)
    (merkleTreesByUser : MerkleTreesByUser) : MerkleTreesByUser :=
  let merkleTreesByUser :=
    match Js.get user merkleTreesByUser with
    | Js.Undefined => Js.set user [] merkleTreesByUser
    | _ => merkleTreesByUser
    end in
  match Js.get user merkleTreesByUser with
  | Js.Own slot =>
      let slot :=
        match Js.get token slot with
        | Js.Undefined => Js.set token [] slot
        | _ => slot
        end in
      match Js.get token slot with
      | Js.Own months =>
          Js.update user
            (Js.update token (Js.set date recipient months) slot)
            merkleTreesByUser
      | _ => Js.update user slot merkleTreesByUser
      end
  | _ => merkleTreesByUser
  end.

(** Lines 164-179. *)
Definition merkleTreesByUser (merkleTreesByMonth : MerkleTreesByMonth)
    : MerkleTreesByUser :=
  fold_left
    (fun out '(date, merkleTreesByToken) =>
       fold_left
         (fun out '(token, merkleTree) =>
            fold_left
              (fun out '(user, recipient) => assign date token user recipient out)
              (Js.entries (recipients merkleTree)) out)
         (Js.entries merkleTreesByToken) out)
    (Js.entries merkleTreesByMonth) [].

Definition recipient_json (r : Recipient) : Json.value :=
  Json.Object
    [ ("windowIndex", Json.Number (windowIndex r));
      ("accountIndex", Json.Number (accountIndex r));
      ("rewards", Json.Str (rewards r));
      ("proof", Json.Array (map Json.Str (proof r))) ].

Definition months_json (months : Js.Obj Recipient) : Json.value :=
  Json.Object (map (fun dr => (fst dr, recipient_json (snd dr))) months).

Definition to_json (u : MerkleTreesByUser) : Json.value :=
  Json.Object
    (map (fun us =>
            (fst us,
             Json.Object (map (fun tm => (fst tm, months_json (snd tm))) (snd us))))
         u).

Definition JSON_stringify (u : MerkleTreesByUser) : string :=
  Json.stringify (to_json u).

Definition arrange (JSON_parse : string -> parsed MerkleTree)
    (merkleTrees : QueryResult) : completion MerkleTreesByUser :=
  match merkleTreesByMonth JSON_parse merkleTrees with
  | Normal byMonth => Normal (merkleTreesByUser byMonth)
  | Throw t => Throw t
  end.

Definition run {W : Type} (h : handler W)
    (JSON_parse : string -> parsed MerkleTree) : M W unit :=
  run_with h (arrange JSON_parse) JSON_stringify.

(** The recipients in iteration order: month, token, address, claim. *)
Definition granted (m : MerkleTreesByMonth)
    : list (string * string * string * Recipient) :=
  flat_map
    (fun dm =>
       flat_map
         (fun tm =>
            map (fun ur => (fst dm, fst tm, fst ur, snd ur))
                (recipients (snd tm)))
         (snd dm))
    m.

(** [merkleTreesByUser[user][token][date]], own properties only. *)
Definition at_path (u : MerkleTreesByUser) (user token date : string)
    : option Recipient :=
  match Js.get_own user u with
  | Some slot =>
      match Js.get_own token slot with
      | Some months => Js.get_own date months
      | None => None
      end
  | None => None
  end.

Definition count (u : MerkleTreesByUser) : nat :=
  list_sum (map (fun us => list_sum (map (fun tm => length (snd tm)) (snd us))) u).

Definition count_in (m : MerkleTreesByMonth) : nat :=
  list_sum
    (map (fun dm => list_sum (map (fun tm => length (recipients (snd tm))) (snd dm)))
         m).

Definition well_formed (m : MerkleTreesByMonth) : Prop :=
  NoDup (Js.keys m) /\
  forall date byToken, In (date, byToken) m ->
    date <> "__proto__" /\
    NoDup (Js.keys byToken) /\
    forall token merkleTree, In (token, merkleTree) byToken ->
      Js.plain token /\
      NoDup (Js.keys (recipients merkleTree)) /\
      forall user recipient, In (user, recipient) (recipients merkleTree) ->
        Js.plain user.

End Dual.

(** ** The reshape in a process: [Object.prototype]

    [merkleTreesByUser] is a [{}]: a read of [merkleTreesByUser[user]] that
    finds no own property goes on to [Object.prototype].  For the recipient
    key [__proto__] the read gives [Object.prototype] itself, and the stores
    that follow put a property on it: from there on every read of that name
    finds it, in this reshape and in any later one of the same process.  The
    two modules below are the reshape loops with the properties so stored
    kept in a [Realm].

    A claim is an object with the data properties of its type, as the source
    types it.  A store on one of the built-in functions of [Object.prototype]
    depends on the properties of that function, which are not held here: the
    reshape is [Unfollowed] from that point. *)
Inductive result (A : Type) : Type :=
| Completes (a : A)
| Throws (t : thrown)
| Unfollowed.

Arguments Completes {A} a.
Arguments Throws {A} t.
Arguments Unfollowed {A}.

(** [Object.prototype.__proto__ = v] for an object [v]: the prototype of
    [Object.prototype] cannot be changed (the message text is V8's). *)
Definition immutable_prototype : thrown :=
  TypeError
    "Immutable prototype object 'Object.prototype' cannot have their prototype set".

(** [x[prop]] where [x] is [undefined]. *)
Definition read_of_undefined (prop : string) : thrown :=
  TypeError ("Cannot read properties of undefined (reading '" ++ prop ++ "')")%string.

(** *** The single-schema reshape, lines 124-132 of [src/main.ts]

    The store of line 130 on [Object.prototype] is
    [Object.prototype[date] = claim].  A store on a claim that sits on
    [Object.prototype] changes that claim only, and no read of the loop looks
    inside it. *)
Module SingleRealm.

(** The data properties the reshape has stored on [Object.prototype]: month
    labels, each with the claim stored under it. *)
Record Realm : Type := { added : Js.Obj Single.UserClaim }.

(** [Object.prototype] as the process starts. *)
Definition fresh : Realm := {| added := [] |}.

Definition State : Type := (Realm * Single.MerkleTreesByUser)%type.

(** What the read [merkleTreesByUser[user]] finds. *)
Inductive found : Type :=
| OwnSlot (slot : Js.Obj Single.UserClaim)
| ThePrototype
| StoredClaim (claim : Single.UserClaim)
| BuiltIn
| NotFound.

(** An own property first; then [Object.prototype]: its accessor [__proto__]
    gives the prototype of [merkleTreesByUser], which is [Object.prototype];
    then the properties stored on it, which also replace a built-in function
    of the same name; then the built-in functions. *)
Definition read (realm : Realm) (user : string)
    (merkleTreesByUser : Single.MerkleTreesByUser) : found :=
  match Js.get_own user merkleTreesByUser with
  | Some slot => OwnSlot slot
  | None =>
      if String.eqb user "__proto__" then ThePrototype
      else match Js.get_own user (added realm) with
           | Some claim => StoredClaim claim
           | None => if Js.inherited user then BuiltIn else NotFound
           end
  end.

(** The body of the inner loop, lines 127-130. *)
Definition assign (date user : string) (claim : Single.UserClaim)
    (st : State) : result State :=
  let '(realm, merkleTreesByUser) := st in
  let merkleTreesByUser :=
    match read realm user merkleTreesByUser with
    | NotFound => Js.set user [] merkleTreesByUser
    | _ => merkleTreesByUser
    end in
  match read realm user merkleTreesByUser with
  | OwnSlot slot =>
      Completes (realm, Js.update user (Js.set date claim slot) merkleTreesByUser)
  | ThePrototype =>
      if String.eqb date "__proto__" then Throws immutable_prototype
      else Completes ({| added := Js.define date claim (added realm) |},
                      merkleTreesByUser)
  | StoredClaim _ => Completes (realm, merkleTreesByUser)
  | BuiltIn => Unfollowed
  | NotFound => Throws (set_of_undefined date)
  end.

(** The inner loop, over [Object.entries(merkleTree.claims)]. *)
Fixpoint visit_claims (date : string) (claims : list (string * Single.UserClaim))
    (st : State) : result State :=
  match claims with
  | [] => Completes st
  | (user, claim) :: rest =>
      match assign date user claim st with
      | Completes st1 => visit_claims date rest st1
      | Throws t => Throws t
      | Unfollowed => Unfollowed
      end
  end.

(** The outer loop, over [Object.entries(merkleTreesByMonth)]. *)
Fixpoint visit_months (months : list (string * Single.MerkleTree))
    (st : State) : result State :=
  match months with
  | [] => Completes st
  | (date, merkleTree) :: rest =>
      match visit_claims date (Js.entries (Single.claims merkleTree)) st with
      | Completes st1 => visit_months rest st1
      | Throws t => Throws t
      | Unfollowed => Unfollowed
      end
  end.

(** Lines 124-132, in a process whose [Object.prototype] is [realm]. *)
Definition merkleTreesByUser (realm : Realm)
    (merkleTreesByMonth : Single.MerkleTreesByMonth) : result State :=
  visit_months (Js.entries merkleTreesByMonth) (realm, []).

(** Two reshapes of one month index in one process: the second starts from
    the [Object.prototype] the first has left. *)
Definition twice (merkleTreesByMonth : Single.MerkleTreesByMonth)
    : result (Single.MerkleTreesByUser * Single.MerkleTreesByUser) :=
  match merkleTreesByUser fresh merkleTreesByMonth with
  | Completes (realm, first) =>
      match merkleTreesByUser realm merkleTreesByMonth with
      | Completes (_, second) => Completes (first, second)
      | Throws t => Throws t
      | Unfollowed => Unfollowed
      end
  | Throws t => Throws t
  | Unfollowed => Unfollowed
  end.

End SingleRealm.

(** *** The dual-schema reshape, lines 164-179 of [part_000]

    With the recipient key [__proto__], line 174 is
    [Object.prototype[token] = {}] and line 176 stores the recipient in that
    object.  Every [{}] inherits it: from there on the read
    [merkleTreesByUser[user][token]] of line 173 is truthy for every
    recipient, no own object is created under [token], and line 176 stores
    in the object on [Object.prototype].

    The token keys are those of the source type, [veAUXO] and [xAUXO], or any
    other key that names no inherited property; on a token key that names
    one, and on a recipient key spelled like a token key already put on
    [Object.prototype], the reshape is [Unfollowed]. *)
Module DualRealm.

(** The objects the reshape has created on [Object.prototype]: token keys,
    each with its object of months. *)
Record Realm : Type := { shared : Js.Obj (Js.Obj Dual.Recipient) }.

Definition fresh : Realm := {| shared := [] |}.

Definition State : Type := (Realm * Dual.MerkleTreesByUser)%type.

(** What the read [merkleTreesByUser[user]] finds. *)
Inductive found : Type :=
| OwnSlot (slot : Js.Obj (Js.Obj Dual.Recipient))
| ThePrototype
| SharedMonths (months : Js.Obj Dual.Recipient)
| BuiltIn
| NotFound.

Definition read (realm : Realm) (user : string)
    (merkleTreesByUser : Dual.MerkleTreesByUser) : found :=
  match Js.get_own user merkleTreesByUser with
  | Some slot => OwnSlot slot
  | None =>
      if String.eqb user "__proto__" then ThePrototype
      else match Js.get_own user (shared realm) with
           | Some months => SharedMonths months
           | None => if Js.inherited user then BuiltIn else NotFound
           end
  end.

(** Lines 170-172. *)
Definition ensure_user (user : string) (st : State) : State :=
  let '(realm, merkleTreesByUser) := st in
  match read realm user merkleTreesByUser with
  | NotFound => (realm, Js.set user [] merkleTreesByUser)
  | _ => st
  end.

(** Lines 173-175, for a [token] that names no inherited property: the read
    of [token] on a slot finds an own property, or else the property of that
    name on [Object.prototype]. *)
Definition ensure_token (token user : string) (st : State) : result State :=
  let '(realm, merkleTreesByUser) := st in
  match read realm user merkleTreesByUser with
  | OwnSlot slot =>
      match Js.get_own token slot, Js.get_own token (shared realm) with
      | None, None =>
          Completes (realm, Js.update user (Js.set token [] slot) merkleTreesByUser)
      | _, _ => Completes st
      end
  | ThePrototype =>
      match Js.get_own token (shared realm) with
      | None => Completes ({| shared := Js.define token [] (shared realm) |},
                           merkleTreesByUser)
      | Some _ => Completes st
      end
  | SharedMonths _ => Unfollowed
  | BuiltIn => Unfollowed
  | NotFound => Throws (read_of_undefined token)
  end.

(** Line 176. *)
Definition store (date token user : string) (recipient : Dual.Recipient)
    (st : State) : result State :=
  let '(realm, merkleTreesByUser) := st in
  let on_prototype :=
    match Js.get_own token (shared realm) with
    | Some months =>
        Completes ({| shared := Js.update token (Js.set date recipient months)
                                          (shared realm) |},
                   merkleTreesByUser)
    | None => Throws (set_of_undefined date)
    end in
  match read realm user merkleTreesByUser with
  | OwnSlot slot =>
      match Js.get_own token slot with
      | Some months =>
          Completes (realm,
                     Js.update user
                       (Js.update token (Js.set date recipient months) slot)
                       merkleTreesByUser)
      | None => on_prototype
      end
  | ThePrototype => on_prototype
  | SharedMonths _ => Unfollowed
  | BuiltIn => Unfollowed
  | NotFound => Throws (read_of_undefined token)
  end.

(** The body of the innermost loop, lines 170-176. *)
Definition assign (date token user : string) (recipient : Dual.Recipient)
    (st : State) : result State :=
  if Js.inherited token then Unfollowed
  else match ensure_token token user (ensure_user user st) with
       | Completes st1 => store date token user recipient st1
       | Throws t => Throws t
       | Unfollowed => Unfollowed
       end.

(** The loop over [Object.entries(merkleTree.recipients)]. *)
Fixpoint visit_recipients (date token : string)
    (recipients : list (string * Dual.Recipient)) (st : State) : result State :=
  match recipients with
  | [] => Completes st
  | (user, recipient) :: rest =>
      match assign date token user recipient st with
      | Completes st1 => visit_recipients date token rest st1
      | Throws t => Throws t
      | Unfollowed => Unfollowed
      end
  end.

(** The loop over [Object.entries(merkleTreesByToken)]. *)
Fixpoint visit_tokens (date : string) (tokens : list (string * Dual.MerkleTree))
    (st : State) : result State :=
  match tokens with
  | [] => Completes st
  | (token, merkleTree) :: rest =>
      match visit_recipients date token
              (Js.entries (Dual.recipients merkleTree)) st with
      | Completes st1 => visit_tokens date rest st1
      | Throws t => Throws t
      | Unfollowed => Unfollowed
      end
  end.

(** The loop over [Object.entries(merkleTreesByMonth)]. *)
Fixpoint visit_months (months : list (string * Dual.MerkleTreesByToken))
    (st : State) : result State :=
  match months with
  | [] => Completes st
  | (date, merkleTreesByToken) :: rest =>
      match visit_tokens date (Js.entries merkleTreesByToken) st with
      | Completes st1 => visit_months rest st1
      | Throws t => Throws t
      | Unfollowed => Unfollowed
      end
  end.

(** Lines 164-179, in a process whose [Object.prototype] is [realm]. *)
Definition merkleTreesByUser (realm : Realm)
    (merkleTreesByMonth : Dual.MerkleTreesByMonth) : result State :=
  visit_months (Js.entries merkleTreesByMonth) (realm, []).

(** Two reshapes of one month index in one process. *)
Definition twice (merkleTreesByMonth : Dual.MerkleTreesByMonth)
    : result (Dual.MerkleTreesByUser * Dual.MerkleTreesByUser) :=
  match merkleTreesByUser fresh merkleTreesByMonth with
  | Completes (realm, first) =>
      match merkleTreesByUser realm merkleTreesByMonth with
      | Completes (_, second) => Completes (first, second)
      | Throws t => Throws t
      | Unfollowed => Unfollowed
      end
  | Throws t => Throws t
  | Unfollowed => Unfollowed
  end.

End DualRealm.

(** * Properties *)

(** ** Two levels of objects created on first use

    Both reshape loops end in the same statements: create the object under
    the first key unless the read of that key is truthy, then store under the
    second key.  [nested_assign] is these statements on an object of objects,
    [nested_at] the read of a path of own properties and [nested_count] the
    number of values held. *)
Section Nested.
Context {V : Type}.
Implicit Types (out : Js.Obj (Js.Obj V)).

Definition nested_assign (date user : string) (claim : V)
    (out : Js.Obj (Js.Obj V)) : Js.Obj (Js.Obj V) :=
  let out :=
    match Js.get user out with
    | Js.Undefined => Js.set user [] out
    | _ => out
    end in
  match Js.get user out with
  | Js.Own slot => Js.update user (Js.set date claim slot) out
  | _ => out
  end.

Definition nested_at (out : Js.Obj (Js.Obj V)) (user date : string) : option V :=
  match Js.get_own user out with
  | Some slot => Js.get_own date slot
  | None => None
  end.

Definition nested_count (out : Js.Obj (Js.Obj V)) : nat :=
  list_sum (map (fun us => length (snd us)) out).

(** One iteration, on a triple of second key, first key and value. *)
Definition nested_step (out : Js.Obj (Js.Obj V)) (t : string * string * V)
    : Js.Obj (Js.Obj V) :=
  nested_assign (fst (fst t)) (snd (fst t)) (snd t) out.

(** The three ways an iteration can go. *)
Lemma nested_assign_cases date user claim out :
  (exists slot, Js.get_own user out = Some slot /\
     nested_assign date user claim out = Js.update user (Js.set date claim slot) out) \/
  (Js.get_own user out = None /\ Js.inherited user = true /\
     nested_assign date user claim out = out) \/
  (Js.get_own user out = None /\ Js.inherited user = false /\
     nested_assign date user claim out =
       Js.update user (Js.set date claim []) (Js.define user [] out)).
Proof.
  unfold nested_assign, Js.get.
  destruct (Js.get_own user out) as [slot|] eqn:E.
  - left. exists slot. rewrite E. auto.
  - destruct (Js.inherited user) eqn:I.
    + right; left. rewrite E. auto.
    + right; right. repeat split; try reflexivity.
      assert (Hp : user <> "__proto__") by (now apply Js.plain_not_proto).
      assert (Hs : Js.set user [] out = Js.define user [] out).
      { unfold Js.set. now destruct (String.eqb_spec user "__proto__"). }
      now rewrite Hs, Js.get_own_define_same.
Qed.

Lemma nested_at_path_update_same user slot out date :
  Js.has_own user out = true ->
  nested_at (Js.update user slot out) user date = Js.get_own date slot.
Proof. intros H. unfold nested_at. now rewrite Js.get_own_update_same. Qed.

Lemma nested_at_path_update_other user user' slot out date :
  user' <> user ->
  nested_at (Js.update user slot out) user' date = nested_at out user' date.
Proof. intros H. unfold nested_at. now rewrite Js.get_own_update_other. Qed.

Lemma nested_has_own_of_get {T} (k : string) (o : Js.Obj T) v :
  Js.get_own k o = Some v -> Js.has_own k o = true.
Proof. unfold Js.has_own. now intros ->. Qed.

(** After the iteration, a plain user's claim of the month is in its slot. *)
Lemma nested_at_path_assign_same date user claim out :
  Js.plain user -> date <> "__proto__" ->
  nested_at (nested_assign date user claim out) user date = Some claim.
Proof.
  intros Hu Hd.
  destruct (nested_assign_cases date user claim out)
    as [(slot & E & ->) | [(E & I & _) | (E & I & ->)]].
  - rewrite nested_at_path_update_same by (eapply nested_has_own_of_get; eauto).
    now apply Js.get_own_set_same.
  - unfold Js.plain in Hu. congruence.
  - rewrite nested_at_path_update_same.
    + now apply Js.get_own_set_same.
    + unfold Js.has_own. now rewrite Js.get_own_define_same.
Qed.

(** The iteration leaves every other slot as it was. *)
Lemma nested_at_path_assign_other date user claim out user' date' :
  (date', user') <> (date, user) ->
  nested_at (nested_assign date user claim out) user' date' = nested_at out user' date'.
Proof.
  intros Hne.
  destruct (nested_assign_cases date user claim out)
    as [(slot & E & ->) | [(E & I & ->) | (E & I & ->)]]; [| reflexivity |].
  - destruct (String.eqb_spec user' user) as [->|Hu].
    + rewrite nested_at_path_update_same by (eapply nested_has_own_of_get; eauto).
      unfold nested_at. rewrite E. apply Js.get_own_set_other. congruence.
    + now apply nested_at_path_update_other.
  - destruct (String.eqb_spec user' user) as [->|Hu].
    + rewrite nested_at_path_update_same
        by (unfold Js.has_own; now rewrite Js.get_own_define_same).
      unfold nested_at. rewrite E.
      rewrite Js.get_own_set_other by congruence. reflexivity.
    + rewrite nested_at_path_update_other by assumption.
      unfold nested_at. now rewrite Js.get_own_define_other.
Qed.

(** What an iteration can put in a slot is the claim it was given. *)
Lemma nested_at_path_assign_inv date user claim out c :
  nested_at (nested_assign date user claim out) user date = Some c ->
  c = claim \/ nested_at out user date = Some c.
Proof.
  destruct (nested_assign_cases date user claim out)
    as [(slot & E & ->) | [(E & I & ->) | (E & I & ->)]]; [| now right |].
  - rewrite nested_at_path_update_same by (eapply nested_has_own_of_get; eauto).
    unfold nested_at. rewrite E. unfold Js.set.
    destruct (String.eqb date "__proto__"); [now right|].
    rewrite Js.get_own_define_same. intros [= ->]. now left.
  - rewrite nested_at_path_update_same
      by (unfold Js.has_own; now rewrite Js.get_own_define_same).
    unfold Js.set. destruct (String.eqb date "__proto__"); [discriminate|].
    rewrite Js.get_own_define_same. intros [= ->]. now left.
Qed.

(** An iteration creates no key but its user's. *)
Lemma nested_keys_assign date user claim out user' :
  In user' (Js.keys (nested_assign date user claim out)) ->
  user' = user \/ In user' (Js.keys out).
Proof.
  destruct (nested_assign_cases date user claim out)
    as [(slot & E & ->) | [(E & I & ->) | (E & I & ->)]];
    rewrite ?Js.keys_update; [now right | now right |].
  now rewrite Js.In_keys_define.
Qed.

Lemma nested_count_app (a b : Js.Obj (Js.Obj V)) :
  nested_count (a ++ b) = nested_count a + nested_count b.
Proof. unfold nested_count. now rewrite map_app, list_sum_app. Qed.

Lemma nested_count_update user slot slot' out :
  Js.get_own user out = Some slot ->
  nested_count (Js.update user slot' out) + length slot = nested_count out + length slot'.
Proof.
  induction out as [|[u s] out IH]; simpl; [discriminate|].
  destruct (String.eqb_spec user u) as [->|Hne].
  - intros [= ->]. unfold nested_count. simpl. lia.
  - intros H. specialize (IH H). unfold nested_count in *. simpl. lia.
Qed.

Lemma nested_count_define_empty user out :
  Js.has_own user out = false -> nested_count (Js.define user [] out) = nested_count out.
Proof.
  intros H. destruct (Js.define_fresh_split user [] out H) as (o1 & o2 & E & ->).
  rewrite E, !nested_count_app. unfold nested_count. simpl. reflexivity.
Qed.

Lemma nested_length_set_fresh {T} date (v : T) (slot : Js.Obj T) :
  date <> "__proto__" -> Js.get_own date slot = None ->
  length (Js.set date v slot) = S (length slot).
Proof.
  intros Hd E. unfold Js.set.
  destruct (String.eqb_spec date "__proto__"); [contradiction|].
  rewrite Js.length_define. unfold Js.has_own. now rewrite E.
Qed.

(** An iteration on a free slot adds one claim. *)
Lemma nested_count_assign date user claim out :
  Js.plain user -> date <> "__proto__" -> nested_at out user date = None ->
  nested_count (nested_assign date user claim out) = S (nested_count out).
Proof.
  intros Hu Hd Hfree.
  destruct (nested_assign_cases date user claim out)
    as [(slot & E & ->) | [(E & I & _) | (E & I & ->)]].
  - unfold nested_at in Hfree. rewrite E in Hfree.
    pose proof (nested_count_update user slot (Js.set date claim slot) out E) as H.
    rewrite nested_length_set_fresh in H by assumption. lia.
  - unfold Js.plain in Hu. congruence.
  - pose proof (nested_count_update user [] (Js.set date claim [])
                  (Js.define user [] out) (Js.get_own_define_same _ _ _)) as H.
    rewrite nested_length_set_fresh in H by (auto).
    assert (Hh : Js.has_own user out = false)
      by (unfold Js.has_own; rewrite E; reflexivity).
    rewrite (nested_count_define_empty user out Hh) in H.
    simpl in H. lia.
Qed.

(** The conditions under which an iteration stores into its own slot. *)
Definition nested_storable (t : string * string * V) : Prop :=
  Js.plain (snd (fst t)) /\ fst (fst t) <> "__proto__".

Lemma nested_fold_at_path_notin l out user date :
  ~ In (date, user) (map fst l) ->
  nested_at (fold_left nested_step l out) user date = nested_at out user date.
Proof.
  revert out. induction l as [|[[d u] c] l IH]; intros out Hnotin; simpl.
  - reflexivity.
  - rewrite IH by (intros H; apply Hnotin; now right).
    apply nested_at_path_assign_other. intros E. apply Hnotin. left. simpl.
    now symmetry.
Qed.

Lemma nested_fold_at_path_in l out date user claim :
  NoDup (map fst l) -> (forall t, In t l -> nested_storable t) ->
  In (date, user, claim) l ->
  nested_at (fold_left nested_step l out) user date = Some claim.
Proof.
  revert out. induction l as [|[[d u] c] l IH]; intros out Hnd Hok Hin; simpl.
  - destruct Hin.
  - inversion Hnd as [|? ? Hnotin Hnd']; subst. destruct Hin as [E|Hin].
    + injection E as -> -> ->.
      rewrite nested_fold_at_path_notin by exact Hnotin.
      destruct (Hok (date, user, claim) (or_introl eq_refl)) as [Hu Hd].
      now apply nested_at_path_assign_same.
    + apply IH; auto. intros t Ht. apply Hok. now right.
Qed.

Lemma nested_fold_at_path_inv l out user date c :
  nested_at (fold_left nested_step l out) user date = Some c ->
  In (date, user, c) l \/ nested_at out user date = Some c.
Proof.
  revert out. induction l as [|[[d u] c0] l IH]; intros out H; simpl in *.
  - now right.
  - destruct (IH _ H) as [Hin|Hat]; [left; now right|].
    unfold nested_step in Hat. simpl in Hat.
    destruct (String.eqb_spec user u) as [->|Hu].
    + destruct (String.eqb_spec date d) as [->|Hd].
      * destruct (nested_at_path_assign_inv _ _ _ _ _ Hat) as [->|Hout];
          [left; now left | now right].
      * right. rewrite nested_at_path_assign_other in Hat by congruence.
        exact Hat.
    + right. rewrite nested_at_path_assign_other in Hat by congruence.
      exact Hat.
Qed.

Lemma nested_fold_keys l out user :
  In user (Js.keys (fold_left nested_step l out)) ->
  In user (Js.keys out) \/ exists date c, In (date, user, c) l.
Proof.
  revert out. induction l as [|[[d u] c0] l IH]; intros out H; simpl in *.
  - now left.
  - destruct (IH _ H) as [Hk|(date & c & Hin)].
    + unfold nested_step in Hk. simpl in Hk.
      destruct (nested_keys_assign _ _ _ _ _ Hk) as [->|Hk'].
      * right. exists d, c0. now left.
      * now left.
    + right. exists date, c. now right.
Qed.

Lemma nested_fold_count l out :
  NoDup (map fst l) -> (forall t, In t l -> nested_storable t) ->
  (forall t, In t l -> nested_at out (snd (fst t)) (fst (fst t)) = None) ->
  nested_count (fold_left nested_step l out) = nested_count out + length l.
Proof.
  revert out. induction l as [|[[d u] c] l IH]; intros out Hnd Hok Hfree; simpl.
  - lia.
  - inversion Hnd as [|? ? Hnotin Hnd']; subst.
    destruct (Hok (d, u, c) (or_introl eq_refl)) as [Hu Hd]. simpl in Hu, Hd.
    rewrite IH; auto.
    + assert (Hs : nested_count (nested_step out (d, u, c)) = S (nested_count out)).
      { apply nested_count_assign; auto. apply (Hfree (d, u, c)). now left. }
      rewrite Hs. lia.
    + intros t Ht. apply Hok. now right.
    + intros [[d' u'] c'] Ht. simpl.
      unfold nested_step. simpl.
      rewrite nested_at_path_assign_other.
      * apply (Hfree (d', u', c')). now right.
      * intros E. apply Hnotin. rewrite <- E.
        change (d', u') with (fst (d', u', c')). now apply in_map.
Qed.

End Nested.

(** ** The reshape of the single-schema variant *)
Section SingleReshape.
Import Single.

Lemma single_assign_nested date user claim out :
  assign date user claim out = nested_assign date user claim out.
Proof. reflexivity. Qed.

Lemma single_fold_claims date cl out :
  fold_left (fun out '(user, claim) => assign date user claim out) cl out =
  fold_left nested_step (map (fun uc => (date, fst uc, snd uc)) cl) out.
Proof.
  revert out. induction cl as [|[u c] cl IH]; intros out; simpl; [reflexivity|].
  apply IH.
Qed.

Lemma single_fold_granted m out :
  fold_left
    (fun out '(date, merkleTree) =>
       fold_left (fun out '(user, claim) => assign date user claim out)
                 (Js.entries (claims merkleTree)) out)
    (Js.entries m) out =
  fold_left nested_step (granted m) out.
Proof.
  unfold Js.entries. revert out.
  induction m as [|[d mt] m IH]; intros out; simpl; [reflexivity|].
  rewrite fold_left_app, IH, single_fold_claims. reflexivity.
Qed.

(** The loops visit the granted claims one after the other. *)
Lemma single_reshape_granted m :
  merkleTreesByUser m = fold_left nested_step (granted m) [].
Proof. apply single_fold_granted. Qed.

(** The claims the input grants, read off the index. *)
Lemma single_granted_In (m : MerkleTreesByMonth) date user claim :
  In (date, user, claim) (granted m) <->
  exists merkleTree, In (date, merkleTree) m /\ In (user, claim) (claims merkleTree).
Proof.
  unfold granted. rewrite in_flat_map. split.
  - intros ([d mt] & Hin & H). simpl in H. apply in_map_iff in H.
    destruct H as ([u c] & E & Hc). simpl in E. injection E as -> -> ->.
    now exists mt.
  - intros (mt & Hin & Hc). exists (date, mt). split; [exact Hin|].
    simpl. apply in_map_iff. now exists (user, claim).
Qed.

Lemma single_length_granted (m : MerkleTreesByMonth) :
  length (granted m) = count_in m.
Proof.
  unfold granted, count_in. induction m as [|[d mt] m IH]; simpl; [reflexivity|].
  now rewrite length_app, length_map, IH.
Qed.

Lemma single_well_formed_tail d mt (m : MerkleTreesByMonth) :
  well_formed ((d, mt) :: m) -> well_formed m.
Proof.
  intros [Hnd H]. split.
  - now inversion Hnd.
  - intros date t Hin. apply H. now right.
Qed.

Lemma single_granted_NoDup (m : MerkleTreesByMonth) :
  well_formed m -> NoDup (map fst (granted m)).
Proof.
  induction m as [|[d mt] m IH]; intros Hwf; [constructor|].
  pose proof (single_well_formed_tail _ _ _ Hwf) as Hwf'.
  destruct Hwf as [Hnd H]. inversion Hnd as [|? ? Hnotin _]; subst.
  destruct (H d mt (or_introl eq_refl)) as (_ & Hndc & _).
  change (granted ((d, mt) :: m))
    with (map (fun uc => (d, fst uc, snd uc)) (claims mt) ++ granted m).
  rewrite map_app, map_map. simpl. apply NoDup_app.
  - rewrite <- (map_map fst (pair d)).
    apply Injective_map_NoDup; [|exact Hndc].
    intros x y E. now injection E.
  - now apply IH.
  - intros [d' u'] Hin1 Hin2.
    apply in_map_iff in Hin1. destruct Hin1 as ([u c] & E & _).
    simpl in E. injection E as <- <-.
    apply in_map_iff in Hin2. destruct Hin2 as ([[d2 u2] c2] & E & Hin2).
    simpl in E. injection E as -> ->.
    apply single_granted_In in Hin2. destruct Hin2 as (mt' & Hin2 & _).
    apply Hnotin. change d with (fst (d, mt')). now apply in_map.
Qed.

Lemma single_granted_storable (m : MerkleTreesByMonth) :
  well_formed m -> forall t, In t (granted m) -> nested_storable t.
Proof.
  intros [_ H] [[d u] c] Hin. apply single_granted_In in Hin.
  destruct Hin as (mt & Hin & Hc). destruct (H d mt Hin) as (Hd & _ & Hp).
  split; simpl; [now apply (Hp u c) | exact Hd].
Qed.

(** Every granted claim is at its path. *)
Lemma single_reshape_complete (m : MerkleTreesByMonth) date merkleTree user claim :
  well_formed m -> In (date, merkleTree) m -> In (user, claim) (claims merkleTree) ->
  at_path (merkleTreesByUser m) user date = Some claim.
Proof.
  intros Hwf Hin Hc. rewrite single_reshape_granted.
  apply nested_fold_at_path_in.
  - now apply single_granted_NoDup.
  - now apply single_granted_storable.
  - apply single_granted_In. now exists merkleTree.
Qed.

(** Every slot of the output holds the claim granted for its user and month. *)
Lemma single_reshape_sound (m : MerkleTreesByMonth) user date c :
  at_path (merkleTreesByUser m) user date = Some c ->
  exists merkleTree, In (date, merkleTree) m /\ In (user, c) (claims merkleTree).
Proof.
  rewrite single_reshape_granted. intros H.
  destruct (nested_fold_at_path_inv _ _ _ _ _ H) as [Hin|Hat].
  - now apply single_granted_In.
  - discriminate Hat.
Qed.

(** Every key of the output is a recipient of the input. *)
Lemma single_reshape_keys (m : MerkleTreesByMonth) user :
  In user (Js.keys (merkleTreesByUser m)) ->
  exists date merkleTree c, In (date, merkleTree) m /\ In (user, c) (claims merkleTree).
Proof.
  rewrite single_reshape_granted. intros H.
  destruct (nested_fold_keys _ _ _ H) as [[]|(date & c & Hin)].
  apply single_granted_In in Hin. destruct Hin as (mt & Hin & Hc).
  now exists date, mt, c.
Qed.

(** The output holds as many claims as the input. *)
Lemma single_reshape_count (m : MerkleTreesByMonth) :
  well_formed m -> count (merkleTreesByUser m) = count_in m.
Proof.
  intros Hwf. rewrite single_reshape_granted.
  change (@count) with (@nested_count UserClaim). rewrite nested_fold_count.
  - now rewrite single_length_granted.
  - now apply single_granted_NoDup.
  - now apply single_granted_storable.
  - reflexivity.
Qed.

End SingleReshape.

(** ** The reshape of the dual-schema variant *)
Section DualReshape.
Import Dual.
Implicit Types (out : MerkleTreesByUser) (l : list (string * string * string * Recipient)).

(** One iteration of the innermost loop, on a granted recipient. *)
Definition dual_step (out : MerkleTreesByUser)
    (t : string * string * string * Recipient) : MerkleTreesByUser :=
  assign (fst (fst (fst t))) (snd (fst (fst t))) (snd (fst t)) (snd t) out.

Definition dual_storable (t : string * string * string * Recipient) : Prop :=
  fst (fst (fst t)) <> "__proto__" /\ Js.plain (snd (fst (fst t))) /\
  Js.plain (snd (fst t)).

Lemma dual_fold_granted m out :
  fold_left
    (fun out '(date, merkleTreesByToken) =>
       fold_left
         (fun out '(token, merkleTree) =>
            fold_left
              (fun out '(user, recipient) => assign date token user recipient out)
              (Js.entries (recipients merkleTree)) out)
         (Js.entries merkleTreesByToken) out)
    (Js.entries m) out =
  fold_left dual_step (granted m) out.
Proof.
  unfold Js.entries. revert out.
  induction m as [|[d bt] m IH]; intros out; simpl; [reflexivity|].
  rewrite fold_left_app, <- IH. f_equal. clear IH. revert out.
  induction bt as [|[tk mt] bt IHt]; intros out; simpl; [reflexivity|].
  rewrite fold_left_app, <- IHt. f_equal. clear IHt. revert out.
  induction (recipients mt) as [|[u r] rs IHr]; intros out; simpl; [reflexivity|].
  apply IHr.
Qed.

(** The loops visit the granted recipients one after the other. *)
Lemma dual_reshape_granted m :
  merkleTreesByUser m = fold_left dual_step (granted m) [].
Proof. apply dual_fold_granted. Qed.

(** Below the user's key the iteration is the two-level store. *)
Lemma dual_assign_cases date token user recipient out :
  (exists slot, Js.get_own user out = Some slot /\
     assign date token user recipient out =
       Js.update user (nested_assign date token recipient slot) out) \/
  (Js.get_own user out = None /\ Js.inherited user = true /\
     assign date token user recipient out = out) \/
  (Js.get_own user out = None /\ Js.inherited user = false /\
     assign date token user recipient out =
       Js.update user (nested_assign date token recipient [])
                 (Js.define user [] out)).
Proof.
  destruct (Js.get_own user out) as [slot|] eqn:E.
  - left. exists slot. split; [reflexivity|].
    assert (G : Js.get user out = Js.Own slot) by (unfold Js.get; now rewrite E).
    unfold assign, nested_assign. cbv zeta.
    rewrite G. cbv beta iota. rewrite G. cbv beta iota.
    generalize (match Js.get token slot with
                | Js.Undefined => Js.set token [] slot
                | _ => slot
                end).
    intros slot1. destruct (Js.get token slot1); reflexivity.
  - destruct (Js.inherited user) eqn:I.
    + right; left. repeat split.
      assert (G : Js.get user out = Js.Inherited)
        by (unfold Js.get; now rewrite E, I).
      unfold assign. cbv zeta. rewrite G. cbv beta iota. now rewrite G.
    + right; right. repeat split.
      assert (G : Js.get user out = Js.Undefined)
        by (unfold Js.get; now rewrite E, I).
      assert (Hp : user <> "__proto__") by (now apply Js.plain_not_proto).
      assert (Hs : Js.set user [] out = Js.define user [] out).
      { unfold Js.set. now destruct (String.eqb_spec user "__proto__"). }
      unfold assign, nested_assign. cbv zeta.
      rewrite G. cbv beta iota. rewrite Hs.
      unfold Js.get at 1. rewrite Js.get_own_define_same. cbv beta iota.
      match goal with
      | |- context [Js.get token ?s] =>
          lazymatch s with
          | match _ with _ => _ end =>
              generalize s; intros slot1; destruct (Js.get token slot1); reflexivity
          end
      end.
Qed.

Lemma dual_at_path_update_same user slot out token date :
  Js.has_own user out = true ->
  at_path (Js.update user slot out) user token date = nested_at slot token date.
Proof. intros H. unfold at_path. now rewrite Js.get_own_update_same. Qed.

Lemma dual_at_path_update_other user user' slot out token date :
  user' <> user ->
  at_path (Js.update user slot out) user' token date = at_path out user' token date.
Proof. intros H. unfold at_path. now rewrite Js.get_own_update_other. Qed.

Lemma dual_has_own_define user (slot : Js.Obj (Js.Obj Recipient)) out :
  Js.has_own user (Js.define user slot out) = true.
Proof. unfold Js.has_own. now rewrite Js.get_own_define_same. Qed.

Lemma dual_at_path_assign_same date token user recipient out :
  date <> "__proto__" -> Js.plain token -> Js.plain user ->
  at_path (assign date token user recipient out) user token date = Some recipient.
Proof.
  intros Hd Ht Hu.
  destruct (dual_assign_cases date token user recipient out)
    as [(slot & E & ->) | [(E & I & _) | (E & I & ->)]].
  - rewrite dual_at_path_update_same by (eapply nested_has_own_of_get; eauto).
    now apply nested_at_path_assign_same.
  - unfold Js.plain in Hu. congruence.
  - rewrite dual_at_path_update_same by apply dual_has_own_define.
    now apply nested_at_path_assign_same.
Qed.

Lemma dual_at_path_assign_other date token user recipient out date' token' user' :
  (date', token', user') <> (date, token, user) ->
  at_path (assign date token user recipient out) user' token' date' =
  at_path out user' token' date'.
Proof.
  intros Hne.
  destruct (dual_assign_cases date token user recipient out)
    as [(slot & E & ->) | [(E & I & ->) | (E & I & ->)]]; [| reflexivity |].
  - destruct (String.eqb_spec user' user) as [->|Hu].
    + rewrite dual_at_path_update_same by (eapply nested_has_own_of_get; eauto).
      unfold at_path. rewrite E. apply nested_at_path_assign_other. congruence.
    + now apply dual_at_path_update_other.
  - destruct (String.eqb_spec user' user) as [->|Hu].
    + rewrite dual_at_path_update_same by apply dual_has_own_define.
      unfold at_path. rewrite E.
      rewrite nested_at_path_assign_other by congruence. reflexivity.
    + rewrite dual_at_path_update_other by assumption.
      unfold at_path. now rewrite Js.get_own_define_other.
Qed.

Lemma dual_at_path_assign_inv date token user recipient out r :
  at_path (assign date token user recipient out) user token date = Some r ->
  r = recipient \/ at_path out user token date = Some r.
Proof.
  destruct (dual_assign_cases date token user recipient out)
    as [(slot & E & ->) | [(E & I & ->) | (E & I & ->)]]; [| now right |].
  - rewrite dual_at_path_update_same by (eapply nested_has_own_of_get; eauto).
    unfold at_path. rewrite E. apply nested_at_path_assign_inv.
  - rewrite dual_at_path_update_same by apply dual_has_own_define.
    intros H. destruct (nested_at_path_assign_inv _ _ _ _ _ H) as [->|H'];
      [now left | discriminate H'].
Qed.

Lemma dual_keys_assign date token user recipient out user' :
  In user' (Js.keys (assign date token user recipient out)) ->
  user' = user \/ In user' (Js.keys out).
Proof.
  destruct (dual_assign_cases date token user recipient out)
    as [(slot & E & ->) | [(E & I & ->) | (E & I & ->)]];
    rewrite ?Js.keys_update; [now right | now right |].
  now rewrite Js.In_keys_define.
Qed.

Lemma dual_count_app (a b : MerkleTreesByUser) : count (a ++ b) = count a + count b.
Proof. unfold count. now rewrite map_app, list_sum_app. Qed.

Lemma dual_count_update user slot slot' out :
  Js.get_own user out = Some slot ->
  count (Js.update user slot' out) + nested_count slot =
  count out + nested_count slot'.
Proof.
  induction out as [|[u s] out IH]; simpl; [discriminate|].
  destruct (String.eqb_spec user u) as [->|Hne].
  - intros [= ->]. unfold count, nested_count. simpl. lia.
  - intros H. specialize (IH H). unfold count, nested_count in *. simpl. lia.
Qed.

Lemma dual_count_define_empty user out :
  Js.has_own user out = false -> count (Js.define user [] out) = count out.
Proof.
  intros H. destruct (Js.define_fresh_split user [] out H) as (o1 & o2 & E & ->).
  rewrite E, !dual_count_app. unfold count. simpl. reflexivity.
Qed.

Lemma dual_count_assign date token user recipient out :
  date <> "__proto__" -> Js.plain token -> Js.plain user ->
  at_path out user token date = None ->
  count (assign date token user recipient out) = S (count out).
Proof.
  intros Hd Ht Hu Hfree.
  destruct (dual_assign_cases date token user recipient out)
    as [(slot & E & ->) | [(E & I & _) | (E & I & ->)]].
  - unfold at_path in Hfree. rewrite E in Hfree.
    pose proof (dual_count_update user slot
                  (nested_assign date token recipient slot) out E) as H.
    rewrite nested_count_assign in H by assumption. lia.
  - unfold Js.plain in Hu. congruence.
  - pose proof (dual_count_update user []
                  (nested_assign date token recipient [])
                  (Js.define user [] out) (Js.get_own_define_same _ _ _)) as H.
    rewrite nested_count_assign in H by auto.
    assert (Hh : Js.has_own user out = false)
      by (unfold Js.has_own; rewrite E; reflexivity).
    rewrite (dual_count_define_empty user out Hh) in H.
    unfold nested_count in H. simpl in H. lia.
Qed.

End DualReshape.

Section DualFold.
Import Dual.
Implicit Types (out : MerkleTreesByUser) (l : list (string * string * string * Recipient)).

Lemma dual_fold_at_path_notin l out user token date :
  ~ In (date, token, user) (map fst l) ->
  at_path (fold_left dual_step l out) user token date = at_path out user token date.
Proof.
  revert out. induction l as [|[[[d tk] u] r] l IH]; intros out Hnotin; simpl.
  - reflexivity.
  - rewrite IH by (intros H; apply Hnotin; now right).
    apply dual_at_path_assign_other. intros E. apply Hnotin. left. simpl.
    now symmetry.
Qed.

Lemma dual_fold_at_path_in l out date token user recipient :
  NoDup (map fst l) -> (forall t, In t l -> dual_storable t) ->
  In (date, token, user, recipient) l ->
  at_path (fold_left dual_step l out) user token date = Some recipient.
Proof.
  revert out. induction l as [|[[[d tk] u] r] l IH]; intros out Hnd Hok Hin; simpl.
  - destruct Hin.
  - inversion Hnd as [|? ? Hnotin Hnd']; subst. destruct Hin as [E|Hin].
    + injection E as -> -> -> ->.
      rewrite dual_fold_at_path_notin by exact Hnotin.
      destruct (Hok (date, token, user, recipient) (or_introl eq_refl))
        as (Hd & Ht & Hu).
      now apply dual_at_path_assign_same.
    + apply IH; auto. intros t Ht. apply Hok. now right.
Qed.

Lemma dual_fold_at_path_inv l out user token date r :
  at_path (fold_left dual_step l out) user token date = Some r ->
  In (date, token, user, r) l \/ at_path out user token date = Some r.
Proof.
  revert out. induction l as [|[[[d tk] u] r0] l IH]; intros out H; simpl in *.
  - now right.
  - destruct (IH _ H) as [Hin|Hat]; [left; now right|].
    unfold dual_step in Hat. simpl in Hat.
    destruct (String.eqb_spec user u) as [->|Hu];
      [destruct (String.eqb_spec token tk) as [->|Ht];
       [destruct (String.eqb_spec date d) as [->|Hd]|]|].
    + destruct (dual_at_path_assign_inv _ _ _ _ _ _ Hat) as [->|Hout];
        [left; now left | now right].
    + right. rewrite dual_at_path_assign_other in Hat by congruence. exact Hat.
    + right. rewrite dual_at_path_assign_other in Hat by congruence. exact Hat.
    + right. rewrite dual_at_path_assign_other in Hat by congruence. exact Hat.
Qed.

Lemma dual_fold_keys l out user :
  In user (Js.keys (fold_left dual_step l out)) ->
  In user (Js.keys out) \/ exists date token r, In (date, token, user, r) l.
Proof.
  revert out. induction l as [|[[[d tk] u] r0] l IH]; intros out H; simpl in *.
  - now left.
  - destruct (IH _ H) as [Hk|(date & token & r & Hin)].
    + unfold dual_step in Hk. simpl in Hk.
      destruct (dual_keys_assign _ _ _ _ _ _ Hk) as [->|Hk'].
      * right. exists d, tk, r0. now left.
      * now left.
    + right. exists date, token, r. now right.
Qed.

Lemma dual_fold_count l out :
  NoDup (map fst l) -> (forall t, In t l -> dual_storable t) ->
  (forall t, In t l ->
     at_path out (snd (fst t)) (snd (fst (fst t))) (fst (fst (fst t))) = None) ->
  count (fold_left dual_step l out) = count out + length l.
Proof.
  revert out. induction l as [|[[[d tk] u] r] l IH]; intros out Hnd Hok Hfree; simpl.
  - lia.
  - inversion Hnd as [|? ? Hnotin Hnd']; subst.
    destruct (Hok (d, tk, u, r) (or_introl eq_refl)) as (Hd & Ht & Hu).
    simpl in Hd, Ht, Hu.
    rewrite IH; auto.
    + assert (Hs : count (dual_step out (d, tk, u, r)) = S (count out)).
      { apply dual_count_assign; auto. apply (Hfree (d, tk, u, r)). now left. }
      rewrite Hs. lia.
    + intros t Hin. apply Hok. now right.
    + intros [[[d' tk'] u'] r'] Hin. simpl.
      unfold dual_step. simpl.
      rewrite dual_at_path_assign_other.
      * apply (Hfree (d', tk', u', r')). now right.
      * intros E. apply Hnotin. rewrite <- E.
        change (d', tk', u') with (fst (d', tk', u', r')). now apply in_map.
Qed.

(** The recipients the input grants, read off the index. *)
Lemma dual_granted_In (m : MerkleTreesByMonth) date token user recipient :
  In (date, token, user, recipient) (granted m) <->
  exists byToken merkleTree,
    In (date, byToken) m /\ In (token, merkleTree) byToken /\
    In (user, recipient) (recipients merkleTree).
Proof.
  unfold granted. rewrite in_flat_map. split.
  - intros ([d bt] & Hin & H). simpl in H. apply in_flat_map in H.
    destruct H as ([tk mt] & Hbt & H). simpl in H. apply in_map_iff in H.
    destruct H as ([u r] & E & Hr). simpl in E. injection E as -> -> -> ->.
    now exists bt, mt.
  - intros (bt & mt & Hin & Hbt & Hr). exists (date, bt). split; [exact Hin|].
    simpl. apply in_flat_map. exists (token, mt). split; [exact Hbt|].
    simpl. apply in_map_iff. now exists (user, recipient).
Qed.

Lemma dual_length_granted (m : MerkleTreesByMonth) :
  length (granted m) = count_in m.
Proof.
  unfold granted, count_in. induction m as [|[d bt] m IH]; simpl; [reflexivity|].
  rewrite length_app, IH. f_equal. clear IH.
  induction bt as [|[tk mt] bt IHt]; simpl; [reflexivity|].
  now rewrite length_app, length_map, IHt.
Qed.

Lemma dual_well_formed_tail d bt (m : MerkleTreesByMonth) :
  well_formed ((d, bt) :: m) -> well_formed m.
Proof.
  intros [Hnd H]. split.
  - now inversion Hnd.
  - intros date t Hin. apply H. now right.
Qed.

(** Within one month, no token and user pair is visited twice. *)
Lemma dual_month_NoDup (bt : MerkleTreesByToken) :
  NoDup (Js.keys bt) ->
  (forall token merkleTree, In (token, merkleTree) bt ->
     NoDup (Js.keys (recipients merkleTree))) ->
  NoDup (flat_map (fun tm => map (fun ur => (fst tm, fst ur)) (recipients (snd tm))) bt).
Proof.
  induction bt as [|[tk mt] bt IH]; intros Hnd H; simpl; [constructor|].
  inversion Hnd as [|? ? Hnotin Hnd']; subst.
  apply NoDup_app.
  - rewrite <- (map_map fst (pair tk)).
    apply Injective_map_NoDup; [|apply (H tk mt); now left].
    intros x y E. now injection E.
  - apply IH; [exact Hnd'|]. intros token t Hin. apply (H token t). now right.
  - intros [tk' u'] Hin1 Hin2.
    apply in_map_iff in Hin1. destruct Hin1 as ([u r] & E & _).
    simpl in E. injection E as <- <-.
    apply in_flat_map in Hin2. destruct Hin2 as ([tk2 mt2] & Hin2 & Hin3).
    apply in_map_iff in Hin3. destruct Hin3 as ([u3 r3] & E & _).
    simpl in E. injection E as -> ->.
    apply Hnotin. change tk with (fst (tk, mt2)). now apply in_map.
Qed.

Lemma dual_granted_NoDup (m : MerkleTreesByMonth) :
  well_formed m -> NoDup (map fst (granted m)).
Proof.
  induction m as [|[d bt] m IH]; intros Hwf; [constructor|].
  pose proof (dual_well_formed_tail _ _ _ Hwf) as Hwf'.
  destruct Hwf as [Hnd H]. inversion Hnd as [|? ? Hnotin _]; subst.
  destruct (H d bt (or_introl eq_refl)) as (_ & Hndt & Htok).
  change (granted ((d, bt) :: m))
    with (flat_map (fun tm => map (fun ur => (d, fst tm, fst ur, snd ur))
                                  (recipients (snd tm))) bt ++ granted m).
  rewrite map_app. apply NoDup_app.
  - assert (E : map fst
               (flat_map (fun tm => map (fun ur => (d, fst tm, fst ur, snd ur))
                                        (recipients (snd tm))) bt) =
             map (fun p => (d, fst p, snd p))
               (flat_map (fun tm => map (fun ur => (fst tm, fst ur))
                                        (recipients (snd tm))) bt)).
    { clear. induction bt as [|[tk mt] bt IHb]; simpl; [reflexivity|].
      rewrite !map_app, IHb, !map_map. reflexivity. }
    rewrite E. apply Injective_map_NoDup.
    + intros [a b] [a' b'] Eq. simpl in Eq. now injection Eq as -> ->.
    + apply dual_month_NoDup; [exact Hndt|].
      intros token mt Hin. now apply (Htok token mt).
  - now apply IH.
  - intros [[d' tk'] u'] Hin1 Hin2.
    apply in_map_iff in Hin1. destruct Hin1 as ([[[d1 tk1] u1] r1] & E & Hin1).
    simpl in E. injection E as -> -> ->.
    apply in_flat_map in Hin1. destruct Hin1 as ([tk0 mt0] & _ & Hin1).
    apply in_map_iff in Hin1. destruct Hin1 as ([u0 r0] & E & _).
    simpl in E. injection E as <- _ _ _.
    apply in_map_iff in Hin2. destruct Hin2 as ([[[d2 tk2] u2] r2] & E & Hin2).
    simpl in E. injection E as -> -> ->.
    apply dual_granted_In in Hin2. destruct Hin2 as (bt' & _ & Hin2 & _).
    apply Hnotin. change d with (fst (d, bt')). now apply in_map.
Qed.

Lemma dual_granted_storable (m : MerkleTreesByMonth) :
  well_formed m -> forall t, In t (granted m) -> dual_storable t.
Proof.
  intros [_ H] [[[d tk] u] r] Hin. apply dual_granted_In in Hin.
  destruct Hin as (bt & mt & Hin & Hbt & Hr).
  destruct (H d bt Hin) as (Hd & _ & Htok).
  destruct (Htok tk mt Hbt) as (Hp & _ & Hu).
  repeat split; simpl; [exact Hd | exact Hp | now apply (Hu u r)].
Qed.

(** Every granted recipient is at its path. *)
Lemma dual_reshape_complete (m : MerkleTreesByMonth)
    date byToken token merkleTree user recipient :
  well_formed m -> In (date, byToken) m -> In (token, merkleTree) byToken ->
  In (user, recipient) (recipients merkleTree) ->
  at_path (merkleTreesByUser m) user token date = Some recipient.
Proof.
  intros Hwf Hin Hbt Hr. rewrite dual_reshape_granted.
  apply dual_fold_at_path_in.
  - now apply dual_granted_NoDup.
  - now apply dual_granted_storable.
  - apply dual_granted_In. now exists byToken, merkleTree.
Qed.

(** Every slot of the output holds the recipient granted for its path. *)
Lemma dual_reshape_sound (m : MerkleTreesByMonth) user token date r :
  at_path (merkleTreesByUser m) user token date = Some r ->
  exists byToken merkleTree,
    In (date, byToken) m /\ In (token, merkleTree) byToken /\
    In (user, r) (recipients merkleTree).
Proof.
  rewrite dual_reshape_granted. intros H.
  destruct (dual_fold_at_path_inv _ _ _ _ _ _ H) as [Hin|Hat].
  - now apply dual_granted_In.
  - discriminate Hat.
Qed.

Lemma dual_reshape_keys (m : MerkleTreesByMonth) user :
  In user (Js.keys (merkleTreesByUser m)) ->
  exists date token r, In (date, token, user, r) (granted m).
Proof.
  rewrite dual_reshape_granted. intros H.
  destruct (dual_fold_keys _ _ _ H) as [[]|Hex]. exact Hex.
Qed.

Lemma dual_reshape_count (m : MerkleTreesByMonth) :
  well_formed m -> count (merkleTreesByUser m) = count_in m.
Proof.
  intros Hwf. rewrite dual_reshape_granted, dual_fold_count.
  - now rewrite dual_length_granted.
  - now apply dual_granted_NoDup.
  - now apply dual_granted_storable.
  - reflexivity.
Qed.

End DualFold.

(** ** The token level of the dual-schema output *)
Section DualTokens.
Import Dual.

(** [token] is an own key of the object under the own key [user]. *)
Definition dual_has_token (out : MerkleTreesByUser) (user token : string) : Prop :=
  exists slot, Js.get_own user out = Some slot /\ In token (Js.keys slot).

Lemma dual_has_token_assign date token user recipient out user' token' :
  dual_has_token (assign date token user recipient out) user' token' ->
  (user' = user /\ token' = token) \/ dual_has_token out user' token'.
Proof.
  intros (slot' & G & Hin).
  destruct (dual_assign_cases date token user recipient out)
    as [(slot & E & Ha) | [(E & I & Ha) | (E & I & Ha)]]; rewrite Ha in G.
  - destruct (String.eqb_spec user' user) as [->|Hu].
    + rewrite Js.get_own_update_same in G
        by (eapply nested_has_own_of_get; eauto).
      injection G as <-.
      destruct (nested_keys_assign _ _ _ _ _ Hin) as [->|Hk]; [now left|].
      right. now exists slot.
    + rewrite Js.get_own_update_other in G by assumption. right. now exists slot'.
  - right. now exists slot'.
  - destruct (String.eqb_spec user' user) as [->|Hu].
    + rewrite Js.get_own_update_same in G by apply dual_has_own_define.
      injection G as <-.
      destruct (nested_keys_assign _ _ _ _ _ Hin) as [->|[]]. now left.
    + rewrite Js.get_own_update_other, Js.get_own_define_other in G by assumption.
      right. now exists slot'.
Qed.

Lemma dual_fold_has_token l out user token :
  dual_has_token (fold_left dual_step l out) user token ->
  dual_has_token out user token \/ exists date r, In (date, token, user, r) l.
Proof.
  revert out. induction l as [|[[[d tk] u] r0] l IH]; intros out H; simpl in *.
  - now left.
  - destruct (IH _ H) as [Hk|(date & r & Hin)].
    + unfold dual_step in Hk. simpl in Hk.
      destruct (dual_has_token_assign _ _ _ _ _ _ _ Hk) as [[-> ->]|Hk'].
      * right. exists d, r0. now left.
      * now left.
    + right. exists date, r. now right.
Qed.

Lemma dual_reshape_tokens (m : MerkleTreesByMonth) user token :
  dual_has_token (merkleTreesByUser m) user token ->
  exists date r, In (date, token, user, r) (granted m).
Proof.
  rewrite dual_reshape_granted. intros H.
  destruct (dual_fold_has_token _ _ _ _ H) as [(slot & G & _)|Hex];
    [discriminate G | exact Hex].
Qed.

End DualTokens.

(** ** Independence of the enumeration order *)
Section Order.

Lemma single_reshape_at_path_iff (m : Single.MerkleTreesByMonth) user date c :
  Single.well_formed m ->
  Single.at_path (Single.merkleTreesByUser m) user date = Some c <->
  In (date, user, c) (Single.granted m).
Proof.
  intros Hwf. rewrite single_granted_In. split.
  - apply single_reshape_sound.
  - intros (mt & Hin & Hc). eapply single_reshape_complete; eauto.
Qed.

Lemma single_reshape_order (m m' : Single.MerkleTreesByMonth) :
  Single.well_formed m -> Single.well_formed m' ->
  (forall t, In t (Single.granted m) <-> In t (Single.granted m')) ->
  Js.equiv (Js.equiv eq) (Single.merkleTreesByUser m) (Single.merkleTreesByUser m').
Proof.
  intros Hwf Hwf' Hsame.
  assert (Hat : forall user date,
             Single.at_path (Single.merkleTreesByUser m) user date =
             Single.at_path (Single.merkleTreesByUser m') user date).
  { intros user date. apply Js.option_ext. intros c.
    rewrite !single_reshape_at_path_iff by assumption. apply Hsame. }
  assert (Hkey : forall a b : Single.MerkleTreesByMonth,
             Single.well_formed a -> Single.well_formed b ->
             (forall t, In t (Single.granted a) <-> In t (Single.granted b)) ->
             forall user slot,
               Js.get_own user (Single.merkleTreesByUser a) = Some slot ->
               Js.get_own user (Single.merkleTreesByUser b) <> None).
  { intros a b Ha Hb Hab user slot E N.
    assert (Hk : In user (Js.keys (Single.merkleTreesByUser a))).
    { apply Js.has_own_true. unfold Js.has_own. now rewrite E. }
    apply single_reshape_keys in Hk. destruct Hk as (d & mt & c & Hin & Hc).
    assert (Hg : In (d, user, c) (Single.granted b)).
    { apply Hab. apply single_granted_In. now exists mt. }
    apply single_reshape_at_path_iff in Hg; [|exact Hb].
    unfold Single.at_path in Hg. rewrite N in Hg. discriminate Hg. }
  intros user.
  destruct (Js.get_own user (Single.merkleTreesByUser m)) as [s1|] eqn:E1;
    destruct (Js.get_own user (Single.merkleTreesByUser m')) as [s2|] eqn:E2.
  - apply Js.equiv_eq_of_get_own. intros date.
    specialize (Hat user date). unfold Single.at_path in Hat.
    now rewrite E1, E2 in Hat.
  - exact (Hkey m m' Hwf Hwf' Hsame user s1 E1 E2).
  - apply (Hkey m' m Hwf' Hwf (fun t => iff_sym (Hsame t)) user s2 E2 E1).
  - exact I.
Qed.

Lemma dual_reshape_at_path_iff (m : Dual.MerkleTreesByMonth) user token date r :
  Dual.well_formed m ->
  Dual.at_path (Dual.merkleTreesByUser m) user token date = Some r <->
  In (date, token, user, r) (Dual.granted m).
Proof.
  intros Hwf. rewrite dual_granted_In. split.
  - apply dual_reshape_sound.
  - intros (bt & mt & Hin & Hbt & Hr). eapply dual_reshape_complete; eauto.
Qed.

Lemma dual_reshape_order (m m' : Dual.MerkleTreesByMonth) :
  Dual.well_formed m -> Dual.well_formed m' ->
  (forall t, In t (Dual.granted m) <-> In t (Dual.granted m')) ->
  Js.equiv (Js.equiv (Js.equiv eq))
    (Dual.merkleTreesByUser m) (Dual.merkleTreesByUser m').
Proof.
  intros Hwf Hwf' Hsame.
  assert (Hat : forall user token date,
             Dual.at_path (Dual.merkleTreesByUser m) user token date =
             Dual.at_path (Dual.merkleTreesByUser m') user token date).
  { intros user token date. apply Js.option_ext. intros c.
    rewrite !dual_reshape_at_path_iff by assumption. apply Hsame. }
  assert (Hkey : forall a b : Dual.MerkleTreesByMonth,
             Dual.well_formed a -> Dual.well_formed b ->
             (forall t, In t (Dual.granted a) <-> In t (Dual.granted b)) ->
             forall user slot,
               Js.get_own user (Dual.merkleTreesByUser a) = Some slot ->
               Js.get_own user (Dual.merkleTreesByUser b) <> None).
  { intros a b Ha Hb Hab user slot E N.
    assert (Hk : In user (Js.keys (Dual.merkleTreesByUser a))).
    { apply Js.has_own_true. unfold Js.has_own. now rewrite E. }
    apply dual_reshape_keys in Hk. destruct Hk as (d & tk & r & Hg).
    apply Hab in Hg. apply dual_reshape_at_path_iff in Hg; [|exact Hb].
    unfold Dual.at_path in Hg. rewrite N in Hg. discriminate Hg. }
  assert (Htok : forall a b : Dual.MerkleTreesByMonth,
             Dual.well_formed a -> Dual.well_formed b ->
             (forall t, In t (Dual.granted a) <-> In t (Dual.granted b)) ->
             forall user sa sb token months,
               Js.get_own user (Dual.merkleTreesByUser a) = Some sa ->
               Js.get_own user (Dual.merkleTreesByUser b) = Some sb ->
               Js.get_own token sa = Some months ->
               Js.get_own token sb <> None).
  { intros a b Ha Hb Hab user sa sb token months Ea Eb Et N.
    assert (Hk : dual_has_token (Dual.merkleTreesByUser a) user token).
    { exists sa. split; [exact Ea|]. apply Js.has_own_true.
      unfold Js.has_own. now rewrite Et. }
    apply dual_reshape_tokens in Hk. destruct Hk as (d & r & Hg).
    apply Hab in Hg. apply dual_reshape_at_path_iff in Hg; [|exact Hb].
    unfold Dual.at_path in Hg. rewrite Eb, N in Hg. discriminate Hg. }
  intros user.
  destruct (Js.get_own user (Dual.merkleTreesByUser m)) as [s1|] eqn:E1;
    destruct (Js.get_own user (Dual.merkleTreesByUser m')) as [s2|] eqn:E2.
  - intros token.
    destruct (Js.get_own token s1) as [t1|] eqn:T1;
      destruct (Js.get_own token s2) as [t2|] eqn:T2.
    + apply Js.equiv_eq_of_get_own. intros date.
      specialize (Hat user token date). unfold Dual.at_path in Hat.
      now rewrite E1, E2, T1, T2 in Hat.
    + exact (Htok m m' Hwf Hwf' Hsame user s1 s2 token t1 E1 E2 T1 T2).
    + apply (Htok m' m Hwf' Hwf (fun t => iff_sym (Hsame t))
                  user s2 s1 token t2 E2 E1 T2 T1).
    + exact I.
  - exact (Hkey m m' Hwf Hwf' Hsame user s1 E1 E2).
  - apply (Hkey m' m Hwf' Hwf (fun t => iff_sym (Hsame t)) user s2 E2 E1).
  - exact I.
Qed.

End Order.

(** ** Example inputs *)
Module Example.

Definition claim_100 : Single.UserClaim :=
  {| Single.accountIndex := 0; Single.amount := "100";
     Single.metadata := {| Single.reason := "x" |};
     Single.windowIndex := 0; Single.proof := ["0x00"] |}.

Definition claim_250 : Single.UserClaim :=
  {| Single.accountIndex := 1; Single.amount := "250";
     Single.metadata := {| Single.reason := "y" |};
     Single.windowIndex := 0; Single.proof := ["0x01"; "0x02"] |}.

Definition tree (cl : Single.Claim) : Single.MerkleTree :=
  {| Single.id := 1; Single.rewardToken := "0xToken";
     Single.tree_windowIndex := 0; Single.totalRewardsDistributed := "350";
     Single.merkleRoot := "0xRoot"; Single.claims := cl |}.

(** [{"2021-01": {claims: {"0xAAA": .., "0xBBB": ..}}, "2021-02": {claims: {"0xAAA": ..}}}] *)
Definition index : Single.MerkleTreesByMonth :=
  [ ("2021-01", tree [("0xAAA", claim_100); ("0xBBB", claim_250)]);
    ("2021-02", tree [("0xAAA", claim_250)]) ].

(** The same index, its months and recipients enumerated in another order. *)
Definition index_reordered : Single.MerkleTreesByMonth :=
  [ ("2021-02", tree [("0xAAA", claim_250)]);
    ("2021-01", tree [("0xBBB", claim_250); ("0xAAA", claim_100)]) ].

(** [{"2021-01": {claims: {"constructor": ..}}}] *)
Definition index_inherited : Single.MerkleTreesByMonth :=
  [ ("2021-01", tree [("constructor", claim_100)]) ].

Definition recipient_ve : Dual.Recipient :=
  {| Dual.windowIndex := 0; Dual.accountIndex := 0; Dual.rewards := "7";
     Dual.proof := ["0x0a"] |}.

Definition recipient_x : Dual.Recipient :=
  {| Dual.windowIndex := 0; Dual.accountIndex := 3; Dual.rewards := "9";
     Dual.proof := ["0x0b"] |}.

Definition aggregate : Dual.AggregateRewards :=
  {| Dual.address := "0xToken"; Dual.token := "AUXO"; Dual.decimals := 18;
     Dual.amount := "16"; Dual.original_amount := "16"; Dual.pro_rata := "0";
     Dual.non_active_pro_rata := "0"; Dual.redistributed_total := "0";
     Dual.redistributed_to_stakers := "0"; Dual.redistributed_transferred := "0";
     Dual.total_tax := "0" |}.

Definition dual_tree (rs : Js.Obj Dual.Recipient) : Dual.MerkleTree :=
  {| Dual.tree_windowIndex := 0; Dual.chainId := 1;
     Dual.aggregateRewards := aggregate; Dual.recipients := rs;
     Dual.root := "0xRoot" |}.

(** A recipient present in both token files of one month. *)
Definition dual_index : Dual.MerkleTreesByMonth :=
  [ ("2021-01", [ ("veAUXO", dual_tree [("0x123", recipient_ve)]);
                  ("xAUXO", dual_tree [("0x123", recipient_x); ("0x456", recipient_x)]) ]) ].

Definition dual_index_reordered : Dual.MerkleTreesByMonth :=
  [ ("2021-01", [ ("xAUXO", dual_tree [("0x456", recipient_x); ("0x123", recipient_x)]);
                  ("veAUXO", dual_tree [("0x123", recipient_ve)]) ]) ].

Definition dual_index_inherited : Dual.MerkleTreesByMonth :=
  [ ("2021-01", [ ("veAUXO", dual_tree [("constructor", recipient_ve)]) ]) ].

End Example.

(** Checks a concrete index against [well_formed]. *)
Ltac distinct_keys := repeat constructor; simpl; intuition discriminate.
Ltac pick H :=
  simpl in H;
  repeat (destruct H as [H|H]; [injection H as <- <-|]); try contradiction.

Ltac single_well_formed :=
  split;
  [ distinct_keys
  | let H := fresh "H" in
    intros ? ? H; pick H;
    (split; [discriminate|]; split; [distinct_keys|]);
    let C := fresh "C" in
    intros ? ? C; pick C; reflexivity ].

Ltac dual_well_formed :=
  split;
  [ distinct_keys
  | let H := fresh "H" in
    intros ? ? H; pick H;
    (split; [discriminate|]; split; [distinct_keys|]);
    let T := fresh "T" in
    intros ? ? T; pick T;
    (split; [reflexivity|]; split; [distinct_keys|]);
    let C := fresh "C" in
    intros ? ? C; pick C; reflexivity ].

(** ** The reshape engine: claims C1, C2 and C6 *)

(** C1. For every well-formed month index, every claim the input holds under
    a month (and token, in the dual-schema variant) for a recipient is in the
    output at [address][month] (respectively [address][token][month]): the
    slot holds the input's claim itself, so its amount and its proof are the
    input's.  Well-formed: no key twice in an object, no recipient or token
    key that names a property inherited from [Object.prototype], no month key
    [__proto__]. *)
Theorem reshape_keeps_every_claim :
  (forall (m : Single.MerkleTreesByMonth) date merkleTree user claim,
     Single.well_formed m ->
     In (date, merkleTree) m -> In (user, claim) (Single.claims merkleTree) ->
     Single.at_path (Single.merkleTreesByUser m) user date = Some claim) /\
  (forall (m : Dual.MerkleTreesByMonth) date byToken token merkleTree user recipient,
     Dual.well_formed m ->
     In (date, byToken) m -> In (token, merkleTree) byToken ->
     In (user, recipient) (Dual.recipients merkleTree) ->
     Dual.at_path (Dual.merkleTreesByUser m) user token date = Some recipient).
Proof.
  split.
  - intros m date merkleTree user claim Hwf Hin Hc.
    now apply (single_reshape_complete m date merkleTree).
  - intros m date byToken token merkleTree user recipient Hwf Hin Hbt Hr.
    now apply (dual_reshape_complete m date byToken token merkleTree).
Qed.

Lemma reshape_keeps_every_claim_witness :
  Single.at_path (Single.merkleTreesByUser Example.index) "0xBBB" "2021-01"
    = Some Example.claim_250 /\
  Dual.at_path (Dual.merkleTreesByUser Example.dual_index) "0x123" "xAUXO" "2021-01"
    = Some Example.recipient_x.
Proof.
  split.
  - apply (proj1 reshape_keeps_every_claim Example.index "2021-01"
             (Example.tree [("0xAAA", Example.claim_100); ("0xBBB", Example.claim_250)])).
    + unfold Example.index. single_well_formed.
    + simpl. auto.
    + simpl. auto.
  - apply (proj2 reshape_keeps_every_claim Example.dual_index "2021-01"
             [ ("veAUXO", Example.dual_tree [("0x123", Example.recipient_ve)]);
               ("xAUXO", Example.dual_tree [("0x123", Example.recipient_x);
                                            ("0x456", Example.recipient_x)]) ]
             "xAUXO"
             (Example.dual_tree [("0x123", Example.recipient_x);
                                 ("0x456", Example.recipient_x)])).
    + unfold Example.dual_index. dual_well_formed.
    + simpl. auto.
    + simpl. auto.
    + simpl. auto.
Defined.

(** C2. The reshape at a month index whose only recipient key is
    [constructor], a name every [{}] inherits: the read
    [merkleTreesByUser[user]] is truthy, no slot is created, the claim is
    stored on the inherited object, and the output holds no claim although
    the input holds one.  The count of the output is not the count of the
    input. *)
Theorem reshape_drops_inherited_recipient :
  (Single.count_in Example.index_inherited = 1 /\
   Single.merkleTreesByUser Example.index_inherited = [] /\
   Single.count (Single.merkleTreesByUser Example.index_inherited) = 0) /\
  (Dual.count_in Example.dual_index_inherited = 1 /\
   Dual.merkleTreesByUser Example.dual_index_inherited = [] /\
   Dual.count (Dual.merkleTreesByUser Example.dual_index_inherited) = 0).
Proof.
  split.
  - unfold Example.index_inherited, Single.count_in, Single.merkleTreesByUser.
    simpl. unfold Single.assign, Js.get. simpl. auto.
  - unfold Example.dual_index_inherited, Dual.count_in, Dual.merkleTreesByUser.
    simpl. unfold Dual.assign, Js.get. simpl. auto.
Qed.

(** X1. On well-formed indexes the reshape is a pivot: the keys of the output
    are recipients of the input, every slot holds the claim the input grants
    for its recipient and month, and the counts agree. *)
Lemma reshape_is_a_pivot_when_well_formed :
  (forall m : Single.MerkleTreesByMonth, Single.well_formed m ->
     (forall user, In user (Js.keys (Single.merkleTreesByUser m)) ->
        exists date c, In (date, user, c) (Single.granted m)) /\
     (forall user date c,
        Single.at_path (Single.merkleTreesByUser m) user date = Some c <->
        In (date, user, c) (Single.granted m)) /\
     Single.count (Single.merkleTreesByUser m) = Single.count_in m) /\
  (forall m : Dual.MerkleTreesByMonth, Dual.well_formed m ->
     (forall user, In user (Js.keys (Dual.merkleTreesByUser m)) ->
        exists date token r, In (date, token, user, r) (Dual.granted m)) /\
     (forall user token date r,
        Dual.at_path (Dual.merkleTreesByUser m) user token date = Some r <->
        In (date, token, user, r) (Dual.granted m)) /\
     Dual.count (Dual.merkleTreesByUser m) = Dual.count_in m).
Proof.
  split; intros m Hwf; repeat split.
  - intros user Hk. apply single_reshape_keys in Hk.
    destruct Hk as (d & mt & c & Hin & Hc). exists d, c.
    apply single_granted_In. now exists mt.
  - now apply single_reshape_at_path_iff.
  - now apply single_reshape_at_path_iff.
  - now apply single_reshape_count.
  - apply dual_reshape_keys.
  - now apply dual_reshape_at_path_iff.
  - now apply dual_reshape_at_path_iff.
  - now apply dual_reshape_count.
Qed.

(** X14. For well-formed indexes the output of the reshape, as a mapping,
    does not depend on the order in which the months, tokens and recipients
    are enumerated: two well-formed indexes that grant the same claims give
    outputs with the same keys and the same claims at every level. *)
Theorem reshape_ignores_enumeration_order_when_well_formed :
  (forall m m' : Single.MerkleTreesByMonth,
     Single.well_formed m -> Single.well_formed m' ->
     (forall t, In t (Single.granted m) <-> In t (Single.granted m')) ->
     Js.equiv (Js.equiv eq) (Single.merkleTreesByUser m) (Single.merkleTreesByUser m')) /\
  (forall m m' : Dual.MerkleTreesByMonth,
     Dual.well_formed m -> Dual.well_formed m' ->
     (forall t, In t (Dual.granted m) <-> In t (Dual.granted m')) ->
     Js.equiv (Js.equiv (Js.equiv eq))
       (Dual.merkleTreesByUser m) (Dual.merkleTreesByUser m')).
Proof.
  split.
  - apply single_reshape_order.
  - apply dual_reshape_order.
Qed.

Lemma reshape_ignores_enumeration_order_when_well_formed_witness :
  Js.equiv (Js.equiv eq)
    (Single.merkleTreesByUser Example.index)
    (Single.merkleTreesByUser Example.index_reordered) /\
  Js.equiv (Js.equiv (Js.equiv eq))
    (Dual.merkleTreesByUser Example.dual_index)
    (Dual.merkleTreesByUser Example.dual_index_reordered).
Proof.
  split.
  - apply (proj1 reshape_ignores_enumeration_order_when_well_formed).
    + unfold Example.index. single_well_formed.
    + unfold Example.index_reordered. single_well_formed.
    + intros t. simpl. intuition.
  - apply (proj2 reshape_ignores_enumeration_order_when_well_formed).
    + unfold Example.dual_index. dual_well_formed.
    + unfold Example.dual_index_reordered. dual_well_formed.
    + intros t. simpl. intuition.
Defined.

(** *** The reshape in a process: what a recipient [__proto__] leaves behind *)

(** On a recipient key that names no inherited property, and with nothing
    stored on [Object.prototype], the loop body of [SingleRealm] is that of
    [Single] and stores nothing on [Object.prototype]. *)
Lemma single_realm_assign_plain date user claim out :
  Js.plain user ->
  SingleRealm.assign date user claim (SingleRealm.fresh, out) =
  Completes (SingleRealm.fresh, Single.assign date user claim out).
Proof.
  intros Hp.
  assert (Hne : String.eqb user "__proto__" = false)
    by (apply String.eqb_neq; now apply Js.plain_not_proto).
  unfold SingleRealm.assign, Single.assign, SingleRealm.read, Js.get.
  simpl. rewrite Hne, Hp.
  destruct (Js.get_own user out) as [slot|] eqn:E.
  - now rewrite E.
  - rewrite Js.get_own_set_same by (now apply Js.plain_not_proto).
    reflexivity.
Qed.

Lemma single_realm_visit_claims_plain date claims out :
  (forall user claim, In (user, claim) claims -> Js.plain user) ->
  SingleRealm.visit_claims date claims (SingleRealm.fresh, out) =
  Completes
    (SingleRealm.fresh,
     fold_left (fun out '(user, claim) => Single.assign date user claim out)
               claims out).
Proof.
  revert out. induction claims as [|[user claim] rest IH]; intros out Hp.
  - reflexivity.
  - cbn [SingleRealm.visit_claims fold_left].
    rewrite single_realm_assign_plain by (apply (Hp user claim); now left).
    apply IH. intros u c Hin. apply (Hp u c). now right.
Qed.

Lemma single_realm_visit_months_plain months out :
  (forall date merkleTree, In (date, merkleTree) months ->
   forall user claim, In (user, claim) (Single.claims merkleTree) ->
   Js.plain user) ->
  SingleRealm.visit_months months (SingleRealm.fresh, out) =
  Completes
    (SingleRealm.fresh,
     fold_left
       (fun out '(date, merkleTree) =>
          fold_left (fun out '(user, claim) => Single.assign date user claim out)
                    (Js.entries (Single.claims merkleTree)) out)
       months out).
Proof.
  revert out. induction months as [|[date merkleTree] rest IH]; intros out Hp.
  - reflexivity.
  - cbn [SingleRealm.visit_months fold_left].
    rewrite single_realm_visit_claims_plain
      by (apply (Hp date merkleTree); now left).
    apply IH. intros d t Hin. apply (Hp d t). now right.
Qed.

(** A month whose recipients are an address spelled like the month label and
    [__proto__], in the two orders [Object.entries] can give them. *)
Module Polluting.

(** [{"2021-01": {claims: {"2021-01": c1, "__proto__": c2}}}] *)
Definition index (c1 c2 : Single.UserClaim) : Single.MerkleTreesByMonth :=
  [ ("2021-01", Example.tree [("2021-01", c1); ("__proto__", c2)]) ].

(** [{"2021-01": {claims: {"__proto__": c2, "2021-01": c1}}}] *)
Definition index_reordered (c1 c2 : Single.UserClaim) : Single.MerkleTreesByMonth :=
  [ ("2021-01", Example.tree [("__proto__", c2); ("2021-01", c1)]) ].

(** [{"2021-01": {veAUXO: {recipients: {"0xA": r1, "__proto__": r2}}}}] *)
Definition dual_index (r1 r2 : Dual.Recipient) : Dual.MerkleTreesByMonth :=
  [ ("2021-01",
     [ ("veAUXO", Example.dual_tree [("0xA", r1); ("__proto__", r2)]) ]) ].

(** [{"2021-01": {veAUXO: {recipients: {"__proto__": r2, "0xA": r1}}}}] *)
Definition dual_index_reordered (r1 r2 : Dual.Recipient) : Dual.MerkleTreesByMonth :=
  [ ("2021-01",
     [ ("veAUXO", Example.dual_tree [("__proto__", r2); ("0xA", r1)]) ]) ].

End Polluting.

(** C6. The reshape of lines 124-132 is not repeatable on every month index,
    and its output depends on the enumeration order.  Take one month
    [2021-01] with two recipients, [2021-01] holding [c1] and [__proto__]
    holding [c2].  With the recipients in that order the first reshape of a
    process returns [{"2021-01": {"2021-01": c1}}] and leaves [c2] on
    [Object.prototype] under [2021-01]; a second reshape of the same index in
    the same process then reads [merkleTreesByUser["2021-01"]] as truthy,
    creates no slot and returns [{}].  With the recipients in the other
    order, the same index as a mapping, the first reshape already returns
    [{}].  The outputs are not equal as mappings. *)
Theorem reshape_is_not_repeatable_after_proto_recipient
    (c1 c2 : Single.UserClaim) :
  (forall t, In t (Single.granted (Polluting.index c1 c2)) <->
             In t (Single.granted (Polluting.index_reordered c1 c2))) /\
  SingleRealm.merkleTreesByUser SingleRealm.fresh (Polluting.index c1 c2) =
    Completes
      ({| SingleRealm.added := [("2021-01", c2)] |},
       [("2021-01", [("2021-01", c1)])]) /\
  SingleRealm.merkleTreesByUser
      {| SingleRealm.added := [("2021-01", c2)] |} (Polluting.index c1 c2) =
    Completes ({| SingleRealm.added := [("2021-01", c2)] |}, []) /\
  SingleRealm.twice (Polluting.index c1 c2) =
    Completes ([("2021-01", [("2021-01", c1)])], []) /\
  SingleRealm.merkleTreesByUser SingleRealm.fresh (Polluting.index_reordered c1 c2) =
    Completes ({| SingleRealm.added := [("2021-01", c2)] |}, []) /\
  ~ Js.equiv (Js.equiv eq)
      [("2021-01", [("2021-01", c1)])] ([] : Single.MerkleTreesByUser).
Proof.
  split; [intros t; simpl; intuition|].
  repeat split.
  intros H. exact (H "2021-01").
Qed.

(** X15. On a month index none of whose recipient keys names a property
    inherited from [Object.prototype], the reshape of lines 124-132 stores
    nothing on [Object.prototype] and returns what [Single.merkleTreesByUser]
    computes; two reshapes of such an index in one process return the same
    object twice. *)
Theorem reshape_is_repeatable_on_plain_recipients
    (m : Single.MerkleTreesByMonth) :
  (forall date merkleTree, In (date, merkleTree) m ->
   forall user claim, In (user, claim) (Single.claims merkleTree) ->
   Js.plain user) ->
  SingleRealm.merkleTreesByUser SingleRealm.fresh m =
    Completes (SingleRealm.fresh, Single.merkleTreesByUser m) /\
  SingleRealm.twice m =
    Completes (Single.merkleTreesByUser m, Single.merkleTreesByUser m).
Proof.
  intros Hp.
  assert (H : SingleRealm.merkleTreesByUser SingleRealm.fresh m =
              Completes (SingleRealm.fresh, Single.merkleTreesByUser m)).
  { unfold SingleRealm.merkleTreesByUser, Single.merkleTreesByUser, Js.entries.
    now apply single_realm_visit_months_plain. }
  split; [exact H|].
  unfold SingleRealm.twice. now rewrite H, H.
Qed.

Lemma reshape_is_repeatable_on_plain_recipients_witness :
  SingleRealm.merkleTreesByUser SingleRealm.fresh Example.index =
    Completes (SingleRealm.fresh, Single.merkleTreesByUser Example.index) /\
  SingleRealm.twice Example.index =
    Completes
      (Single.merkleTreesByUser Example.index, Single.merkleTreesByUser Example.index).
Proof.
  apply (reshape_is_repeatable_on_plain_recipients Example.index).
  intros date merkleTree Hm user claim Hc.
  unfold Example.index in Hm. simpl in Hm.
  destruct Hm as [Hm|[Hm|[]]]; injection Hm as <- <-; simpl in Hc;
    repeat (destruct Hc as [Hc|Hc]; [injection Hc as <- <-; reflexivity|]);
    contradiction.
Defined.

(** X16. The dual-schema reshape of lines 164-179 on one month [2021-01]
    whose token [veAUXO] has the recipients [0xA], holding [r1], and
    [__proto__], holding [r2].  With the recipients in that order the first
    reshape of a process returns [{"0xA": {"veAUXO": {"2021-01": r1}}}] and
    leaves an object under [veAUXO] on [Object.prototype]; a second reshape
    of the same index then finds [merkleTreesByUser["0xA"]["veAUXO"]] truthy,
    stores [r1] in the object on [Object.prototype] and returns
    [{"0xA": {}}].  With the recipients in the other order the first reshape
    already returns [{"0xA": {}}].  The outputs are not equal as mappings. *)
Theorem dual_reshape_is_not_repeatable_after_proto_recipient
    (r1 r2 : Dual.Recipient) :
  (forall t, In t (Dual.granted (Polluting.dual_index r1 r2)) <->
             In t (Dual.granted (Polluting.dual_index_reordered r1 r2))) /\
  DualRealm.merkleTreesByUser DualRealm.fresh (Polluting.dual_index r1 r2) =
    Completes
      ({| DualRealm.shared := [("veAUXO", [("2021-01", r2)])] |},
       [("0xA", [("veAUXO", [("2021-01", r1)])])]) /\
  DualRealm.twice (Polluting.dual_index r1 r2) =
    Completes ([("0xA", [("veAUXO", [("2021-01", r1)])])], [("0xA", [])]) /\
  DualRealm.merkleTreesByUser DualRealm.fresh (Polluting.dual_index_reordered r1 r2) =
    Completes
      ({| DualRealm.shared := [("veAUXO", [("2021-01", r1)])] |}, [("0xA", [])]) /\
  ~ Js.equiv (Js.equiv (Js.equiv eq))
      [("0xA", [("veAUXO", [("2021-01", r1)])])]
      ([("0xA", [])] : Dual.MerkleTreesByUser).
Proof.
  split; [intros t; simpl; intuition|].
  repeat split.
  intros H. specialize (H "0xA"). simpl in H. exact (H "veAUXO").
Qed.

(** *** The dual-schema reshape in a process, on plain keys *)

Lemma update_twice {V : Type} k (v v' : V) (o : Js.Obj V) :
  Js.update k v (Js.update k v' o) = Js.update k v o.
Proof.
  induction o as [|[k0 v0] o IH]; simpl; [reflexivity|].
  destruct (String.eqb_spec k k0) as [->|Hne]; simpl.
  - now rewrite String.eqb_refl.
  - destruct (String.eqb_spec k k0); [contradiction|]. now rewrite IH.
Qed.

(** On a recipient and a token key that name no inherited property, and with
    nothing stored on [Object.prototype], the loop body of [DualRealm] is
    that of [Dual] and stores nothing on [Object.prototype]. *)
Lemma dual_realm_assign_plain date token user recipient out :
  Js.plain token -> Js.plain user ->
  DualRealm.assign date token user recipient (DualRealm.fresh, out) =
  Completes (DualRealm.fresh, Dual.assign date token user recipient out).
Proof.
  intros Ht Hu.
  assert (Hne : String.eqb user "__proto__" = false)
    by (apply String.eqb_neq; now apply Js.plain_not_proto).
  assert (Htp : token <> "__proto__") by (now apply Js.plain_not_proto).
  assert (Hup : user <> "__proto__") by (now apply Js.plain_not_proto).
  assert (Hstore : forall slot o,
            Js.has_own user o = true ->
            Js.get_own token slot = None ->
            DualRealm.store date token user recipient
              (DualRealm.fresh, Js.update user (Js.set token [] slot) o) =
            Completes
              (DualRealm.fresh,
               Js.update user
                 (Js.update token (Js.set date recipient []) (Js.set token [] slot))
                 o)).
  { intros slot o Ho Hs. unfold DualRealm.store, DualRealm.read.
    rewrite Js.get_own_update_same by exact Ho.
    rewrite Js.get_own_set_same by exact Htp.
    now rewrite update_twice. }
  unfold DualRealm.assign. rewrite Ht.
  unfold Dual.assign, Js.get. cbv zeta.
  destruct (Js.get_own user out) as [slot|] eqn:E.
  - assert (Ho : Js.has_own user out = true) by (unfold Js.has_own; now rewrite E).
    unfold DualRealm.ensure_user, DualRealm.read. rewrite E.
    unfold DualRealm.ensure_token, DualRealm.read. rewrite E.
    destruct (Js.get_own token slot) as [months|] eqn:Es.
    + simpl. unfold DualRealm.store, DualRealm.read. rewrite E, Es.
      reflexivity.
    + simpl. rewrite Ht. rewrite Js.get_own_set_same by exact Htp.
      now apply Hstore.
  - unfold DualRealm.ensure_user, DualRealm.read. rewrite E, Hne. simpl.
    rewrite Hu. rewrite Js.get_own_set_same by exact Hup.
    unfold DualRealm.ensure_token, DualRealm.read.
    rewrite Js.get_own_set_same by exact Hup. simpl.
    rewrite Ht. rewrite Js.get_own_set_same by exact Htp.
    apply Hstore; [|reflexivity].
    unfold Js.has_own. now rewrite Js.get_own_set_same by exact Hup.
Qed.

Lemma dual_realm_visit_recipients_plain date token recipients out :
  Js.plain token ->
  (forall user recipient, In (user, recipient) recipients -> Js.plain user) ->
  DualRealm.visit_recipients date token recipients (DualRealm.fresh, out) =
  Completes
    (DualRealm.fresh,
     fold_left
       (fun out '(user, recipient) => Dual.assign date token user recipient out)
       recipients out).
Proof.
  intros Ht. revert out.
  induction recipients as [|[user recipient] rest IH]; intros out Hp.
  - reflexivity.
  - cbn [DualRealm.visit_recipients fold_left].
    rewrite dual_realm_assign_plain;
      [|exact Ht|apply (Hp user recipient); now left].
    apply IH. intros u r Hin. apply (Hp u r). now right.
Qed.

Lemma dual_realm_visit_tokens_plain date tokens out :
  (forall token merkleTree, In (token, merkleTree) tokens ->
   Js.plain token /\
   forall user recipient, In (user, recipient) (Dual.recipients merkleTree) ->
   Js.plain user) ->
  DualRealm.visit_tokens date tokens (DualRealm.fresh, out) =
  Completes
    (DualRealm.fresh,
     fold_left
       (fun out '(token, merkleTree) =>
          fold_left
            (fun out '(user, recipient) =>
               Dual.assign date token user recipient out)
            (Js.entries (Dual.recipients merkleTree)) out)
       tokens out).
Proof.
  revert out. induction tokens as [|[token merkleTree] rest IH]; intros out Hp.
  - reflexivity.
  - cbn [DualRealm.visit_tokens fold_left].
    destruct (Hp token merkleTree) as [Ht Hu]; [now left|].
    rewrite dual_realm_visit_recipients_plain by assumption.
    apply IH. intros t m Hin. apply (Hp t m). now right.
Qed.

Lemma dual_realm_visit_months_plain months out :
  (forall date byToken, In (date, byToken) months ->
   forall token merkleTree, In (token, merkleTree) byToken ->
   Js.plain token /\
   forall user recipient, In (user, recipient) (Dual.recipients merkleTree) ->
   Js.plain user) ->
  DualRealm.visit_months months (DualRealm.fresh, out) =
  Completes
    (DualRealm.fresh,
     fold_left
       (fun out '(date, merkleTreesByToken) =>
          fold_left
            (fun out '(token, merkleTree) =>
               fold_left
                 (fun out '(user, recipient) =>
                    Dual.assign date token user recipient out)
                 (Js.entries (Dual.recipients merkleTree)) out)
            (Js.entries merkleTreesByToken) out)
       months out).
Proof.
  revert out. induction months as [|[date byToken] rest IH]; intros out Hp.
  - reflexivity.
  - cbn [DualRealm.visit_months fold_left].
    rewrite dual_realm_visit_tokens_plain by (apply (Hp date byToken); now left).
    apply IH. intros d b Hin. apply (Hp d b). now right.
Qed.

(** X17. On a month index none of whose token and recipient keys names a
    property inherited from [Object.prototype], the dual-schema reshape of
    lines 164-179 stores nothing on [Object.prototype] and returns what
    [Dual.merkleTreesByUser] computes; two reshapes of such an index in one
    process return the same object twice. *)
Theorem dual_reshape_is_repeatable_on_plain_keys
    (m : Dual.MerkleTreesByMonth) :
  (forall date byToken, In (date, byToken) m ->
   forall token merkleTree, In (token, merkleTree) byToken ->
   Js.plain token /\
   forall user recipient, In (user, recipient) (Dual.recipients merkleTree) ->
   Js.plain user) ->
  DualRealm.merkleTreesByUser DualRealm.fresh m =
    Completes (DualRealm.fresh, Dual.merkleTreesByUser m) /\
  DualRealm.twice m =
    Completes (Dual.merkleTreesByUser m, Dual.merkleTreesByUser m).
Proof.
  intros Hp.
  assert (H : DualRealm.merkleTreesByUser DualRealm.fresh m =
              Completes (DualRealm.fresh, Dual.merkleTreesByUser m)).
  { unfold DualRealm.merkleTreesByUser, Dual.merkleTreesByUser, Js.entries.
    now apply dual_realm_visit_months_plain. }
  split; [exact H|].
  unfold DualRealm.twice. now rewrite H, H.
Qed.

Lemma dual_reshape_is_repeatable_on_plain_keys_witness :
  DualRealm.merkleTreesByUser DualRealm.fresh Example.dual_index =
    Completes (DualRealm.fresh, Dual.merkleTreesByUser Example.dual_index) /\
  DualRealm.twice Example.dual_index =
    Completes
      (Dual.merkleTreesByUser Example.dual_index,
       Dual.merkleTreesByUser Example.dual_index).
Proof.
  apply (dual_reshape_is_repeatable_on_plain_keys Example.dual_index).
  intros date byToken Hm token merkleTree Ht.
  unfold Example.dual_index in Hm. simpl in Hm.
  destruct Hm as [Hm|[]]. injection Hm as <- <-. simpl in Ht.
  destruct Ht as [Ht|[Ht|[]]]; injection Ht as <- <-;
    (split; [reflexivity|]); intros user recipient Hr; simpl in Hr;
    repeat (destruct Hr as [Hr|Hr]; [injection Hr as <- <-; reflexivity|]);
    contradiction.
Defined.

(** ** The run: query, reshape, publish, and the handler *)

(** Case analysis on the outcome of every call of [run], in order. *)
Ltac run_cases h arrange :=
  try unfold run_with; try unfold try_catch; unfold body; try unfold on_error;
  unfold bind, perform, lift; try unfold ret;
  repeat (first
    [ match goal with
      | |- context [arrange ?q] => destruct (arrange q) as [?u|?t] eqn:?A
      end
    | match goal with
      | |- context [h ?c ?w] => destruct (h c w) as [[?r|?t] ?w] eqn:?E
      end
    | match goal with
      | |- context [match ?t with ErrorObject _ => _ | OtherValue _ => _ end] =>
          is_var t; destruct t as [?e|?v]
      end ];
    cbn [fst snd app trace_of result_of world_of observe]).

(** Case analysis on the membership of an event in a trace that is known. *)
Ltac pick_event H :=
  simpl in H;
  repeat (destruct H as [H|H]; [try discriminate H|]);
  try contradiction.

Definition is_updateRef (c : call) : bool :=
  match c with UpdateRef _ _ _ _ => true | _ => false end.

Definition is_createCommit (c : call) : bool :=
  match c with CreateCommit _ _ _ _ _ => true | _ => false end.

(** The calls that create an object or move a reference. *)
Definition writes (c : call) : bool :=
  match c with
  | CreateBlob _ _ _ _ | CreateTree _ _ _ _ | CreateCommit _ _ _ _ _
  | UpdateRef _ _ _ _ => true
  | _ => false
  end.

Definition blob_item (blob : string) : TreeItem :=
  {| path := "reports/merkle-trees-by-user.json";
     mode := "100644";
     item_type := "blob";
     sha := blob |}.

(** How many calls of a kind a trace holds. *)
Definition calls (p : call -> bool) (tr : list event) : nat :=
  length (filter (fun ev => p (fst ev)) tr).

Section RunFacts.
Context {W U : Type}.
Variable h : handler W.
Variable arrange : QueryResult -> completion U.
Variable stringify : U -> string.

(** The commit call: the literal message, the resolved tip as only parent. *)
Lemma run_with_commit w o rp msg tree parents x :
  In (CreateCommit o rp msg tree parents, x)
     (trace_of (run_with h arrange stringify w)) ->
  msg = commit_message /\
  exists ref tip,
    In (GetRef o rp ref, Returned (Some tip))
       (trace_of (run_with h arrange stringify w)) /\
    parents = [tip].
Proof.
  run_cases h arrange; simpl; intros H; pick_event H;
    injection H as <- <- <- <- <- _; (split; [reflexivity|]);
    eexists _, _; (split; [|reflexivity]); auto 12.
Qed.

Lemma run_with_calls_once w :
  calls is_createCommit (trace_of (run_with h arrange stringify w)) <= 1 /\
  calls is_updateRef (trace_of (run_with h arrange stringify w)) <= 1.
Proof. run_cases h arrange; unfold calls; simpl; lia. Qed.

(** The reference is moved to the commit made from the blob, the tree and the
    tip the earlier steps returned. *)
Lemma run_with_updateRef w o rp ref commit x :
  In (UpdateRef o rp ref commit, x) (trace_of (run_with h arrange stringify w)) ->
  exists tip content blob tree,
    In (GetRef o rp ref, Returned (Some tip))
       (trace_of (run_with h arrange stringify w)) /\
    In (CreateBlob o rp content "utf-8", Returned (Some blob))
       (trace_of (run_with h arrange stringify w)) /\
    In (CreateTree o rp [blob_item blob] tip, Returned (Some tree))
       (trace_of (run_with h arrange stringify w)) /\
    In (CreateCommit o rp commit_message tree [tip], Returned (Some commit))
       (trace_of (run_with h arrange stringify w)).
Proof.
  run_cases h arrange; simpl; intros H; pick_event H;
    injection H as <- <- <- <- _;
    eexists _, _, _, _; unfold blob_item; repeat split; auto 14.
Qed.

(** A run whose [getRef] is rejected writes nothing. *)
Lemma run_with_getRef_rejected w o rp ref t :
  In (GetRef o rp ref, Rejected t) (trace_of (run_with h arrange stringify w)) ->
  forall c x, In (c, x) (trace_of (run_with h arrange stringify w)) ->
    writes c = false.
Proof.
  run_cases h arrange; simpl; intros H; pick_event H;
    intros c x Hc; pick_event Hc; injection Hc as <- _; reflexivity.
Qed.

(** A run one of whose publish steps is rejected has not moved a branch, in
    an environment where only a fulfilled [updateRef] moves one. *)
Lemma run_with_branch_unchanged (branch_tip : W -> string -> option string) :
  (forall c w ref, is_updateRef c = false ->
     branch_tip (snd (h c w)) ref = branch_tip w ref) ->
  (forall c w t w' ref, h c w = (Throw t, w') ->
     branch_tip w' ref = branch_tip w ref) ->
  forall w c t,
    In (c, Rejected t) (trace_of (run_with h arrange stringify w)) ->
    is_publish c = true ->
    forall ref,
      branch_tip (world_of (run_with h arrange stringify w)) ref = branch_tip w ref.
Proof.
  intros F1 F2 w c t.
  run_cases h arrange; simpl; intros H Hp ref; pick_event H;
    try (injection H as <- _; discriminate Hp);
    repeat match goal with
      | E : h ?c0 ?w0 = (Throw _, _) |- _ =>
          pose proof (F2 _ _ _ _ ref E); clear E
      | E : h ?c0 ?w0 = (Normal _, _) |- _ =>
          let F := fresh "F" in
          pose proof (F1 c0 w0 ref eq_refl) as F;
          rewrite E in F; simpl in F; clear E
      end;
    congruence.
Qed.

(** The statements inside [try] never call [setFailed]. *)
Lemma body_never_reports w c x :
  In (c, x) (trace_of (body h arrange stringify w)) -> is_setFailed c = false.
Proof.
  run_cases h arrange; simpl; intros H; pick_event H;
    injection H as <- _; reflexivity.
Qed.

(** What the handler does with the value it catches. *)
Lemma run_with_catch w tr t w1 :
  body h arrange stringify w = (tr, Throw t, w1) ->
  match t with
  | ErrorObject e =>
      exists x,
        trace_of (run_with h arrange stringify w) =
        tr ++ [(SetFailed (message e), x)]
  | OtherValue _ => run_with h arrange stringify w = (tr, Normal tt, w1)
  end.
Proof.
  intros Hb. unfold run_with, try_catch. rewrite Hb.
  destruct t as [e|v]; simpl.
  - unfold perform. destruct (h (SetFailed (message e)) w1) as [[r|t] w2];
      simpl; eexists; reflexivity.
  - now rewrite app_nil_r.
Qed.

Lemma run_with_normal w tr a w1 :
  body h arrange stringify w = (tr, Normal a, w1) ->
  run_with h arrange stringify w = (tr, Normal a, w1).
Proof. intros Hb. unfold run_with, try_catch. now rewrite Hb. Qed.

(** When every call is fulfilled and the lines between the query and
    [getRef] complete, the run makes its eleven calls. *)
Lemma run_with_all_fulfilled w u :
  (forall c w0, exists r w1, h c w0 = (Normal r, w1)) ->
  (forall e o rp w0 qr w1,
     h (Graphql e o rp) w0 = (Normal qr, w1) -> arrange qr = Normal u) ->
  result_of (run_with h arrange stringify w) = Normal tt /\
  exists owner repo token branch tip blob tree commit,
    trace_of (run_with h arrange stringify w) =
    [ (GetInput "owner", Returned (Some owner));
      (GetInput "repo", Returned (Some repo));
      (GetInput "token", Returned (Some token));
      (GetInput "branch", Returned (Some branch));
      (GetOctokit token, Returned None);
      (Graphql "HEAD:reports" owner repo, Returned None);
      (GetRef owner repo ("heads/" ++ branch), Returned (Some tip));
      (CreateBlob owner repo (stringify u) "utf-8", Returned (Some blob));
      (CreateTree owner repo [blob_item blob] tip, Returned (Some tree));
      (CreateCommit owner repo commit_message tree [tip], Returned (Some commit));
      (UpdateRef owner repo ("heads/" ++ branch) commit, Returned None) ].
Proof.
  intros Hall Hq.
  run_cases h arrange;
    try match goal with
      | E : h ?c ?w0 = (Throw _, _) |- _ =>
          destruct (Hall c w0) as (? & ? & Hok); rewrite Hok in E; discriminate E
      end;
    try match goal with
      | A : arrange ?q = _, E : h (Graphql _ _ _) _ = (Normal ?q, _) |- _ =>
          rewrite (Hq _ _ _ _ _ _ E) in A; try discriminate A;
          injection A as <-
      end.
  split; [match goal with |- Normal ?r = _ => destruct r end; reflexivity|].
  unfold blob_item. repeat eexists.
Qed.

(** When the lines between the query and [getRef] throw an error object on
    every query result, the run makes no publish call, and once the query is
    answered it ends in [setFailed] with the message of such an error. *)
Lemma run_with_arrange_throws w :
  (forall e o rp w0 qr w1,
     h (Graphql e o rp) w0 = (Normal qr, w1) ->
     exists err, arrange qr = Throw (ErrorObject err)) ->
  (forall c x, In (c, x) (trace_of (run_with h arrange stringify w)) ->
     is_publish c = false) /\
  (forall e o rp,
     In (Graphql e o rp, Returned None) (trace_of (run_with h arrange stringify w)) ->
     exists pre qr err x,
       arrange qr = Throw (ErrorObject err) /\
       trace_of (run_with h arrange stringify w) =
       pre ++ [(SetFailed (message err), x)]).
Proof.
  intros Hq.
  run_cases h arrange;
    try match goal with
      | A : arrange ?q = _, E : h (Graphql _ _ _) _ = (Normal ?q, _) |- _ =>
          let err := fresh "err" in
          let He := fresh "He" in
          destruct (Hq _ _ _ _ _ _ E) as (err & He);
          pose proof He as A'; rewrite A in A'; try discriminate A';
          try (injection A' as ->)
      end;
    (split;
     [ intros c x H; pick_event H; injection H as <- _; reflexivity
     | intros e0 o rp H; pick_event H;
       match goal with
       | A : arrange ?q = Throw (ErrorObject ?err) |- _ =>
           eexists (_ :: _ :: _ :: _ :: _ :: [_]), q, err, _;
           split; [exact A | reflexivity]
       end ]).
Qed.

End RunFacts.

(** ** The month-index builders *)
Section Builders.
Variable parse : string -> parsed Single.MerkleTree.
Variable parse2 : string -> parsed Dual.MerkleTree.

(** The file name the single-schema builder recognizes. *)
Definition single_recognized (el : File) : bool :=
  String.eqb (file_name el) "merkle-tree.json".

(** An entry without the files the single-schema builder does not recognize. *)
Definition single_strip (entry : Entry) : Entry :=
  {| entry_name := entry_name entry;
     entry_type := entry_type entry;
     entry_entries := option_map (filter single_recognized) (entry_entries entry) |}.

Lemma single_visit_files_strip date els byMonth :
  Single.visit_files parse date els byMonth =
  Single.visit_files parse date (filter single_recognized els) byMonth.
Proof.
  revert byMonth. induction els as [|el els IH]; intros byMonth; simpl.
  - reflexivity.
  - unfold single_recognized at 1.
    destruct (String.eqb (file_name el) "merkle-tree.json") eqn:E; simpl.
    + rewrite E. destruct (parse (text el)); [apply IH | reflexivity].
    + apply IH.
Qed.

Lemma single_visit_files_unrecognized date els byMonth :
  (forall el, In el els -> file_name el <> "merkle-tree.json") ->
  Single.visit_files parse date els byMonth = Normal byMonth.
Proof.
  revert byMonth. induction els as [|el els IH]; intros byMonth H; simpl.
  - reflexivity.
  - destruct (String.eqb_spec (file_name el) "merkle-tree.json") as [E|_].
    + exfalso. apply (H el); [now left | exact E].
    + apply IH. intros el' Hin. apply H. now right.
Qed.

Lemma single_visit_entries_strip entries byMonth :
  Single.visit_entries parse entries byMonth =
  Single.visit_entries parse (map single_strip entries) byMonth.
Proof.
  revert byMonth. induction entries as [|e es IH]; intros byMonth; simpl.
  - reflexivity.
  - destruct (entry_entries e) as [els|]; simpl; [|reflexivity].
    rewrite <- single_visit_files_strip.
    destruct (Single.visit_files parse (entry_name e) els byMonth);
      [apply IH | reflexivity].
Qed.

Lemma single_visit_entries_app pre post byMonth :
  Single.visit_entries parse (pre ++ post) byMonth =
  match Single.visit_entries parse pre byMonth with
  | Normal b => Single.visit_entries parse post b
  | Throw t => Throw t
  end.
Proof.
  revert byMonth. induction pre as [|e es IH]; intros byMonth; simpl.
  - reflexivity.
  - destruct (entry_entries e) as [els|]; [|reflexivity].
    destruct (Single.visit_files parse (entry_name e) els byMonth);
      [apply IH | reflexivity].
Qed.

Lemma dual_visit_entries_app pre post st :
  Dual.visit_entries parse2 (pre ++ post) st =
  match Dual.visit_entries parse2 pre st with
  | Normal st1 => Dual.visit_entries parse2 post st1
  | Throw t => Throw t
  end.
Proof.
  revert st. induction pre as [|e es IH]; intros st; simpl.
  - reflexivity.
  - destruct (entry_entries e) as [els|]; [|reflexivity].
    destruct (Dual.visit_files parse2 (entry_name e) els st);
      [apply IH | reflexivity].
Qed.

(** What the builders throw is an error object. *)
Lemma single_visit_files_throws date els byMonth t :
  Single.visit_files parse date els byMonth = Throw t ->
  exists err, t = ErrorObject err.
Proof.
  revert byMonth. induction els as [|el els IH]; intros byMonth; simpl.
  - discriminate.
  - destruct (String.eqb (file_name el) "merkle-tree.json"); [|apply IH].
    destruct (parse (text el)); [apply IH|].
    intros [= <-]. eexists. reflexivity.
Qed.

Lemma single_visit_entries_throws entries byMonth t :
  Single.visit_entries parse entries byMonth = Throw t ->
  exists err, t = ErrorObject err.
Proof.
  revert byMonth. induction entries as [|e es IH]; intros byMonth; simpl.
  - discriminate.
  - destruct (entry_entries e) as [els|].
    + destruct (Single.visit_files parse (entry_name e) els byMonth) eqn:E.
      * apply IH.
      * intros [= <-]. eapply single_visit_files_throws; eauto.
    + intros [= <-]. eexists. reflexivity.
Qed.

Lemma dual_store_throws date tokenKey merkleTree st t :
  Dual.store date tokenKey merkleTree st = Throw t -> exists err, t = ErrorObject err.
Proof.
  unfold Dual.store.
  destruct (Js.get_own date (Dual.byMonth st)); [discriminate|].
  destruct (Js.inherited date); [discriminate|].
  destruct (existsb (String.eqb date) (Dual.polluted st)); [discriminate|].
  intros [= <-]. eexists. reflexivity.
Qed.

Lemma dual_visit_token_throws fileName tokenKey date el st t :
  Dual.visit_token parse2 fileName tokenKey date el st = Throw t ->
  exists err, t = ErrorObject err.
Proof.
  unfold Dual.visit_token.
  destruct (String.eqb (file_name el) fileName); [|discriminate].
  destruct (parse2 (text el)).
  - apply dual_store_throws.
  - intros [= <-]. eexists. reflexivity.
Qed.

Lemma dual_visit_files_throws date els st t :
  Dual.visit_files parse2 date els st = Throw t -> exists err, t = ErrorObject err.
Proof.
  revert st. induction els as [|el els IH]; intros st; simpl.
  - discriminate.
  - destruct (Dual.visit_token parse2 "merkle-tree-veAUXO.json" "veAUXO" date el st)
      as [st1|t1] eqn:E1.
    + destruct (Dual.visit_token parse2 "merkle-tree-xAUXO.json" "xAUXO" date el st1)
        as [st2|t2] eqn:E2.
      * apply IH.
      * intros [= <-]. eapply dual_visit_token_throws; eauto.
    + intros [= <-]. eapply dual_visit_token_throws; eauto.
Qed.

Lemma dual_visit_entries_throws entries st t :
  Dual.visit_entries parse2 entries st = Throw t -> exists err, t = ErrorObject err.
Proof.
  revert st. induction entries as [|e es IH]; intros st; simpl.
  - discriminate.
  - destruct (entry_entries e) as [els|].
    + destruct (Dual.visit_files parse2 (entry_name e) els st) eqn:E.
      * apply IH.
      * intros [= <-]. eapply dual_visit_files_throws; eauto.
    + intros [= <-]. eexists. reflexivity.
Qed.

(** An entry without a nested list makes either builder throw. *)
Lemma single_visit_entries_non_tree entries byMonth :
  (exists e, In e entries /\ entry_entries e = None) ->
  exists err, Single.visit_entries parse entries byMonth = Throw (ErrorObject err).
Proof.
  intros (e & Hin & He). apply in_split in Hin. destruct Hin as (pre & post & ->).
  rewrite single_visit_entries_app.
  destruct (Single.visit_entries parse pre byMonth) as [b|t] eqn:E.
  - simpl. rewrite He. eexists. reflexivity.
  - destruct (single_visit_entries_throws _ _ _ E) as (err & ->). now exists err.
Qed.

Lemma dual_visit_entries_non_tree entries st :
  (exists e, In e entries /\ entry_entries e = None) ->
  exists err, Dual.visit_entries parse2 entries st = Throw (ErrorObject err).
Proof.
  intros (e & Hin & He). apply in_split in Hin. destruct Hin as (pre & post & ->).
  rewrite dual_visit_entries_app.
  destruct (Dual.visit_entries parse2 pre st) as [b|t] eqn:E.
  - simpl. rewrite He. eexists. reflexivity.
  - destruct (dual_visit_entries_throws _ _ _ E) as (err & ->). now exists err.
Qed.

(** The dual-schema builder never gives [merkleTreesByMonth] a property. *)
Lemma dual_store_keeps_empty date tokenKey merkleTree st st1 :
  Dual.byMonth st = [] ->
  Dual.store date tokenKey merkleTree st = Normal st1 -> Dual.byMonth st1 = [].
Proof.
  unfold Dual.store. intros H. rewrite H. simpl.
  destruct (Js.inherited date).
  - intros [= <-]. reflexivity.
  - destruct (existsb (String.eqb date) (Dual.polluted st)); [|discriminate].
    intros [= <-]. exact H.
Qed.

Lemma dual_visit_token_keeps_empty fileName tokenKey date el st st1 :
  Dual.byMonth st = [] ->
  Dual.visit_token parse2 fileName tokenKey date el st = Normal st1 ->
  Dual.byMonth st1 = [].
Proof.
  unfold Dual.visit_token. intros H.
  destruct (String.eqb (file_name el) fileName).
  - destruct (parse2 (text el)); [|discriminate].
    now apply dual_store_keeps_empty.
  - now intros [= <-].
Qed.

Lemma dual_visit_files_keeps_empty date els st st1 :
  Dual.byMonth st = [] ->
  Dual.visit_files parse2 date els st = Normal st1 -> Dual.byMonth st1 = [].
Proof.
  revert st. induction els as [|el els IH]; intros st H; simpl.
  - now intros [= <-].
  - destruct (Dual.visit_token parse2 "merkle-tree-veAUXO.json" "veAUXO" date el st)
      as [sa|] eqn:E1; [|discriminate].
    destruct (Dual.visit_token parse2 "merkle-tree-xAUXO.json" "xAUXO" date el sa)
      as [sb|] eqn:E2; [|discriminate].
    apply IH. eapply dual_visit_token_keeps_empty; [|exact E2].
    eapply dual_visit_token_keeps_empty; [exact H | exact E1].
Qed.

Lemma dual_visit_entries_keeps_empty entries st st1 :
  Dual.byMonth st = [] ->
  Dual.visit_entries parse2 entries st = Normal st1 -> Dual.byMonth st1 = [].
Proof.
  revert st. induction entries as [|e es IH]; intros st H; simpl.
  - now intros [= <-].
  - destruct (entry_entries e) as [els|]; [|discriminate].
    destruct (Dual.visit_files parse2 (entry_name e) els st) as [sa|] eqn:E;
      [|discriminate].
    apply IH. eapply dual_visit_files_keeps_empty; eauto.
Qed.

End Builders.

(** ** An example environment

    A repository as a list of references, a client whose calls succeed unless
    [reject] names a thrown value for them, and a stand-in for [JSON.parse]. *)
Module Env.

Definition World : Type := list (string * string).

Definition branch_tip (w : World) (ref : string) : option string :=
  Js.get_own ref w.

Definition not_found : thrown :=
  ErrorObject {| err_name := "HttpError"; message := "Not Found" |}.

Definition input (name : string) : string :=
  if String.eqb name "owner" then "AuxoDAO"
  else if String.eqb name "repo" then "auxo-rewards"
  else if String.eqb name "token" then "ghs_token"
  else "main".

Definition github (reject : call -> option thrown) (tree : QueryResult)
    : handler World :=
  fun c w =>
    match reject c with
    | Some t => (Throw t, w)
    | None =>
        match c return completion (resp c) * World with
        | GetInput name => (Normal (input name), w)
        | GetOctokit _ => (Normal tt, w)
        | Graphql _ _ _ => (Normal tree, w)
        | GetRef _ _ ref =>
            match branch_tip w ("refs/" ++ ref) with
            | Some tip => (Normal tip, w)
            | None => (Throw not_found, w)
            end
        | CreateBlob _ _ _ _ => (Normal "b10b", w)
        | CreateTree _ _ _ _ => (Normal "7ree", w)
        | CreateCommit _ _ _ _ _ => (Normal "c0ffee", w)
        | UpdateRef _ _ ref commit => (Normal tt, Js.define ("refs/" ++ ref) commit w)
        | SetFailed _ => (Normal tt, w)
        end
    end.

Definition no_reject (c : call) : option thrown := None.

(** A client all of whose calls succeed, whatever the repository holds. *)
Definition obliging (tree : QueryResult) : handler World :=
  fun c w =>
    match c return completion (resp c) * World with
    | GetRef _ _ ref =>
        match branch_tip w ("refs/" ++ ref) with
        | Some tip => (Normal tip, w)
        | None => (Normal "0000000", w)
        end
    | c' => github no_reject tree c' w
    end.

(** The tree endpoint answers with a server error. *)
Definition reject_createTree (c : call) : option thrown :=
  match c with
  | CreateTree _ _ _ _ =>
      Some (ErrorObject {| err_name := "HttpError"; message := "Server Error" |})
  | _ => None
  end.

(** The first input read throws a value that is not an error object. *)
Definition reject_with_string (c : call) : option thrown :=
  match c with
  | GetInput _ => Some (OtherValue "boom")
  | _ => None
  end.

Definition repository : World := [("refs/heads/main", "0ld71p")].

Definition JSON_parse (text : string) : parsed Single.MerkleTree :=
  if String.eqb text "" then Malformed "Unexpected end of JSON input"
  else Parsed (Example.tree [("0xAAA", Example.claim_100)]).

Definition JSON_parse_dual (text : string) : parsed Dual.MerkleTree :=
  if String.eqb text "" then Malformed "Unexpected end of JSON input"
  else Parsed (Example.dual_tree [("0x123", Example.recipient_ve)]).

Definition file (name : string) : File := {| file_name := name; text := "{}" |}.

Definition directory (name : string) (files : list File) : Entry :=
  {| entry_name := name; entry_type := "tree"; entry_entries := Some files |}.

(** A file placed directly under [reports]. *)
Definition plain_file (name : string) : Entry :=
  {| entry_name := name; entry_type := "blob"; entry_entries := None |}.

End Env.

(** ** The month-index builders: claims C3, C7 and C10 *)

(** C3. The dual-schema builder on a month directory that holds a recognized
    token file: it parses the file, and the store
    [merkleTreesByMonth[date]['veAUXO'] = merkleTree] then throws, because
    [merkleTreesByMonth[date]] was never created.  For every month label that
    names no inherited property, a parsed token file ends the builder with a
    TypeError; and whenever the builder completes, the month index it returns
    is empty, so no recipient reaches the output under any token key. *)
Theorem dual_builder_throws_on_token_file :
  (forall parse2 date el merkleTree els rest kind,
     Js.plain date ->
     file_name el = "merkle-tree-veAUXO.json" ->
     parse2 (text el) = Parsed merkleTree ->
     Dual.merkleTreesByMonth parse2
       ({| entry_name := date; entry_type := kind;
           entry_entries := Some (el :: els) |} :: rest) =
     Throw (set_of_undefined "veAUXO")) /\
  (forall parse2 merkleTrees byMonth,
     Dual.merkleTreesByMonth parse2 merkleTrees = Normal byMonth -> byMonth = []).
Proof.
  split.
  - intros parse2 date el merkleTree els rest kind Hp Hn Hparse.
    unfold Dual.merkleTreesByMonth. simpl.
    unfold Dual.visit_token at 1. rewrite Hn. simpl. rewrite Hparse.
    unfold Dual.store. simpl. unfold Js.plain in Hp. rewrite Hp. reflexivity.
  - intros parse2 merkleTrees byMonth. unfold Dual.merkleTreesByMonth.
    destruct (Dual.visit_entries parse2 merkleTrees
                {| Dual.byMonth := []; Dual.polluted := [] |}) as [st|t] eqn:E;
      [|discriminate].
    intros [= <-]. eapply dual_visit_entries_keeps_empty; [|exact E]. reflexivity.
Qed.

Lemma dual_builder_throws_on_token_file_witness :
  Dual.merkleTreesByMonth Env.JSON_parse_dual
    [ Env.directory "2021-01"
        [ Env.file "merkle-tree-veAUXO.json"; Env.file "merkle-tree-xAUXO.json" ] ] =
  Throw (set_of_undefined "veAUXO") /\
  Dual.merkleTreesByMonth Env.JSON_parse_dual
    [ Env.directory "2021-01" [ Env.file "notes.txt" ] ] = Normal [].
Proof.
  split.
  - apply (proj1 dual_builder_throws_on_token_file Env.JSON_parse_dual "2021-01"
             (Env.file "merkle-tree-veAUXO.json")
             (Example.dual_tree [("0x123", Example.recipient_ve)])).
    + reflexivity.
    + reflexivity.
    + reflexivity.
  - destruct (Dual.merkleTreesByMonth Env.JSON_parse_dual
                [ Env.directory "2021-01" [ Env.file "notes.txt" ] ]) as [m|t] eqn:E.
    + now rewrite (proj2 dual_builder_throws_on_token_file _ _ _ E).
    + discriminate E.
Defined.

(** C7. In the single-schema variant the files whose name is not
    [merkle-tree.json] have no part in the result of the builder: the builder
    gives the same month index, or the same error, on the fetched tree and on
    the tree without them; and a month directory none of whose files is
    recognized can be left out of the tree without changing the result, so it
    adds no entry and raises no error. *)
Theorem single_builder_ignores_unrecognized :
  (forall parse merkleTrees,
     Single.merkleTreesByMonth parse merkleTrees =
     Single.merkleTreesByMonth parse (map single_strip merkleTrees)) /\
  (forall parse date els byMonth,
     (forall el, In el els -> file_name el <> "merkle-tree.json") ->
     Single.visit_files parse date els byMonth = Normal byMonth) /\
  (forall parse pre entry els post,
     entry_entries entry = Some els ->
     (forall el, In el els -> file_name el <> "merkle-tree.json") ->
     Single.merkleTreesByMonth parse (pre ++ entry :: post) =
     Single.merkleTreesByMonth parse (pre ++ post)).
Proof.
  repeat split.
  - intros parse merkleTrees. apply single_visit_entries_strip.
  - intros parse date els byMonth. apply single_visit_files_unrecognized.
  - intros parse pre entry els post He Hels. unfold Single.merkleTreesByMonth.
    rewrite !single_visit_entries_app.
    destruct (Single.visit_entries parse pre []) as [b|t]; [|reflexivity].
    simpl. rewrite He. now rewrite single_visit_files_unrecognized.
Qed.

Lemma single_builder_ignores_unrecognized_witness :
  Single.visit_files Env.JSON_parse "2021-02"
    [ Env.file "README.md"; Env.file "merkle-tree.json.bak" ] [] = Normal [] /\
  Single.merkleTreesByMonth Env.JSON_parse
    ([ Env.directory "2021-01" [ Env.file "merkle-tree.json" ] ] ++
     Env.directory "2021-02" [ Env.file "README.md"; Env.file "merkle-tree.json.bak" ]
     :: []) =
  Single.merkleTreesByMonth Env.JSON_parse
    ([ Env.directory "2021-01" [ Env.file "merkle-tree.json" ] ] ++ []).
Proof.
  split.
  - apply (proj1 (proj2 single_builder_ignores_unrecognized)).
    intros el H. pick_event H; rewrite <- H; discriminate.
  - apply (proj2 (proj2 single_builder_ignores_unrecognized) Env.JSON_parse _ _
             [ Env.file "README.md"; Env.file "merkle-tree.json.bak" ]).
    + reflexivity.
    + intros el H. pick_event H; rewrite <- H; discriminate.
Defined.

(** A fetched tree one of whose top-level entries has no nested list. *)
Definition has_non_tree (merkleTrees : QueryResult) : Prop :=
  exists entry, In entry merkleTrees /\ entry_entries entry = None.

(** A run that made no publish call and, if its query was answered, ended in
    [setFailed]. *)
Definition aborted_before_publish (tr : list event) : Prop :=
  (forall c x, In (c, x) tr -> is_publish c = false) /\
  (forall e o rp, In (Graphql e o rp, Returned None) tr ->
     exists pre msg x, tr = pre ++ [(SetFailed msg, x)]).

(** Every query the environment answers, it answers with a tree in [P]. *)
Definition answers {W : Type} (h : handler W) (P : QueryResult -> Prop) : Prop :=
  forall e o rp w qr w1, h (Graphql e o rp) w = (Normal qr, w1) -> P qr.

(** C10. A fetched tree with a top-level entry that has no nested entries
    list makes the builder of either variant throw an error object: the
    TypeError of [entry.object.entries.map] when the entries before it were
    visited without error, an earlier error of the builder otherwise.  The
    entry is never skipped: a run whose query returns such a tree makes no
    publish call and ends in the handler's [setFailed]. *)
Theorem non_tree_entry_aborts_the_run :
  (forall parse merkleTrees, has_non_tree merkleTrees ->
     exists err, Single.merkleTreesByMonth parse merkleTrees = Throw (ErrorObject err)) /\
  (forall parse pre entry post byMonth,
     entry_entries entry = None ->
     Single.merkleTreesByMonth parse pre = Normal byMonth ->
     Single.merkleTreesByMonth parse (pre ++ entry :: post) = Throw map_of_undefined) /\
  (forall parse2 merkleTrees, has_non_tree merkleTrees ->
     exists err, Dual.merkleTreesByMonth parse2 merkleTrees = Throw (ErrorObject err)) /\
  (forall parse2 pre entry post byMonth,
     entry_entries entry = None ->
     Dual.merkleTreesByMonth parse2 pre = Normal byMonth ->
     Dual.merkleTreesByMonth parse2 (pre ++ entry :: post) = Throw map_of_undefined) /\
  (forall (W : Type) (h : handler W) parse parse2 w,
     answers h has_non_tree ->
     aborted_before_publish (trace_of (Single.run h parse w)) /\
     aborted_before_publish (trace_of (Dual.run h parse2 w))).
Proof.
  split; [|split; [|split; [|split]]].
  - intros parse merkleTrees H. now apply single_visit_entries_non_tree.
  - intros parse pre entry post byMonth He Hpre. unfold Single.merkleTreesByMonth in *.
    rewrite single_visit_entries_app, Hpre. simpl. now rewrite He.
  - intros parse2 merkleTrees H. unfold Dual.merkleTreesByMonth.
    destruct (dual_visit_entries_non_tree parse2 merkleTrees
                {| Dual.byMonth := []; Dual.polluted := [] |} H) as (err & ->).
    now exists err.
  - intros parse2 pre entry post byMonth He Hpre. unfold Dual.merkleTreesByMonth in *.
    rewrite dual_visit_entries_app.
    destruct (Dual.visit_entries parse2 pre
                {| Dual.byMonth := []; Dual.polluted := [] |}); [|discriminate].
    simpl. now rewrite He.
  - intros W h parse parse2 w Hans. split.
    + destruct (run_with_arrange_throws h (Single.arrange parse)
                  Single.JSON_stringify w) as [Hp Hq].
      * intros e o rp w0 qr w1 E. specialize (Hans e o rp w0 qr w1 E).
        destruct (single_visit_entries_non_tree parse qr [] Hans) as (err & Herr).
        exists err. unfold Single.arrange, Single.merkleTreesByMonth.
        now rewrite Herr.
      * split; [exact Hp|]. intros e o rp Hin.
        destruct (Hq e o rp Hin) as (pre & qr & err & x & _ & Htr).
        now exists pre, (message err), x.
    + destruct (run_with_arrange_throws h (Dual.arrange parse2)
                  Dual.JSON_stringify w) as [Hp Hq].
      * intros e o rp w0 qr w1 E. specialize (Hans e o rp w0 qr w1 E).
        destruct (dual_visit_entries_non_tree parse2 qr
                    {| Dual.byMonth := []; Dual.polluted := [] |} Hans)
          as (err & Herr).
        exists err. unfold Dual.arrange, Dual.merkleTreesByMonth.
        now rewrite Herr.
      * split; [exact Hp|]. intros e o rp Hin.
        destruct (Hq e o rp Hin) as (pre & qr & err & x & _ & Htr).
        now exists pre, (message err), x.
Qed.

Lemma non_tree_entry_aborts_the_run_witness :
  Single.merkleTreesByMonth Env.JSON_parse
    ([ Env.directory "2021-01" [ Env.file "merkle-tree.json" ] ] ++
     Env.plain_file "README.md" :: [ Env.directory "2021-02" [] ]) =
  Throw map_of_undefined /\
  aborted_before_publish
    (trace_of
       (Dual.run (Env.github Env.no_reject [ Env.plain_file "README.md" ])
          Env.JSON_parse_dual Env.repository)).
Proof.
  split.
  - apply (proj1 (proj2 non_tree_entry_aborts_the_run) Env.JSON_parse
             [ Env.directory "2021-01" [ Env.file "merkle-tree.json" ] ]
             (Env.plain_file "README.md") [ Env.directory "2021-02" [] ]
             [("2021-01", Example.tree [("0xAAA", Example.claim_100)])]).
    + reflexivity.
    + reflexivity.
  - apply (proj2 (proj2 (proj2 (proj2 non_tree_entry_aborts_the_run)))
             Env.World (Env.github Env.no_reject [ Env.plain_file "README.md" ])
             Env.JSON_parse Env.JSON_parse_dual Env.repository).
    intros e o rp w qr w1 E. simpl in E. injection E as <- _.
    exists (Env.plain_file "README.md"). split; [now left | reflexivity].
Defined.

(** ** The publish stage and the handler: claims C4, C5, C8 and C9 *)

(** Only a fulfilled [updateRef] moves a branch of the repository. *)
Definition only_updateRef_moves {W : Type} (h : handler W)
    (branch_tip : W -> string -> option string) : Prop :=
  (forall c w ref, is_updateRef c = false ->
     branch_tip (snd (h c w)) ref = branch_tip w ref) /\
  (forall c w t w1 ref, h c w = (Throw t, w1) ->
     branch_tip w1 ref = branch_tip w ref).

(** The branch moves in the last step or not at all. *)
Definition publish_is_atomic {W : Type}
    (branch_tip : W -> string -> option string) (run : M W unit) (w : W) : Prop :=
  (forall c t, In (c, Rejected t) (trace_of (run w)) -> is_publish c = true ->
     forall ref, branch_tip (world_of (run w)) ref = branch_tip w ref) /\
  (forall o rp ref commit x, In (UpdateRef o rp ref commit, x) (trace_of (run w)) ->
     exists tip content blob tree,
       In (GetRef o rp ref, Returned (Some tip)) (trace_of (run w)) /\
       In (CreateBlob o rp content "utf-8", Returned (Some blob)) (trace_of (run w)) /\
       In (CreateTree o rp [blob_item blob] tip, Returned (Some tree))
          (trace_of (run w)) /\
       In (CreateCommit o rp commit_message tree [tip], Returned (Some commit))
          (trace_of (run w))) /\
  calls is_updateRef (trace_of (run w)) <= 1 /\
  (forall o rp ref t, In (GetRef o rp ref, Rejected t) (trace_of (run w)) ->
     forall c x, In (c, x) (trace_of (run w)) -> writes c = false).

(** C4. In an environment where only a fulfilled [updateRef] moves a branch,
    a run one of whose five publish steps is rejected leaves every branch at
    its tip of before the run.  [updateRef] is called at most once, and only
    with the sha returned by a fulfilled [createCommit], itself made from the
    fulfilled [createTree], [createBlob] and [getRef].  A run whose [getRef]
    is rejected calls none of [createBlob], [createTree], [createCommit] and
    [updateRef]. *)
Theorem publish_moves_the_branch_last :
  forall (W : Type) (h : handler W) (branch_tip : W -> string -> option string)
         parse parse2 w,
    only_updateRef_moves h branch_tip ->
    publish_is_atomic branch_tip (Single.run h parse) w /\
    publish_is_atomic branch_tip (Dual.run h parse2) w.
Proof.
  intros W h branch_tip parse parse2 w [F1 F2].
  split; unfold publish_is_atomic, Single.run, Dual.run; repeat split.
  - intros c t. now apply run_with_branch_unchanged.
  - apply run_with_updateRef.
  - apply run_with_calls_once.
  - apply run_with_getRef_rejected.
  - intros c t. now apply run_with_branch_unchanged.
  - apply run_with_updateRef.
  - apply run_with_calls_once.
  - apply run_with_getRef_rejected.
Qed.

Lemma publish_moves_the_branch_last_witness :
  Env.branch_tip
    (world_of (Single.run (Env.github Env.reject_createTree []) Env.JSON_parse
                 Env.repository))
    "refs/heads/main" = Some "0ld71p" /\
  calls is_updateRef
    (trace_of (Dual.run (Env.github Env.reject_createTree []) Env.JSON_parse_dual
                 Env.repository)) <= 1.
Proof.
  assert (Henv : only_updateRef_moves (Env.github Env.reject_createTree [])
                   Env.branch_tip).
  { split.
    - intros c w ref H. unfold Env.github.
      destruct (Env.reject_createTree c); [reflexivity|].
      destruct c; try reflexivity; try discriminate H.
      simpl.
      match goal with
      | |- context [match ?x with Some _ => _ | None => _ end] => destruct x
      end; reflexivity.
    - intros c w t w1 ref. unfold Env.github.
      destruct (Env.reject_createTree c); [now intros [= _ <-]|].
      destruct c; try discriminate.
      simpl.
      match goal with
      | |- context [match ?x with Some _ => _ | None => _ end] => destruct x
      end; [discriminate|].
      now intros [= _ <-]. }
  destruct (publish_moves_the_branch_last Env.World
              (Env.github Env.reject_createTree []) Env.branch_tip
              Env.JSON_parse Env.JSON_parse_dual Env.repository Henv)
    as [[Hs _] [_ [_ [Hd _]]]].
  split; [|exact Hd].
  apply (Hs (CreateTree "AuxoDAO" "auxo-rewards" [blob_item "b10b"] "0ld71p")
            (ErrorObject {| err_name := "HttpError"; message := "Server Error" |})).
  - simpl. auto 12.
  - reflexivity.
Defined.

(** The claim as the spec has it: every value the handler catches ends in a
    reported failure. *)
Definition reports_every_failure {W : Type} (body run : M W unit) (w : W) : Prop :=
  forall tr t w1, body w = (tr, Throw t, w1) ->
    exists msg x, In (SetFailed msg, x) (trace_of (run w)).

(** What the handler does: an error object is reported with its message, any
    other value is dropped and the run completes normally. *)
Definition reports_error_objects_only {W : Type} (body run : M W unit) (w : W)
    : Prop :=
  forall tr t w1, body w = (tr, Throw t, w1) ->
    (forall c x, In (c, x) tr -> is_setFailed c = false) /\
    match t with
    | ErrorObject e =>
        exists x, trace_of (run w) = tr ++ [(SetFailed (message e), x)]
    | OtherValue _ => run w = (tr, Normal tt, w1)
    end.

(** C5, as stated, fails: in the example environment the first
    [core.getInput] throws a string; the handler catches it, calls nothing,
    and the run completes without a reported failure. *)
Lemma thrown_string_is_not_reported :
  ~ reports_every_failure
      (body (Env.github Env.reject_with_string []) (Single.arrange Env.JSON_parse)
            Single.JSON_stringify)
      (Single.run (Env.github Env.reject_with_string []) Env.JSON_parse)
      Env.repository.
Proof.
  intros H.
  destruct (H [(GetInput "owner", Rejected (OtherValue "boom"))]
              (OtherValue "boom") Env.repository eq_refl) as (msg & x & Hin).
  pick_event Hin.
Qed.

(** C5, amended. For every value thrown inside [try] and caught by the
    handler: an error object is reported by [setFailed] with its message, as
    the last call of the run; any other value is not reported at all, the
    handler calls nothing and the run completes normally.  The statements
    inside [try] never call [setFailed] themselves. *)
Theorem handler_reports_error_objects_only :
  forall (W : Type) (h : handler W) parse parse2 w,
    reports_error_objects_only
      (body h (Single.arrange parse) Single.JSON_stringify) (Single.run h parse) w /\
    reports_error_objects_only
      (body h (Dual.arrange parse2) Dual.JSON_stringify) (Dual.run h parse2) w.
Proof.
  intros W h parse parse2 w. split; intros tr t w1 Hb; split.
  - intros c x Hin. apply (body_never_reports h (Single.arrange parse)
                             Single.JSON_stringify w c x).
    now rewrite Hb.
  - now apply run_with_catch.
  - intros c x Hin. apply (body_never_reports h (Dual.arrange parse2)
                             Dual.JSON_stringify w c x).
    now rewrite Hb.
  - now apply run_with_catch.
Qed.

Lemma handler_reports_error_objects_only_witness :
  (exists x,
     trace_of (Single.run (Env.github Env.reject_createTree []) Env.JSON_parse
                 Env.repository) =
     [ (GetInput "owner", Returned (Some "AuxoDAO"));
       (GetInput "repo", Returned (Some "auxo-rewards"));
       (GetInput "token", Returned (Some "ghs_token"));
       (GetInput "branch", Returned (Some "main"));
       (GetOctokit "ghs_token", Returned None);
       (Graphql "HEAD:reports" "AuxoDAO" "auxo-rewards", Returned None);
       (GetRef "AuxoDAO" "auxo-rewards" "heads/main", Returned (Some "0ld71p"));
       (CreateBlob "AuxoDAO" "auxo-rewards" "{}" "utf-8", Returned (Some "b10b"));
       (CreateTree "AuxoDAO" "auxo-rewards" [blob_item "b10b"] "0ld71p",
        Rejected (ErrorObject {| err_name := "HttpError"; message := "Server Error" |})) ]
     ++ [(SetFailed "Server Error", x)]) /\
  Dual.run (Env.github Env.reject_with_string []) Env.JSON_parse_dual Env.repository =
  ([(GetInput "owner", Rejected (OtherValue "boom"))], Normal tt, Env.repository).
Proof.
  split.
  - exact (proj2 (proj1 (handler_reports_error_objects_only Env.World
                           (Env.github Env.reject_createTree [])
                           Env.JSON_parse Env.JSON_parse_dual Env.repository)
                    _ (ErrorObject {| err_name := "HttpError";
                                      message := "Server Error" |})
                    Env.repository eq_refl)).
  - exact (proj2 (proj2 (handler_reports_error_objects_only Env.World
                           (Env.github Env.reject_with_string [])
                           Env.JSON_parse Env.JSON_parse_dual Env.repository)
                    _ (OtherValue "boom") Env.repository eq_refl)).
Defined.

(** A complete run whose blob holds the empty JSON object. *)
Definition publishes_empty_object (tr : list event) : Prop :=
  exists owner repo token branch tip blob tree commit,
    tr =
    [ (GetInput "owner", Returned (Some owner));
      (GetInput "repo", Returned (Some repo));
      (GetInput "token", Returned (Some token));
      (GetInput "branch", Returned (Some branch));
      (GetOctokit token, Returned None);
      (Graphql "HEAD:reports" owner repo, Returned None);
      (GetRef owner repo ("heads/" ++ branch), Returned (Some tip));
      (CreateBlob owner repo "{}" "utf-8", Returned (Some blob));
      (CreateTree owner repo [blob_item blob] tip, Returned (Some tree));
      (CreateCommit owner repo commit_message tree [tip], Returned (Some commit));
      (UpdateRef owner repo ("heads/" ++ branch) commit, Returned None) ].

(** Every call the environment receives, it fulfils. *)
Definition fulfils_every_call {W : Type} (h : handler W) : Prop :=
  forall c w, exists r w1, h c w = (Normal r, w1).

(** C8. When the query returns no top-level entry, the builder gives the
    empty month index, the reshape the empty user index, and its
    serialization is the two characters of the empty JSON object; in an
    environment that fulfils every call the run goes through all five
    publish steps, creating a blob with that content, a tree holding the
    blob and a commit of the tree, and moving the branch to the commit. *)
Theorem empty_tree_publishes_empty_object :
  (forall parse, Single.merkleTreesByMonth parse [] = Normal []) /\
  Single.merkleTreesByUser [] = [] /\
  Single.JSON_stringify [] = "{}" /\
  (forall parse2, Dual.merkleTreesByMonth parse2 [] = Normal []) /\
  Dual.merkleTreesByUser [] = [] /\
  Dual.JSON_stringify [] = "{}" /\
  (forall (W : Type) (h : handler W) parse parse2 w,
     fulfils_every_call h -> answers h (fun qr => qr = []) ->
     (result_of (Single.run h parse w) = Normal tt /\
      publishes_empty_object (trace_of (Single.run h parse w))) /\
     (result_of (Dual.run h parse2 w) = Normal tt /\
      publishes_empty_object (trace_of (Dual.run h parse2 w)))).
Proof.
  do 6 (split; [reflexivity|]).
  intros W h parse parse2 w Hall Hempty.
  assert (Hs : forall e o rp w0 qr w1,
             h (Graphql e o rp) w0 = (Normal qr, w1) ->
             Single.arrange parse qr = Normal []).
  { intros e o rp w0 qr w1 E. now rewrite (Hempty e o rp w0 qr w1 E). }
  assert (Hd : forall e o rp w0 qr w1,
             h (Graphql e o rp) w0 = (Normal qr, w1) ->
             Dual.arrange parse2 qr = Normal []).
  { intros e o rp w0 qr w1 E. now rewrite (Hempty e o rp w0 qr w1 E). }
  split.
  - exact (run_with_all_fulfilled h (Single.arrange parse) Single.JSON_stringify
             w [] Hall Hs).
  - exact (run_with_all_fulfilled h (Dual.arrange parse2) Dual.JSON_stringify
             w [] Hall Hd).
Qed.

Lemma empty_tree_publishes_empty_object_witness :
  publishes_empty_object
    (trace_of (Single.run (Env.obliging []) Env.JSON_parse Env.repository)) /\
  publishes_empty_object
    (trace_of (Dual.run (Env.obliging []) Env.JSON_parse_dual Env.repository)).
Proof.
  assert (Hall : fulfils_every_call (Env.obliging [])).
  { intros c w. destruct c; simpl; try (eexists _, _; reflexivity).
    match goal with
    | |- context [match ?x with Some _ => _ | None => _ end] => destruct x
    end; eexists _, _; reflexivity. }
  assert (Hempty : answers (Env.obliging []) (fun qr => qr = [])).
  { intros e o rp w qr w1 E. simpl in E. now injection E as <- _. }
  destruct (proj2 (proj2 (proj2 (proj2 (proj2 (proj2
              empty_tree_publishes_empty_object)))))
              Env.World (Env.obliging []) Env.JSON_parse Env.JSON_parse_dual
              Env.repository Hall Hempty) as [[_ Hs] [_ Hd]].
  split; assumption.
Defined.

(** The commit of a run: its message, its parent, and that it is the commit
    the branch is moved to. *)
Definition commit_is_fixed (tr : list event) : Prop :=
  (forall o rp msg tree parents x,
     In (CreateCommit o rp msg tree parents, x) tr ->
     msg = "**GENERATED** Arrange Rewards by User" /\
     exists ref tip, In (GetRef o rp ref, Returned (Some tip)) tr /\ parents = [tip]) /\
  calls is_createCommit tr <= 1 /\
  (forall o rp ref commit, In (UpdateRef o rp ref commit, Returned None) tr ->
     exists tip tree,
       In (GetRef o rp ref, Returned (Some tip)) tr /\
       In (CreateCommit o rp "**GENERATED** Arrange Rewards by User" tree [tip],
           Returned (Some commit)) tr).

(** C9. In every run, of either variant and in every environment, a
    [createCommit] call carries the literal message
    [**GENERATED** Arrange Rewards by User] and exactly one parent, the sha
    that the run's fulfilled [getRef] returned; there is at most one such
    call; and a run that completes, moving the branch, moves it to the sha
    returned by that call. *)
Theorem commit_has_fixed_message_and_one_parent :
  forall (W : Type) (h : handler W) parse parse2 w,
    commit_is_fixed (trace_of (Single.run h parse w)) /\
    commit_is_fixed (trace_of (Dual.run h parse2 w)).
Proof.
  intros W h parse parse2 w.
  assert (G : forall (U : Type) (arrange : QueryResult -> completion U) stringify,
             commit_is_fixed (trace_of (run_with h arrange stringify w))).
  { intros U arrange stringify. split; [|split].
    - intros o rp msg tree parents x Hin.
      now destruct (run_with_commit h arrange stringify w o rp msg tree parents x Hin).
    - apply run_with_calls_once.
    - intros o rp ref commit Hin.
      destruct (run_with_updateRef h arrange stringify w o rp ref commit _ Hin)
        as (tip & content & blob & tree & Hg & _ & _ & Hc).
      now exists tip, tree. }
  split; apply G.
Qed.

Lemma commit_has_fixed_message_and_one_parent_witness :
  exists tip tree,
    In (GetRef "AuxoDAO" "auxo-rewards" "heads/main", Returned (Some tip))
       (trace_of (Single.run (Env.github Env.no_reject []) Env.JSON_parse
                    Env.repository)) /\
    In (CreateCommit "AuxoDAO" "auxo-rewards"
          "**GENERATED** Arrange Rewards by User" tree [tip],
        Returned (Some "c0ffee"))
       (trace_of (Single.run (Env.github Env.no_reject []) Env.JSON_parse
                    Env.repository)).
Proof.
  apply (proj2 (proj2 (proj1 (commit_has_fixed_message_and_one_parent Env.World
           (Env.github Env.no_reject []) Env.JSON_parse Env.JSON_parse_dual
           Env.repository)))).
  simpl. auto 20.
Defined.

(** * Further properties of the code *)

(** ** Keys of an object after a store *)
Section KeysFacts.
Context {V : Type}.
Implicit Types (o : Js.Obj V) (k : string) (v : V).

Lemma js_keys_define_present k v o :
  Js.has_own k o = true -> Js.keys (Js.define k v o) = Js.keys o.
Proof. intros H. unfold Js.define. rewrite H. apply Js.keys_update. Qed.

(** A new key that is no array index goes after the keys there are. *)
Lemma js_keys_define_appended k v o :
  Js.has_own k o = false -> Js.array_index k = None ->
  Js.keys (Js.define k v o) = Js.keys o ++ [k].
Proof.
  intros H Hi. unfold Js.define. rewrite H, Hi. unfold Js.keys.
  now rewrite map_app.
Qed.

Lemma js_NoDup_insert (A : Type) (a : A) (l1 l2 : list A) :
  NoDup (l1 ++ l2) -> ~ In a (l1 ++ l2) -> NoDup (l1 ++ a :: l2).
Proof.
  induction l1 as [|b l1 IH]; simpl; intros Hnd Hnotin.
  - now constructor.
  - inversion Hnd as [|? ? Hb Hnd']; subst. constructor.
    + rewrite in_app_iff in *. simpl. intros [H|[H|H]].
      * apply Hb. now left.
      * apply Hnotin. now left.
      * apply Hb. now right.
    + apply IH; [exact Hnd'|]. intros H. apply Hnotin. now right.
Qed.

(** A store keeps the keys of an object distinct. *)
Lemma js_keys_define_NoDup k v o :
  NoDup (Js.keys o) -> NoDup (Js.keys (Js.define k v o)).
Proof.
  intros Hnd. destruct (Js.has_own k o) eqn:H.
  - now rewrite js_keys_define_present.
  - destruct (Js.define_fresh_split k v o H) as (o1 & o2 & E & ->).
    assert (Hk : ~ In k (Js.keys o)).
    { intros Hin. apply Js.has_own_true in Hin. congruence. }
    unfold Js.keys in *. rewrite E in Hnd, Hk. rewrite map_app in *. simpl.
    now apply js_NoDup_insert.
Qed.

Lemma js_keys_set_NoDup k v o :
  NoDup (Js.keys o) -> NoDup (Js.keys (Js.set k v o)).
Proof.
  intros Hnd. unfold Js.set. destruct (String.eqb k "__proto__"); [exact Hnd|].
  now apply js_keys_define_NoDup.
Qed.

Lemma js_has_own_existsb k o :
  Js.has_own k o = existsb (String.eqb k) (Js.keys o).
Proof.
  destruct (existsb (String.eqb k) (Js.keys o)) eqn:E.
  - apply Js.has_own_true. apply existsb_exists in E.
    destruct E as (k' & Hin & Hk). apply String.eqb_eq in Hk. now subst.
  - destruct (Js.has_own k o) eqn:H; [|reflexivity].
    apply Js.has_own_true in H.
    assert (X : existsb (String.eqb k) (Js.keys o) = true).
    { apply existsb_exists. exists k. split; [exact H | apply String.eqb_refl]. }
    congruence.
Qed.

End KeysFacts.

(** ** The order of the recipients in the output *)

(** The names in the order in which they are first met, after those seen. *)
Definition first_seen (seen names : list string) : list string :=
  fold_left
    (fun acc k => if existsb (String.eqb k) acc then acc else acc ++ [k])
    names seen.

(** A recipient key under which the loop creates an own property that goes
    last: it names no inherited property and is no array index. *)
Definition appended_key (k : string) : Prop :=
  Js.plain k /\ Js.array_index k = None.

Section KeyOrder.

Lemma nested_keys_assign_order {V : Type} date user (claim : V) out :
  appended_key user ->
  Js.keys (nested_assign date user claim out) =
  if existsb (String.eqb user) (Js.keys out)
  then Js.keys out else Js.keys out ++ [user].
Proof.
  intros [Hp Hi]. rewrite <- js_has_own_existsb.
  destruct (nested_assign_cases date user claim out)
    as [(slot & E & ->) | [(E & I & _) | (E & I & ->)]].
  - rewrite Js.keys_update. unfold Js.has_own. now rewrite E.
  - unfold Js.plain in Hp. congruence.
  - rewrite Js.keys_update.
    assert (H : Js.has_own user out = false)
      by (unfold Js.has_own; now rewrite E).
    rewrite H. now apply js_keys_define_appended.
Qed.

Lemma nested_fold_keys_order {V : Type} (l : list (string * string * V)) out :
  (forall t, In t l -> appended_key (snd (fst t))) ->
  Js.keys (fold_left nested_step l out) =
  first_seen (Js.keys out) (map (fun t => snd (fst t)) l).
Proof.
  revert out. induction l as [|[[d u] c] l IH]; intros out H; simpl.
  - reflexivity.
  - rewrite IH by (intros t Ht; apply H; now right).
    unfold first_seen, nested_step. simpl.
    rewrite nested_keys_assign_order by (apply (H (d, u, c)); now left).
    reflexivity.
Qed.

Lemma dual_keys_assign_order date token user recipient out :
  appended_key user ->
  Js.keys (Dual.assign date token user recipient out) =
  if existsb (String.eqb user) (Js.keys out)
  then Js.keys out else Js.keys out ++ [user].
Proof.
  intros [Hp Hi]. rewrite <- js_has_own_existsb.
  destruct (dual_assign_cases date token user recipient out)
    as [(slot & E & ->) | [(E & I & _) | (E & I & ->)]].
  - rewrite Js.keys_update. unfold Js.has_own. now rewrite E.
  - unfold Js.plain in Hp. congruence.
  - rewrite Js.keys_update.
    assert (H : Js.has_own user out = false)
      by (unfold Js.has_own; now rewrite E).
    rewrite H. now apply js_keys_define_appended.
Qed.

Lemma dual_fold_keys_order (l : list (string * string * string * Dual.Recipient)) out :
  (forall t, In t l -> appended_key (snd (fst t))) ->
  Js.keys (fold_left dual_step l out) =
  first_seen (Js.keys out) (map (fun t => snd (fst t)) l).
Proof.
  revert out. induction l as [|[[[d tk] u] r] l IH]; intros out H; simpl.
  - reflexivity.
  - rewrite IH by (intros t Ht; apply H; now right).
    unfold first_seen, dual_step. simpl.
    rewrite dual_keys_assign_order by (apply (H (d, tk, u, r)); now left).
    reflexivity.
Qed.

End KeyOrder.

(** X5. When no recipient key names an inherited property or is an array
    index, the keys of the output are the recipients in the order in which
    the loops first meet them: months in the order of the index, within a
    month (and, in the dual-schema variant, within a token) the recipients in
    the order of the file. *)
Theorem reshape_lists_recipients_as_first_met :
  (forall m : Single.MerkleTreesByMonth,
     (forall t, In t (Single.granted m) -> appended_key (snd (fst t))) ->
     Js.keys (Single.merkleTreesByUser m) =
     first_seen [] (map (fun t => snd (fst t)) (Single.granted m))) /\
  (forall m : Dual.MerkleTreesByMonth,
     (forall t, In t (Dual.granted m) -> appended_key (snd (fst t))) ->
     Js.keys (Dual.merkleTreesByUser m) =
     first_seen [] (map (fun t => snd (fst t)) (Dual.granted m))).
Proof.
  split; intros m H.
  - rewrite single_reshape_granted. now apply nested_fold_keys_order.
  - rewrite dual_reshape_granted. now apply dual_fold_keys_order.
Qed.

Lemma reshape_lists_recipients_as_first_met_witness :
  Js.keys (Single.merkleTreesByUser Example.index_reordered) = ["0xAAA"; "0xBBB"] /\
  Js.keys (Dual.merkleTreesByUser Example.dual_index_reordered) = ["0x456"; "0x123"].
Proof.
  split.
  - apply (proj1 reshape_lists_recipients_as_first_met Example.index_reordered).
    intros t H. simpl in H.
    repeat (destruct H as [H|H]; [rewrite <- H; split; reflexivity|]).
    contradiction.
  - apply (proj2 reshape_lists_recipients_as_first_met Example.dual_index_reordered).
    intros t H. simpl in H.
    repeat (destruct H as [H|H]; [rewrite <- H; split; reflexivity|]).
    contradiction.
Defined.

(** ** What the single-schema builder puts in the month index *)

(** The fetched tree holds, in the directory [date], a file named
    [merkle-tree.json] whose text parses to [merkleTree]. *)
Definition single_in_tree (parse : string -> parsed Single.MerkleTree)
    (merkleTrees : QueryResult) (date : string) (merkleTree : Single.MerkleTree)
    : Prop :=
  exists entry els el,
    In entry merkleTrees /\ entry_name entry = date /\
    entry_entries entry = Some els /\ In el els /\
    file_name el = "merkle-tree.json" /\ parse (text el) = Parsed merkleTree.

(** Names are unique within a directory, as in a tree of the repository. *)
Definition unique_names (merkleTrees : QueryResult) : Prop :=
  NoDup (map entry_name merkleTrees) /\
  forall entry els, In entry merkleTrees -> entry_entries entry = Some els ->
    NoDup (map file_name els).

Section SingleBuilderIndex.
Variable parse : string -> parsed Single.MerkleTree.

Lemma single_visit_files_frame date els byMonth byMonth' k :
  Single.visit_files parse date els byMonth = Normal byMonth' ->
  k <> date -> Js.get_own k byMonth' = Js.get_own k byMonth.
Proof.
  revert byMonth. induction els as [|el els IH]; intros byMonth; simpl.
  - now intros [= <-].
  - destruct (String.eqb (file_name el) "merkle-tree.json"); [|apply IH].
    destruct (parse (text el)) as [mt|]; [|discriminate].
    intros H Hk. rewrite (IH _ H Hk). now apply Js.get_own_set_other.
Qed.

Lemma single_visit_files_NoDup date els byMonth byMonth' :
  Single.visit_files parse date els byMonth = Normal byMonth' ->
  NoDup (Js.keys byMonth) -> NoDup (Js.keys byMonth').
Proof.
  revert byMonth. induction els as [|el els IH]; intros byMonth; simpl.
  - now intros [= <-].
  - destruct (String.eqb (file_name el) "merkle-tree.json"); [|apply IH].
    destruct (parse (text el)) as [mt|]; [|discriminate].
    intros H Hnd. apply (IH _ H). now apply js_keys_set_NoDup.
Qed.

Lemma single_visit_files_sound date els byMonth byMonth' merkleTree :
  Single.visit_files parse date els byMonth = Normal byMonth' ->
  Js.get_own date byMonth' = Some merkleTree ->
  Js.get_own date byMonth = Some merkleTree \/
  (date <> "__proto__" /\
   exists el, In el els /\ file_name el = "merkle-tree.json" /\
              parse (text el) = Parsed merkleTree).
Proof.
  revert byMonth. induction els as [|el els IH]; intros byMonth; simpl.
  - intros [= <-]. now left.
  - destruct (String.eqb_spec (file_name el) "merkle-tree.json") as [En|_].
    + destruct (parse (text el)) as [mt|] eqn:Ep; [|discriminate].
      intros H G. destruct (IH _ H G) as [G'|(Hd & el' & Hin & Hn & Hp)].
      * unfold Js.set in G'.
        destruct (String.eqb_spec date "__proto__") as [->|Hd]; [now left|].
        rewrite Js.get_own_define_same in G'. injection G' as <-.
        right. split; [exact Hd|]. exists el. auto.
      * right. split; [exact Hd|]. exists el'. auto.
    + intros H G. destruct (IH _ H G) as [G'|(Hd & el' & Hin & Hn & Hp)].
      * now left.
      * right. split; [exact Hd|]. exists el'. auto.
Qed.

Lemma single_visit_files_complete date els byMonth byMonth' el :
  NoDup (map file_name els) ->
  Single.visit_files parse date els byMonth = Normal byMonth' ->
  date <> "__proto__" -> In el els -> file_name el = "merkle-tree.json" ->
  exists merkleTree,
    parse (text el) = Parsed merkleTree /\
    Js.get_own date byMonth' = Some merkleTree.
Proof.
  revert byMonth. induction els as [|el0 els IH]; intros byMonth Hnd; simpl.
  - intros _ _ [].
  - inversion Hnd as [|? ? Hnotin Hnd']; subst.
    intros H Hd [->|Hin] Hn.
    + rewrite Hn in H. simpl in H.
      destruct (parse (text el)) as [mt|] eqn:Ep; [|discriminate].
      exists mt. split; [reflexivity|].
      rewrite single_visit_files_unrecognized in H.
      * injection H as <-. now apply Js.get_own_set_same.
      * intros el' Hin' Hn'. apply Hnotin. rewrite Hn, <- Hn'.
        now apply in_map.
    + destruct (String.eqb_spec (file_name el0) "merkle-tree.json") as [En|_].
      * exfalso. apply Hnotin. rewrite En, <- Hn. now apply in_map.
      * now apply (IH byMonth).
Qed.

Lemma single_visit_entries_frame entries byMonth byMonth' date :
  Single.visit_entries parse entries byMonth = Normal byMonth' ->
  ~ In date (map entry_name entries) ->
  Js.get_own date byMonth' = Js.get_own date byMonth.
Proof.
  revert byMonth. induction entries as [|e es IH]; intros byMonth; simpl.
  - now intros [= <-].
  - destruct (entry_entries e) as [els|]; [|discriminate].
    destruct (Single.visit_files parse (entry_name e) els byMonth) as [b|] eqn:E;
      [|discriminate].
    intros H Hnotin. rewrite (IH _ H) by (intros X; apply Hnotin; now right).
    apply (single_visit_files_frame _ _ _ _ _ E).
    intros X. apply Hnotin. now left.
Qed.

Lemma single_visit_entries_NoDup entries byMonth byMonth' :
  Single.visit_entries parse entries byMonth = Normal byMonth' ->
  NoDup (Js.keys byMonth) -> NoDup (Js.keys byMonth').
Proof.
  revert byMonth. induction entries as [|e es IH]; intros byMonth; simpl.
  - now intros [= <-].
  - destruct (entry_entries e) as [els|]; [|discriminate].
    destruct (Single.visit_files parse (entry_name e) els byMonth) as [b|] eqn:E;
      [|discriminate].
    intros H Hnd. apply (IH _ H). now apply (single_visit_files_NoDup _ _ _ _ E).
Qed.

Lemma single_visit_entries_sound entries byMonth byMonth' date merkleTree :
  Single.visit_entries parse entries byMonth = Normal byMonth' ->
  Js.get_own date byMonth' = Some merkleTree ->
  Js.get_own date byMonth = Some merkleTree \/
  (date <> "__proto__" /\ single_in_tree parse entries date merkleTree).
Proof.
  revert byMonth. induction entries as [|e es IH]; intros byMonth; simpl.
  - intros [= <-]. now left.
  - destruct (entry_entries e) as [els|] eqn:Ee; [|discriminate].
    destruct (Single.visit_files parse (entry_name e) els byMonth) as [b|] eqn:E;
      [|discriminate].
    intros H G.
    destruct (IH _ H G) as [G'|(Hd & e' & els' & el & Hin & Hn & He & Hel & Hf & Hp)].
    + destruct (String.eqb_spec date (entry_name e)) as [->|Hne].
      * destruct (single_visit_files_sound _ _ _ _ _ E G')
          as [G0|(Hd & el & Hel & Hf & Hp)]; [now left|].
        right. split; [exact Hd|]. exists e, els, el. simpl. auto 8.
      * left. now rewrite <- (single_visit_files_frame _ _ _ _ _ E Hne).
    + right. split; [exact Hd|]. exists e', els', el. simpl. auto 8.
Qed.

Lemma single_visit_entries_complete entries byMonth byMonth' entry els el :
  unique_names entries ->
  Single.visit_entries parse entries byMonth = Normal byMonth' ->
  In entry entries -> entry_entries entry = Some els -> In el els ->
  file_name el = "merkle-tree.json" -> entry_name entry <> "__proto__" ->
  exists merkleTree,
    parse (text el) = Parsed merkleTree /\
    Js.get_own (entry_name entry) byMonth' = Some merkleTree.
Proof.
  revert byMonth. induction entries as [|e es IH]; intros byMonth [Hnd Hfiles]; simpl.
  - intros _ [].
  - simpl in Hnd. inversion Hnd as [|? ? Hnotin Hnd']; subst.
    destruct (entry_entries e) as [els0|] eqn:Ee; [|discriminate].
    destruct (Single.visit_files parse (entry_name e) els0 byMonth) as [b|] eqn:E;
      [|discriminate].
    intros H [->|Hin] He Hel Hf Hd.
    + rewrite Ee in He. injection He as ->.
      destruct (single_visit_files_complete _ _ _ _ el
                  (Hfiles entry els (or_introl eq_refl) Ee) E Hd Hel Hf)
        as (mt & Hp & G).
      exists mt. split; [exact Hp|].
      now rewrite (single_visit_entries_frame _ _ _ _ H Hnotin).
    + apply (IH b); auto. split; [exact Hnd'|].
      intros e' els' Hin'. apply Hfiles. now right.
Qed.

End SingleBuilderIndex.

(** X2. When the single-schema builder completes, every month of its index
    is the name, other than [__proto__], of a fetched directory that holds a
    file named [merkle-tree.json], and the month's reward file is the parse
    of such a file's text.  In a tree with unique names the converse holds:
    every directory, not named [__proto__], that holds a file named
    [merkle-tree.json] is a month of the index, with the parse of that
    file. *)
Theorem single_builder_indexes_reward_files :
  forall parse merkleTrees byMonth,
    Single.merkleTreesByMonth parse merkleTrees = Normal byMonth ->
    (forall date merkleTree,
       Js.get_own date byMonth = Some merkleTree ->
       date <> "__proto__" /\ single_in_tree parse merkleTrees date merkleTree) /\
    (unique_names merkleTrees ->
     forall entry els el,
       In entry merkleTrees -> entry_entries entry = Some els -> In el els ->
       file_name el = "merkle-tree.json" -> entry_name entry <> "__proto__" ->
       exists merkleTree,
         parse (text el) = Parsed merkleTree /\
         Js.get_own (entry_name entry) byMonth = Some merkleTree).
Proof.
  intros parse merkleTrees byMonth H. unfold Single.merkleTreesByMonth in H. split.
  - intros date merkleTree G.
    destruct (single_visit_entries_sound parse _ _ _ _ _ H G) as [G0|R];
      [discriminate G0 | exact R].
  - intros Hu entry els el. now apply (single_visit_entries_complete parse _ []).
Qed.

Lemma single_builder_indexes_reward_files_witness :
  exists merkleTree,
    Env.JSON_parse "{}" = Parsed merkleTree /\
    Js.get_own "2021-01"
      [("2021-01", Example.tree [("0xAAA", Example.claim_100)])] = Some merkleTree.
Proof.
  apply (proj2 (single_builder_indexes_reward_files Env.JSON_parse
                  [ Env.directory "2021-01"
                      [ Env.file "README.md"; Env.file "merkle-tree.json" ];
                    Env.directory "notes" [ Env.file "todo.txt" ] ]
                  [("2021-01", Example.tree [("0xAAA", Example.claim_100)])]
                  eq_refl)
           ltac:(split;
                 [ repeat constructor; simpl; intuition discriminate
                 | intros entry els H He; simpl in H;
                   repeat (destruct H as [H|H];
                           [rewrite <- H in He; injection He as <-;
                            repeat constructor; simpl; intuition discriminate|]);
                   contradiction ])
           (Env.directory "2021-01"
              [ Env.file "README.md"; Env.file "merkle-tree.json" ])
           [ Env.file "README.md"; Env.file "merkle-tree.json" ]
           (Env.file "merkle-tree.json")).
  - simpl. auto.
  - reflexivity.
  - simpl. auto.
  - reflexivity.
  - discriminate.
Defined.

(** ** From the fetched tree to the user index *)

(** Every document the parser returns has distinct recipient keys, none of
    which names an inherited property. *)
Definition single_clean (parse : string -> parsed Single.MerkleTree) : Prop :=
  forall text merkleTree, parse text = Parsed merkleTree ->
    NoDup (Js.keys (Single.claims merkleTree)) /\
    forall user claim, In (user, claim) (Single.claims merkleTree) -> Js.plain user.

Lemma single_builder_well_formed parse merkleTrees byMonth :
  single_clean parse ->
  Single.merkleTreesByMonth parse merkleTrees = Normal byMonth ->
  Single.well_formed byMonth.
Proof.
  intros Hclean H.
  assert (Hnd : NoDup (Js.keys byMonth)).
  { apply (single_visit_entries_NoDup parse _ _ _ H). constructor. }
  split; [exact Hnd|].
  intros date mt Hin. apply (Js.In_get_own _ _ _ Hnd) in Hin.
  destruct (single_visit_entries_sound parse _ _ _ _ _ H Hin)
    as [G0|(Hd & e & els & el & _ & _ & _ & _ & _ & Hp)]; [discriminate G0|].
  split; [exact Hd|]. exact (Hclean _ _ Hp).
Qed.

(** X3. The builder followed by the reshape, on a fetched tree with unique
    names and a parser whose documents have distinct recipient keys that name
    no inherited property: when the two complete, the user index holds a
    claim at [user][date] exactly when the directory [date], not named
    [__proto__], holds a file named [merkle-tree.json] whose parsed claims
    give that claim to [user]. *)
Theorem single_arrange_pivots_the_fetched_tree :
  forall parse merkleTrees merkleTreesByUser,
    single_clean parse -> unique_names merkleTrees ->
    Single.arrange parse merkleTrees = Normal merkleTreesByUser ->
    forall user date claim,
      Single.at_path merkleTreesByUser user date = Some claim <->
      date <> "__proto__" /\
      exists merkleTree,
        single_in_tree parse merkleTrees date merkleTree /\
        In (user, claim) (Single.claims merkleTree).
Proof.
  intros parse merkleTrees u Hclean Hu H user date claim.
  unfold Single.arrange in H.
  destruct (Single.merkleTreesByMonth parse merkleTrees) as [byMonth|] eqn:E;
    [|discriminate].
  injection H as <-.
  pose proof (single_builder_well_formed _ _ _ Hclean E) as Hwf.
  split.
  - intros Hat. apply single_reshape_sound in Hat. destruct Hat as (mt & Hin & Hcl).
    apply (Js.In_get_own _ _ _ (proj1 Hwf)) in Hin.
    destruct (single_visit_entries_sound parse _ _ _ _ _ E Hin) as [G0|[Hd Ht]];
      [discriminate G0|].
    split; [exact Hd|]. now exists mt.
  - intros (Hd & mt & (e & els & el & Hin & <- & He & Hel & Hf & Hp) & Hcl).
    destruct (single_visit_entries_complete parse _ [] _ e els el Hu E Hin He Hel Hf Hd)
      as (mt' & Hp' & G).
    rewrite Hp in Hp'. injection Hp' as <-.
    apply Js.get_own_In in G.
    now apply (single_reshape_complete byMonth (entry_name e) mt).
Qed.

Lemma single_arrange_pivots_the_fetched_tree_witness :
  Single.at_path
    [("0xAAA", [("2021-01", Example.claim_100); ("2021-02", Example.claim_100)])]
    "0xAAA" "2021-02" = Some Example.claim_100 <->
  "2021-02" <> "__proto__" /\
  exists merkleTree,
    single_in_tree Env.JSON_parse
      [ Env.directory "2021-01" [ Env.file "merkle-tree.json" ];
        Env.directory "2021-02" [ Env.file "merkle-tree.json"; Env.file "x" ] ]
      "2021-02" merkleTree /\
    In ("0xAAA", Example.claim_100) (Single.claims merkleTree).
Proof.
  apply (single_arrange_pivots_the_fetched_tree Env.JSON_parse
           [ Env.directory "2021-01" [ Env.file "merkle-tree.json" ];
             Env.directory "2021-02" [ Env.file "merkle-tree.json"; Env.file "x" ] ]).
  - intros text mt. unfold Env.JSON_parse.
    destruct (String.eqb text ""); [discriminate|]. intros [= <-]. split.
    + repeat constructor. simpl. intuition.
    + intros user claim H. simpl in H. destruct H as [H|[]].
      injection H as <- _. reflexivity.
  - split.
    + repeat constructor; simpl; intuition discriminate.
    + intros entry els H He. simpl in H.
      repeat (destruct H as [H|H];
              [rewrite <- H in He; injection He as <-;
               repeat constructor; simpl; intuition discriminate|]).
      contradiction.
  - reflexivity.
Defined.

(** ** More on the sequence of calls of a run *)

(** The calls to the GitHub client. *)
Definition is_github (c : call) : bool :=
  match c with
  | Graphql _ _ _ | GetRef _ _ _ | CreateBlob _ _ _ _ | CreateTree _ _ _ _
  | CreateCommit _ _ _ _ _ | UpdateRef _ _ _ _ => true
  | _ => false
  end.

(** The events of a trace after its first rejected call. *)
Fixpoint after_first_rejection (tr : list event) : list event :=
  match tr with
  | [] => []
  | (_, Rejected _) :: rest => rest
  | (_, Returned _) :: rest => after_first_rejection rest
  end.

(** Where each call takes its arguments from: the inputs read, and the
    responses of the calls before it. *)
Definition arguments_from (tr : list event) (c : call) : Prop :=
  match c with
  | GetInput name =>
      name = "owner" \/ name = "repo" \/ name = "token" \/ name = "branch"
  | GetOctokit token => In (GetInput "token", Returned (Some token)) tr
  | Graphql expression owner repo =>
      expression = "HEAD:reports" /\
      In (GetInput "owner", Returned (Some owner)) tr /\
      In (GetInput "repo", Returned (Some repo)) tr /\
      exists token, In (GetOctokit token, Returned None) tr
  | GetRef owner repo ref =>
      In (GetInput "owner", Returned (Some owner)) tr /\
      In (GetInput "repo", Returned (Some repo)) tr /\
      exists branch,
        In (GetInput "branch", Returned (Some branch)) tr /\
        ref = ("heads/" ++ branch)%string
  | CreateBlob owner repo _ encoding =>
      In (GetInput "owner", Returned (Some owner)) tr /\
      In (GetInput "repo", Returned (Some repo)) tr /\
      encoding = "utf-8" /\
      exists ref tip, In (GetRef owner repo ref, Returned (Some tip)) tr
  | CreateTree owner repo tree base_tree =>
      In (GetInput "owner", Returned (Some owner)) tr /\
      In (GetInput "repo", Returned (Some repo)) tr /\
      (exists ref, In (GetRef owner repo ref, Returned (Some base_tree)) tr) /\
      exists content blob,
        In (CreateBlob owner repo content "utf-8", Returned (Some blob)) tr /\
        tree = [ {| path := "reports/merkle-trees-by-user.json";
                    mode := "100644"; item_type := "blob"; sha := blob |} ]
  | CreateCommit owner repo _ tree _ =>
      In (GetInput "owner", Returned (Some owner)) tr /\
      In (GetInput "repo", Returned (Some repo)) tr /\
      exists items base,
        In (CreateTree owner repo items base, Returned (Some tree)) tr
  | UpdateRef owner repo ref commit =>
      In (GetInput "owner", Returned (Some owner)) tr /\
      In (GetInput "repo", Returned (Some repo)) tr /\
      exists branch,
        In (GetInput "branch", Returned (Some branch)) tr /\
        ref = ("heads/" ++ branch)%string /\
        exists tip, In (GetRef owner repo ref, Returned (Some tip)) tr
  | SetFailed _ => True
  end.

Section MoreRunFacts.
Context {W U : Type}.
Variable h : handler W.
Variable arrange : QueryResult -> completion U.
Variable stringify : U -> string.

Lemma run_with_arguments w c x :
  In (c, x) (trace_of (run_with h arrange stringify w)) ->
  arguments_from (trace_of (run_with h arrange stringify w)) c.
Proof.
  run_cases h arrange; simpl; intros H; pick_event H;
    injection H as <- _; simpl; auto 20;
    repeat split; auto 20;
    try (eexists; split; [|reflexivity]; auto 20);
    try (eexists _, _; auto 20);
    try (eexists _, _; split; [|reflexivity]; auto 20);
    try (eexists; split; [|split; [reflexivity|eexists]]; auto 20);
    try (eexists; auto 20).
Qed.

(** The blob holds the serialization of what the lines between the query and
    [getRef] made of a tree the query returned. *)
Lemma run_with_blob w o rp content encoding x :
  In (CreateBlob o rp content encoding, x)
     (trace_of (run_with h arrange stringify w)) ->
  exists e o' rp' w0 qr w1 u,
    h (Graphql e o' rp') w0 = (Normal qr, w1) /\
    arrange qr = Normal u /\ content = stringify u.
Proof.
  run_cases h arrange; simpl; intros H; pick_event H;
    injection H as <- <- <- <- _;
    match goal with
    | E : h (Graphql _ _ _) _ = (Normal ?q, _), A : arrange ?q = Normal ?u |- _ =>
        eexists _, _, _, _, q, _, u; split; [exact E|]; split; [exact A|reflexivity]
    end.
Qed.

(** After the first rejected call a run calls nothing but, at most once,
    [setFailed]. *)
Lemma run_with_stops_at_rejection w :
  length (after_first_rejection (trace_of (run_with h arrange stringify w))) <= 1 /\
  forall c x,
    In (c, x) (after_first_rejection (trace_of (run_with h arrange stringify w))) ->
    is_setFailed c = true.
Proof.
  run_cases h arrange; simpl; (split; [lia|]); intros c x H; pick_event H;
    injection H as <- _; reflexivity.
Qed.

(** [setFailed] is called at most once, as the last call; the run completes
    abruptly only when [setFailed] itself throws. *)
Lemma run_with_setFailed_last w :
  calls is_setFailed (trace_of (run_with h arrange stringify w)) <= 1 /\
  (forall msg x,
     In (SetFailed msg, x) (trace_of (run_with h arrange stringify w)) ->
     last (trace_of (run_with h arrange stringify w)) (SetFailed msg, x) =
     (SetFailed msg, x)) /\
  (forall t,
     result_of (run_with h arrange stringify w) = Throw t ->
     exists msg,
       In (SetFailed msg, Rejected t) (trace_of (run_with h arrange stringify w))).
Proof.
  run_cases h arrange; unfold calls; simpl; (split; [lia|]); split;
    try (intros msg x H; pick_event H; injection H as <- <-; reflexivity);
    try (intros t0 H; discriminate H);
    try (intros t0 H; injection H as <-; eexists; auto 20);
    try (intros msg x H; pick_event H).
Qed.

(** A run that moved the branch made its eleven calls, none of them rejected,
    reported no failure and completed normally. *)
Lemma run_with_success w o rp ref commit :
  In (UpdateRef o rp ref commit, Returned None)
     (trace_of (run_with h arrange stringify w)) ->
  length (trace_of (run_with h arrange stringify w)) = 11 /\
  result_of (run_with h arrange stringify w) = Normal tt /\
  (forall c t, ~ In (c, Rejected t) (trace_of (run_with h arrange stringify w))) /\
  (forall c x, In (c, x) (trace_of (run_with h arrange stringify w)) ->
     is_setFailed c = false).
Proof.
  run_cases h arrange; simpl; intros H; pick_event H;
    (split; [reflexivity|]);
    (split; [match goal with |- Normal ?r = _ => destruct r end; reflexivity|]);
    split.
  - intros c t0 Hc. pick_event Hc.
  - intros c x Hc. pick_event Hc; injection Hc as <- _; reflexivity.
Qed.

(** When the lines between the query and [getRef] throw the error object
    [err] on every tree the query returns, the run makes no publish call and,
    once the query is answered, ends in [setFailed] with the message of
    [err]. *)
Lemma run_with_reports_arrange_error w err :
  (forall e o rp w0 qr w1,
     h (Graphql e o rp) w0 = (Normal qr, w1) ->
     arrange qr = Throw (ErrorObject err)) ->
  (forall c x, In (c, x) (trace_of (run_with h arrange stringify w)) ->
     is_publish c = false) /\
  (forall e o rp,
     In (Graphql e o rp, Returned None) (trace_of (run_with h arrange stringify w)) ->
     exists pre x,
       trace_of (run_with h arrange stringify w) =
       pre ++ [(SetFailed (message err), x)]).
Proof.
  intros Hq.
  run_cases h arrange;
    try match goal with
      | A : arrange ?q = _, E : h (Graphql _ _ _) _ = (Normal ?q, _) |- _ =>
          rewrite (Hq _ _ _ _ _ _ E) in A; try discriminate A;
          try (injection A as <-)
      end;
    (split;
     [ intros c x H; pick_event H; injection H as <- _; reflexivity
     | intros e0 o rp H; pick_event H;
       eexists (_ :: _ :: _ :: _ :: _ :: [_]), _; reflexivity ]).
Qed.

End MoreRunFacts.

(** ** More on the builders: other files and malformed files *)

(** The file names the dual-schema builder recognizes. *)
Definition dual_recognized (el : File) : bool :=
  String.eqb (file_name el) "merkle-tree-veAUXO.json" ||
  String.eqb (file_name el) "merkle-tree-xAUXO.json".

Definition dual_strip (entry : Entry) : Entry :=
  {| entry_name := entry_name entry;
     entry_type := entry_type entry;
     entry_entries := option_map (filter dual_recognized) (entry_entries entry) |}.

Section BuilderFiles.
Variable parse : string -> parsed Single.MerkleTree.
Variable parse2 : string -> parsed Dual.MerkleTree.

Lemma dual_visit_file_unrecognized date el st :
  dual_recognized el = false ->
  Dual.visit_token parse2 "merkle-tree-veAUXO.json" "veAUXO" date el st = Normal st /\
  Dual.visit_token parse2 "merkle-tree-xAUXO.json" "xAUXO" date el st = Normal st.
Proof.
  unfold dual_recognized, Dual.visit_token. intros H.
  apply orb_false_iff in H. destruct H as [-> ->]. now split.
Qed.

Lemma dual_visit_files_strip date els st :
  Dual.visit_files parse2 date els st =
  Dual.visit_files parse2 date (filter dual_recognized els) st.
Proof.
  revert st. induction els as [|el els IH]; intros st; simpl; [reflexivity|].
  destruct (dual_recognized el) eqn:E; simpl.
  - destruct (Dual.visit_token parse2 "merkle-tree-veAUXO.json" "veAUXO" date el st)
      as [st1|]; [|reflexivity].
    destruct (Dual.visit_token parse2 "merkle-tree-xAUXO.json" "xAUXO" date el st1);
      [apply IH | reflexivity].
  - destruct (dual_visit_file_unrecognized date el st E) as [-> ->]. apply IH.
Qed.

Lemma dual_visit_files_unrecognized date els st :
  (forall el, In el els -> dual_recognized el = false) ->
  Dual.visit_files parse2 date els st = Normal st.
Proof.
  revert st. induction els as [|el els IH]; intros st H; simpl; [reflexivity|].
  destruct (dual_visit_file_unrecognized date el st (H el (or_introl eq_refl)))
    as [-> ->].
  apply IH. intros el' Hin. apply H. now right.
Qed.

Lemma dual_visit_entries_strip entries st :
  Dual.visit_entries parse2 entries st =
  Dual.visit_entries parse2 (map dual_strip entries) st.
Proof.
  revert st. induction entries as [|e es IH]; intros st; simpl; [reflexivity|].
  destruct (entry_entries e) as [els|]; simpl; [|reflexivity].
  rewrite <- dual_visit_files_strip.
  destruct (Dual.visit_files parse2 (entry_name e) els st); [apply IH | reflexivity].
Qed.

(** The first recognized file of a directory does not parse. *)
Lemma single_visit_files_malformed date before el rest byMonth msg :
  (forall x, In x before -> file_name x <> "merkle-tree.json") ->
  file_name el = "merkle-tree.json" -> parse (text el) = Malformed msg ->
  Single.visit_files parse date (before ++ el :: rest) byMonth =
  Throw (SyntaxError msg).
Proof.
  intros Hb Hn Hp. induction before as [|x before IH]; simpl.
  - rewrite Hn. simpl. now rewrite Hp.
  - destruct (String.eqb_spec (file_name x) "merkle-tree.json") as [E|_].
    + exfalso. apply (Hb x); [now left | exact E].
    + apply IH. intros y Hy. apply Hb. now right.
Qed.

Lemma dual_visit_files_malformed date before el rest st msg :
  (forall x, In x before -> dual_recognized x = false) ->
  dual_recognized el = true -> parse2 (text el) = Malformed msg ->
  Dual.visit_files parse2 date (before ++ el :: rest) st = Throw (SyntaxError msg).
Proof.
  intros Hb Hn Hp. induction before as [|x before IH]; simpl.
  - unfold Dual.visit_token.
    destruct (String.eqb (file_name el) "merkle-tree-veAUXO.json") eqn:E1.
    + now rewrite Hp.
    + unfold dual_recognized in Hn. rewrite E1 in Hn. simpl in Hn.
      rewrite Hn. now rewrite Hp.
  - destruct (dual_visit_file_unrecognized date x st (Hb x (or_introl eq_refl)))
      as [-> ->].
    apply IH. intros y Hy. apply Hb. now right.
Qed.

End BuilderFiles.

(** X6. In the dual-schema variant the files whose name is neither
    [merkle-tree-veAUXO.json] nor [merkle-tree-xAUXO.json] have no part in
    the result of the builder: it gives the same result on the fetched tree
    and on the tree without them, and a directory that holds only such files
    can be left out of the tree without changing the result. *)
Theorem dual_builder_ignores_unrecognized :
  (forall parse2 merkleTrees,
     Dual.merkleTreesByMonth parse2 merkleTrees =
     Dual.merkleTreesByMonth parse2 (map dual_strip merkleTrees)) /\
  (forall parse2 pre entry els post,
     entry_entries entry = Some els ->
     (forall el, In el els -> dual_recognized el = false) ->
     Dual.merkleTreesByMonth parse2 (pre ++ entry :: post) =
     Dual.merkleTreesByMonth parse2 (pre ++ post)).
Proof.
  split.
  - intros parse2 merkleTrees. unfold Dual.merkleTreesByMonth.
    now rewrite <- dual_visit_entries_strip.
  - intros parse2 pre entry els post He Hels. unfold Dual.merkleTreesByMonth.
    rewrite !dual_visit_entries_app.
    destruct (Dual.visit_entries parse2 pre _) as [st|t]; [|reflexivity].
    simpl. rewrite He. now rewrite dual_visit_files_unrecognized.
Qed.

Lemma dual_builder_ignores_unrecognized_witness :
  Dual.merkleTreesByMonth Env.JSON_parse_dual
    ([] ++ Env.directory "2021-01" [ Env.file "merkle-tree.json"; Env.file "README.md" ]
        :: [ Env.plain_file "LICENSE" ]) =
  Dual.merkleTreesByMonth Env.JSON_parse_dual ([] ++ [ Env.plain_file "LICENSE" ]).
Proof.
  apply (proj2 dual_builder_ignores_unrecognized Env.JSON_parse_dual []
           (Env.directory "2021-01" [ Env.file "merkle-tree.json"; Env.file "README.md" ])
           [ Env.file "merkle-tree.json"; Env.file "README.md" ]).
  - reflexivity.
  - intros el H. simpl in H.
    repeat (destruct H as [H|H]; [rewrite <- H; reflexivity|]). contradiction.
Defined.

(** X7. A directory whose first recognized file holds text that does not
    parse makes the builder of either variant throw the parser's SyntaxError,
    with the parser's message, when the directories before it were visited
    without error; the dual-schema builder parses before it stores, so this
    is the error it throws on such a file. *)
Theorem malformed_reward_file_throws_SyntaxError :
  (forall parse pre entry before el rest post byMonth msg,
     Single.merkleTreesByMonth parse pre = Normal byMonth ->
     entry_entries entry = Some (before ++ el :: rest) ->
     (forall x, In x before -> file_name x <> "merkle-tree.json") ->
     file_name el = "merkle-tree.json" -> parse (text el) = Malformed msg ->
     Single.merkleTreesByMonth parse (pre ++ entry :: post) = Throw (SyntaxError msg)) /\
  (forall parse2 pre entry before el rest post byMonth msg,
     Dual.merkleTreesByMonth parse2 pre = Normal byMonth ->
     entry_entries entry = Some (before ++ el :: rest) ->
     (forall x, In x before -> dual_recognized x = false) ->
     dual_recognized el = true -> parse2 (text el) = Malformed msg ->
     Dual.merkleTreesByMonth parse2 (pre ++ entry :: post) = Throw (SyntaxError msg)).
Proof.
  split.
  - intros parse pre entry before el rest post byMonth msg Hpre He Hb Hn Hp.
    unfold Single.merkleTreesByMonth in *.
    rewrite single_visit_entries_app, Hpre. simpl. rewrite He.
    now rewrite (single_visit_files_malformed parse _ before el rest _ msg).
  - intros parse2 pre entry before el rest post byMonth msg Hpre He Hb Hn Hp.
    unfold Dual.merkleTreesByMonth in *.
    rewrite dual_visit_entries_app.
    destruct (Dual.visit_entries parse2 pre _) as [st|]; [|discriminate].
    simpl. rewrite He.
    now rewrite (dual_visit_files_malformed parse2 _ before el rest _ msg).
Qed.

Lemma malformed_reward_file_throws_SyntaxError_witness :
  Single.merkleTreesByMonth Env.JSON_parse
    ([ Env.directory "2021-01" [ Env.file "merkle-tree.json" ] ] ++
     Env.directory "2021-02"
       ([ Env.file "README.md" ] ++
        {| file_name := "merkle-tree.json"; text := "" |} :: [])
     :: []) =
  Throw (SyntaxError "Unexpected end of JSON input") /\
  Dual.merkleTreesByMonth Env.JSON_parse_dual
    ([] ++
     Env.directory "2021-02"
       ([ Env.file "README.md" ] ++
        {| file_name := "merkle-tree-xAUXO.json"; text := "" |} :: [])
     :: []) =
  Throw (SyntaxError "Unexpected end of JSON input").
Proof.
  split.
  - apply (proj1 malformed_reward_file_throws_SyntaxError Env.JSON_parse
             [ Env.directory "2021-01" [ Env.file "merkle-tree.json" ] ]
             (Env.directory "2021-02"
                ([ Env.file "README.md" ] ++
                 {| file_name := "merkle-tree.json"; text := "" |} :: []))
             [ Env.file "README.md" ]
             {| file_name := "merkle-tree.json"; text := "" |} [] []
             [("2021-01", Example.tree [("0xAAA", Example.claim_100)])]).
    + reflexivity.
    + reflexivity.
    + intros x H. simpl in H. destruct H as [H|[]]. rewrite <- H. discriminate.
    + reflexivity.
    + reflexivity.
  - apply (proj2 malformed_reward_file_throws_SyntaxError Env.JSON_parse_dual
             []
             (Env.directory "2021-02"
                ([ Env.file "README.md" ] ++
                 {| file_name := "merkle-tree-xAUXO.json"; text := "" |} :: []))
             [ Env.file "README.md" ]
             {| file_name := "merkle-tree-xAUXO.json"; text := "" |} [] [] []).
    + reflexivity.
    + reflexivity.
    + intros x H. simpl in H. destruct H as [H|[]]. rewrite <- H. reflexivity.
    + reflexivity.
    + reflexivity.
Defined.

(** ** The runs of the two variants *)

(** The pivot at the example indexes. *)
Lemma reshape_is_a_pivot_when_well_formed_witness :
  Single.count (Single.merkleTreesByUser Example.index) = 3 /\
  Dual.count (Dual.merkleTreesByUser Example.dual_index) = 3.
Proof.
  split.
  - apply (proj2 (proj2 (proj1 reshape_is_a_pivot_when_well_formed Example.index
                           ltac:(unfold Example.index; single_well_formed)))).
  - apply (proj2 (proj2 (proj2 reshape_is_a_pivot_when_well_formed Example.dual_index
                           ltac:(unfold Example.dual_index; dual_well_formed)))).
Defined.

Lemma dual_arrange_empty parse2 merkleTrees u :
  Dual.arrange parse2 merkleTrees = Normal u -> u = [].
Proof.
  unfold Dual.arrange, Dual.merkleTreesByMonth.
  destruct (Dual.visit_entries parse2 merkleTrees
              {| Dual.byMonth := []; Dual.polluted := [] |}) as [st|] eqn:E;
    [|discriminate].
  intros [= <-].
  rewrite (dual_visit_entries_keeps_empty parse2 merkleTrees
             {| Dual.byMonth := []; Dual.polluted := [] |} st eq_refl E).
  reflexivity.
Qed.

(** X4. Whatever tree the query returns, the only content the dual-schema
    variant ever publishes is the empty JSON object: every [createBlob] call
    of its run carries the two characters of the empty object, in utf-8. *)
Theorem dual_run_publishes_only_the_empty_object :
  forall (W : Type) (h : handler W) parse2 w owner repo content encoding x,
    In (CreateBlob owner repo content encoding, x) (trace_of (Dual.run h parse2 w)) ->
    content = "{}" /\ encoding = "utf-8".
Proof.
  intros W h parse2 w owner repo content encoding x Hin. unfold Dual.run in Hin.
  split.
  - destruct (run_with_blob h _ _ w _ _ _ _ _ Hin)
      as (e & o' & rp' & w0 & qr & w1 & u & _ & Ha & ->).
    now rewrite (dual_arrange_empty _ _ _ Ha).
  - pose proof (run_with_arguments h _ _ w _ _ Hin) as Harg. simpl in Harg.
    tauto.
Qed.

Lemma dual_run_publishes_only_the_empty_object_witness :
  Dual.JSON_stringify
    (Dual.merkleTreesByUser
       [("2021-01", [("xAUXO", Example.dual_tree [])])]) = "{}" /\
  "utf-8" = "utf-8".
Proof.
  apply (dual_run_publishes_only_the_empty_object Env.World
           (Env.github Env.no_reject
              [ Env.directory "2021-01" [ Env.file "merkle-tree.json" ] ])
           Env.JSON_parse_dual Env.repository
           "AuxoDAO" "auxo-rewards" _ "utf-8" (Returned (Some "b10b"))).
  simpl. auto 12.
Defined.

(** A run in which no error is retried or recovered. *)
Definition stops_at_first_rejection (tr : list event) : Prop :=
  length (after_first_rejection tr) <= 1 /\
  forall c x, In (c, x) (after_first_rejection tr) -> is_setFailed c = true.

(** X8. In every run of either variant, after the first rejected call
    nothing is called but, at most once, [setFailed]: no call is retried and
    no later step is attempted. *)
Theorem run_stops_at_first_rejection :
  forall (W : Type) (h : handler W) parse parse2 w,
    stops_at_first_rejection (trace_of (Single.run h parse w)) /\
    stops_at_first_rejection (trace_of (Dual.run h parse2 w)).
Proof.
  intros W h parse parse2 w. split; apply run_with_stops_at_rejection.
Qed.

(** Every call of a trace takes its arguments from the inputs read and from
    the responses of earlier calls. *)
Definition well_sourced (tr : list event) : Prop :=
  forall c x, In (c, x) tr -> arguments_from tr c.

(** X9. In every run of either variant: the only inputs read are [owner],
    [repo], [token] and [branch]; the client is created with the token read;
    every call to the client names the owner and the repository read; the
    reference read and the reference moved are [heads/] followed by the
    branch read; the blob is utf-8; the tree has one item, the created blob
    at [reports/merkle-trees-by-user.json] with mode 100644, on top of the
    tip read; the commit is of the created tree. *)
Theorem run_takes_its_arguments_from_the_inputs :
  forall (W : Type) (h : handler W) parse parse2 w,
    well_sourced (trace_of (Single.run h parse w)) /\
    well_sourced (trace_of (Dual.run h parse2 w)).
Proof.
  intros W h parse parse2 w. split; intros c x; apply run_with_arguments.
Qed.

(** [setFailed] once at most and last; an abrupt completion only from it. *)
Definition reports_last_and_once {W : Type} (out : list event * completion unit * W)
    : Prop :=
  calls is_setFailed (trace_of out) <= 1 /\
  (forall msg x, In (SetFailed msg, x) (trace_of out) ->
     last (trace_of out) (SetFailed msg, x) = (SetFailed msg, x)) /\
  (forall t, result_of out = Throw t ->
     exists msg, In (SetFailed msg, Rejected t) (trace_of out)).

(** X10. In every run of either variant [setFailed] is called at most once
    and is then the last call; and the run completes abruptly, rejecting the
    promise of [run], only with a value thrown by [setFailed] itself: every
    other thrown value is caught. *)
Theorem run_reports_last_and_once :
  forall (W : Type) (h : handler W) parse parse2 w,
    reports_last_and_once (Single.run h parse w) /\
    reports_last_and_once (Dual.run h parse2 w).
Proof.
  intros W h parse parse2 w. split; apply run_with_setFailed_last.
Qed.

(** A complete run: eleven calls, none rejected, no failure reported. *)
Definition clean_run {W : Type} (out : list event * completion unit * W) : Prop :=
  length (trace_of out) = 11 /\
  result_of out = Normal tt /\
  (forall c t, ~ In (c, Rejected t) (trace_of out)) /\
  (forall c x, In (c, x) (trace_of out) -> is_setFailed c = false).

(** X11. A run of either variant in which [updateRef] is fulfilled made its
    eleven calls, none of which was rejected, reported no failure and
    completed normally: a moved branch and a reported failure exclude each
    other. *)
Theorem moved_branch_means_clean_run :
  forall (W : Type) (h : handler W) parse parse2 w owner repo ref commit,
    (In (UpdateRef owner repo ref commit, Returned None)
        (trace_of (Single.run h parse w)) ->
     clean_run (Single.run h parse w)) /\
    (In (UpdateRef owner repo ref commit, Returned None)
        (trace_of (Dual.run h parse2 w)) ->
     clean_run (Dual.run h parse2 w)).
Proof.
  intros W h parse parse2 w owner repo ref commit.
  split; intros Hin; exact (run_with_success h _ _ w _ _ _ _ Hin).
Qed.

Lemma moved_branch_means_clean_run_witness :
  clean_run
    (Single.run
       (Env.github Env.no_reject
          [ Env.directory "2021-01" [ Env.file "merkle-tree.json" ] ])
       Env.JSON_parse Env.repository) /\
  clean_run (Dual.run (Env.github Env.no_reject []) Env.JSON_parse_dual Env.repository).
Proof.
  split.
  - apply (proj1 (moved_branch_means_clean_run Env.World _ Env.JSON_parse
                    Env.JSON_parse_dual Env.repository
                    "AuxoDAO" "auxo-rewards" "heads/main" "c0ffee")).
    simpl. auto 14.
  - apply (proj2 (moved_branch_means_clean_run Env.World _ Env.JSON_parse
                    Env.JSON_parse_dual Env.repository
                    "AuxoDAO" "auxo-rewards" "heads/main" "c0ffee")).
    simpl. auto 14.
Defined.

(** A run that published nothing and reported [msg]. *)
Definition reported_without_publishing (msg : string) (tr : list event) : Prop :=
  (forall c x, In (c, x) tr -> is_publish c = false) /\
  (forall e o rp, In (Graphql e o rp, Returned None) tr ->
     exists pre x, tr = pre ++ [(SetFailed msg, x)]).

(** X12. When the builder throws on every tree the query returns, the run
    makes no publish call and the message [setFailed] receives is the
    message of the builder's error, unchanged: the parser's message for a
    malformed file, the engine's for a missing nested list. *)
Theorem builder_error_is_reported_verbatim :
  forall (W : Type) (h : handler W) parse parse2 w err,
    (answers h (fun qr => Single.merkleTreesByMonth parse qr = Throw (ErrorObject err)) ->
     reported_without_publishing (message err) (trace_of (Single.run h parse w))) /\
    (answers h (fun qr => Dual.merkleTreesByMonth parse2 qr = Throw (ErrorObject err)) ->
     reported_without_publishing (message err) (trace_of (Dual.run h parse2 w))).
Proof.
  intros W h parse parse2 w err. split; intros Hans.
  - apply (run_with_reports_arrange_error h (Single.arrange parse)
             Single.JSON_stringify w err).
    intros e o rp w0 qr w1 E. unfold Single.arrange.
    now rewrite (Hans e o rp w0 qr w1 E).
  - apply (run_with_reports_arrange_error h (Dual.arrange parse2)
             Dual.JSON_stringify w err).
    intros e o rp w0 qr w1 E. unfold Dual.arrange.
    now rewrite (Hans e o rp w0 qr w1 E).
Qed.

Lemma builder_error_is_reported_verbatim_witness :
  reported_without_publishing "Unexpected end of JSON input"
    (trace_of
       (Single.run
          (Env.github Env.no_reject
             [ Env.directory "2021-01"
                 [ {| file_name := "merkle-tree.json"; text := "" |} ] ])
          Env.JSON_parse Env.repository)).
Proof.
  apply (proj1 (builder_error_is_reported_verbatim Env.World
                  (Env.github Env.no_reject
                     [ Env.directory "2021-01"
                         [ {| file_name := "merkle-tree.json"; text := "" |} ] ])
                  Env.JSON_parse Env.JSON_parse_dual Env.repository
                  {| err_name := "SyntaxError";
                     message := "Unexpected end of JSON input" |})).
  intros e o rp w qr w1 E. simpl in E. injection E as <- _. reflexivity.
Defined.

Definition is_graphql (c : call) : bool :=
  match c with Graphql _ _ _ => true | _ => false end.
Definition is_getRef (c : call) : bool :=
  match c with GetRef _ _ _ => true | _ => false end.
Definition is_createBlob (c : call) : bool :=
  match c with CreateBlob _ _ _ _ => true | _ => false end.
Definition is_createTree (c : call) : bool :=
  match c with CreateTree _ _ _ _ => true | _ => false end.

(** One query and one object of each kind at most. *)
Definition one_of_each (tr : list event) : Prop :=
  calls is_graphql tr <= 1 /\ calls is_getRef tr <= 1 /\
  calls is_createBlob tr <= 1 /\ calls is_createTree tr <= 1 /\
  calls is_github tr <= 6.

Lemma run_with_one_of_each {W U : Type} (h : handler W)
    (arrange : QueryResult -> completion U) (stringify : U -> string) w :
  one_of_each (trace_of (run_with h arrange stringify w)).
Proof. run_cases h arrange; unfold one_of_each, calls; simpl; lia. Qed.

(** X13. A run of either variant queries the tree once at most, reads the
    branch once at most and creates at most one blob and one tree: at most
    six calls to the client in all. *)
Theorem run_makes_each_client_call_once :
  forall (W : Type) (h : handler W) parse parse2 w,
    one_of_each (trace_of (Single.run h parse w)) /\
    one_of_each (trace_of (Dual.run h parse2 w)).
Proof.
  intros W h parse parse2 w. split; apply run_with_one_of_each.
Qed.
